(** * Traffic-control rule compiler of chaosd ([pkg/server/chaosd/tc.go])

    A shallow embedding of the functions of [tc.go] and the properties of
    the compiled qdisc plan: the argument codec ([convertNetemToArgs],
    [convertTbfToArgs]), the qdisc argument builder ([generateQdiscArgs]),
    the operations of [tcClient] ([flush], [addTc], [addPrio], [addNetem],
    [addTbf], [addFilter]) and the entry point [SetContainerTcRules].
    The redis attack ([Validate], [Attack], [Recover] and the two
    operations on the sentinel) follows in the module [Redis].

    Go's [int] and the integer fields of the protobuf messages are modelled
    as [Z]; slice lengths stay far below 2^63, so no wrap-around occurs in
    the handle arithmetic.  Go strings are [string]; a Go [map] is a [gmap]
    together with the order in which [range] visits it. *)

From Stdlib Require Import ZArith String Ascii List Permutation Lia.
From Stdlib Require Import DecimalString DecimalPos DecimalZ.
From stdpp Require Import gmap strings list.

Local Open Scope string_scope.
Local Open Scope list_scope.
Local Open Scope Z_scope.

(** ** The parts of Go's standard library that [tc.go] calls *)

Module GoStrings.

(** [strings.Split(s, sep)] for a one-byte separator; every call site of
    [tc.go] passes [" "].  The result always has one more element than
    [s] has separators, so [Split "" sep = [""]]. *)
Fixpoint Split (s : string) (sep : ascii) : list string :=
  match s with
  | EmptyString => [EmptyString]
  | String c s' =>
      if Ascii.eqb c sep then EmptyString :: Split s' sep
      else match Split s' sep with
           | [] => [String c EmptyString]
           | w :: ws => String c w :: ws
           end
  end.

(** [strings.Join(elems, sep)]. *)
Definition Join (elems : list string) (sep : string) : string :=
  String.concat sep elems.

(** [strings.Contains(s, substr)]. *)
Fixpoint Contains (s substr : string) : bool :=
  match s with
  | EmptyString => String.prefix substr EmptyString
  | String _ s' => String.prefix substr s || Contains s' substr
  end.

(** [len(s)] *)
Definition len (s : string) : Z := Z.of_nat (String.length s).

End GoStrings.

Module GoFmt.

(** The [%d] verb of [fmt.Sprintf]. *)
Definition d (z : Z) : string := NilZero.string_of_int (Z.to_int z).

(** [fmt.Sprintf("%d:%d", major, minor)] *)
Definition handle_pair (major minor : Z) : string :=
  d major +:+ ":" +:+ d minor.

End GoFmt.

(** The [%f] verb and the comparison with zero of the [float32] fields are
    kept abstract: no property below depends on the digits of a rendered
    float, only on the sign test and on the rendering being one token. *)
Class FloatVerb := {
  float32 : Type;
  (** the zero value of the type *)
  float32_zero : float32;
  (** [x > 0] *)
  float32_gt0 : float32 -> bool;
  (** [fmt.Sprintf("%f", x)] *)
  Sprintf_f : float32 -> string
}.

Definition space : ascii := " "%char.

(** A string without a blank. *)
Fixpoint no_space (s : string) : bool :=
  match s with
  | EmptyString => true
  | String c s' => negb (Ascii.eqb c space) && no_space s'
  end.

(** What every rendering of a number by [%d] or [%f] looks like: it is not
    empty, holds no blank and starts with a digit, a sign or the [N] of
    [NaN]. *)
Definition number_start (c : ascii) : bool :=
  existsb (Ascii.eqb c) (list_ascii_of_string "0123456789-+N").

Definition number_token (s : string) : bool :=
  match s with
  | EmptyString => false
  | String c s' => number_start c && no_space s'
  end.

Class FloatVerbLaws `{FloatVerb} : Prop := {
  float32_zero_gt0 : float32_gt0 float32_zero = false;
  Sprintf_f_token : forall x : float32, number_token (Sprintf_f x) = true
}.

(** ** The protobuf messages ([serverpb]) as far as [tc.go] reads them *)

(** Modelled from the spec: the generated package [serverpb] is not part
    of the sources at hand.  The messages below have the fields [tc.go]
    reads, under the names it uses; the data model of the design gives
    their kinds (integers, and floats for probabilities and
    correlations).  Integer fields are [Z], which covers the unsigned
    fields of the real messages. *)

Module Netem.
Record t {FV : FloatVerb} := mk {
  Time : Z;
  Jitter : Z;
  DelayCorr : float32;
  Limit : Z;
  Loss : float32;
  LossCorr : float32;
  Gap : Z;
  Duplicate : float32;
  DuplicateCorr : float32;
  Reorder : float32;
  ReorderCorr : float32;
  Corrupt : float32;
  CorruptCorr : float32
}.
Arguments mk {FV}.
End Netem.

Module Tbf.
Record t := mk {
  Rate : Z;
  Limit : Z;
  Buffer : Z;
  PeakRate : Z;
  MinBurst : Z
}.
End Tbf.

(** [pb.Tc_Type] is an [int32] enumeration: besides the two named values a
    message can carry any other number. *)
Inductive Tc_Type :=
| Tc_BANDWIDTH
| Tc_NETEM
| Tc_unknown (v : Z).

Module Tc.
Record t {FV : FloatVerb} := mk {
  Type_ : Tc_Type;
  Netem : option Netem.t;
  Tbf : option Tbf.t;
  Ipset : string
}.
Arguments mk {FV}.
End Tc.

Record TcsRequest {FV : FloatVerb} := {
  Tcs : list Tc.t;
  ContainerId : string
}.

Record TcHandle := {
  Major : Z;
  Minor : Z
}.

Module Qdisc.
Record t := mk {
  Parent : option TcHandle;
  Handle : option TcHandle;
  Type_ : string;
  Args : list string
}.
End Qdisc.

Inductive Chain_Direction := Chain_INPUT | Chain_OUTPUT.

Module Chain.
Record t := mk {
  Name : string;
  Direction : Chain_Direction;
  Ipsets : list string;
  Target : string
}.
End Chain.

(** ** Errors *)

Inductive error :=
| Errorf (msg : string)        (* fmt.Errorf with a constant message *)
| External (msg : string)      (* an error value made by a collaborator *)
| WithStack (cause : error).   (* errors.WithStack *)

(** [errors.Cause(err)] and [err.Error()]: the annotation with a stack
    trace changes neither. *)
Fixpoint Cause (err : error) : error :=
  match err with
  | WithStack cause => Cause cause
  | _ => err
  end.

Fixpoint Message (err : error) : string :=
  match err with
  | Errorf msg => msg
  | External msg => msg
  | WithStack cause => Message cause
  end.

(** ** The argument codec *)

Section Codec.
Context {FV : FloatVerb}.
Import GoStrings.

(** The string [args] that [convertNetemToArgs] accumulates before it
    trims it. *)
Definition netemRawArgs (netem : Netem.t) : string :=
  let args := "" in
  let args :=
    if 0 <? Netem.Time netem then
      let args := "delay " +:+ GoFmt.d (Netem.Time netem) in
      let args :=
        if 0 <? Netem.Jitter netem then
          let args := args +:+ " " +:+ GoFmt.d (Netem.Jitter netem) in
          if float32_gt0 (Netem.DelayCorr netem)
          then args +:+ " " +:+ Sprintf_f (Netem.DelayCorr netem)
          else args
        else args in
      (* reordering not possible without specifying some delay *)
      if float32_gt0 (Netem.Reorder netem) then
        let args := args +:+ " reorder " +:+ Sprintf_f (Netem.Reorder netem) in
        let args :=
          if float32_gt0 (Netem.ReorderCorr netem)
          then args +:+ " " +:+ Sprintf_f (Netem.ReorderCorr netem)
          else args in
        if 0 <? Netem.Gap netem
        then args +:+ " gap " +:+ GoFmt.d (Netem.Gap netem)
        else args
      else args
    else args in
  let args :=
    if 0 <? Netem.Limit netem
    then args +:+ " limit " +:+ GoFmt.d (Netem.Limit netem)
    else args in
  let args :=
    if float32_gt0 (Netem.Loss netem) then
      let args := args +:+ " loss " +:+ Sprintf_f (Netem.Loss netem) in
      if float32_gt0 (Netem.LossCorr netem)
      then args +:+ " " +:+ Sprintf_f (Netem.LossCorr netem)
      else args
    else args in
  let args :=
    if float32_gt0 (Netem.Duplicate netem) then
      let args := args +:+ " duplicate " +:+ Sprintf_f (Netem.Duplicate netem) in
      if float32_gt0 (Netem.DuplicateCorr netem)
      then args +:+ " " +:+ Sprintf_f (Netem.DuplicateCorr netem)
      else args
    else args in
  let args :=
    if float32_gt0 (Netem.Corrupt netem) then
      let args := args +:+ " corrupt " +:+ Sprintf_f (Netem.Corrupt netem) in
      if float32_gt0 (Netem.CorruptCorr netem)
      then args +:+ " " +:+ Sprintf_f (Netem.CorruptCorr netem)
      else args
    else args in
  args.

(** The loop that keeps the non-empty parts of [strings.Split(args, " ")]. *)
Definition trimedArgs (args : string) : list string :=
  List.filter (fun part => 0 <? len part) (Split args space).

Definition convertNetemToArgs (netem : Netem.t) : string :=
  Join (trimedArgs (netemRawArgs netem)) " ".

Definition convertTbfToArgs (tbf : Tbf.t) : string :=
  let args := "rate " +:+ GoFmt.d (Tbf.Rate tbf) +:+ " burst " +:+ GoFmt.d (Tbf.Buffer tbf) in
  let args :=
    if 0 <? Tbf.Limit tbf
    then args +:+ " limit " +:+ GoFmt.d (Tbf.Limit tbf)
    else args in
  let args :=
    if 0 <? Tbf.PeakRate tbf
    then args +:+ " peakrate " +:+ GoFmt.d (Tbf.PeakRate tbf)
              +:+ " mtu " +:+ GoFmt.d (Tbf.MinBurst tbf)
    else args in
  args.

End Codec.

(** ** [generateQdiscArgs] *)

Definition generateQdiscArgs (action : string) (qdisc : option Qdisc.t)
  : error + list string :=
  match qdisc with
  | None => inl (Errorf "qdisc is required")
  | Some qdisc =>
      if String.eqb (Qdisc.Type_ qdisc) ""
      then inl (Errorf "qdisc.Type is required")
      else
        let args := ["qdisc"; action; "dev"; "eth0"] in
        let args :=
          match Qdisc.Parent qdisc with
          | None => args ++ ["root"]
          | Some p =>
              if (Major p =? 1) && (Minor p =? 0)
              then args ++ ["root"]
              else args ++ ["parent"; GoFmt.handle_pair (Major p) (Minor p)]
          end in
        let args :=
          match Qdisc.Handle qdisc with
          | None => args ++ ["handle"; GoFmt.handle_pair 1 0]
          | Some h => args ++ ["handle"; GoFmt.handle_pair (Major h) (Minor h)]
          end in
        let args := args ++ [Qdisc.Type_ qdisc] in
        let args := args ++ Qdisc.Args qdisc in
        inr args
  end.

(** ** The collaborators and the trace of what was asked of them *)

(** A process built by [bpm.DefaultProcessBuilder(name, args...)] with
    [SetNetNS(netns)]. *)
Record Cmd := {
  cmd_name : string;
  cmd_args : list string;
  cmd_netns : string
}.

Inductive Event :=
| EvExec (cmd : Cmd)
| EvSetIptablesChains (netns : string) (chains : list Chain.t).

(** Everything [tc.go] consumes and does not define: the container runtime
    client, the command runner, the packet-filter client, the helper
    [encodeOutputToError] and the order in which the Go runtime lets
    [range] visit a map.  A collaborator answers from the history of the
    requests made so far.  Cancellation through the [context] is not
    modelled. *)
Record World {FV : FloatVerb} := {
  GetPidFromContainerID : string -> error + Z;
  GetNsPath : Z -> string;
  CombinedOutput : list Event -> Cmd -> string * option error;
  setIptablesChains : list Event -> string -> list Chain.t -> option error;
  encodeOutputToError : string -> error -> error;
  mapRange : gmap string (list Tc.t) -> list (string * list Tc.t)
}.

(** The only thing Go promises about [range] over a map: every entry is
    visited once. *)
Class WorldLaws {FV : FloatVerb} (w : World) : Prop := {
  mapRange_perm : forall m, Permutation (mapRange w m) (map_to_list m)
}.

(** A computation that may fail with an [error] and extends the trace. *)
Definition M (A : Type) : Type := list Event -> (error + A) * list Event.

Definition ret {A} (a : A) : M A := fun h => (inr a, h).
Definition throw {A} (e : error) : M A := fun h => (inl e, h).
Definition bind {A B} (m : M A) (k : A -> M B) : M B :=
  fun h =>
    match m h with
    | (inl e, h') => (inl e, h')
    | (inr a, h') => k a h'
    end.

Notation "x <- m ;; k" := (bind m (fun x => k))
  (at level 100, m at next level, right associativity).
Notation "m ;;; k" := (bind m (fun _ => k))
  (at level 100, right associativity).

(** [if err != nil { return errors.WithStack(err) }] around a call. *)
Definition withStack {A} (m : M A) : M A :=
  fun h =>
    match m h with
    | (inl e, h') => (inl (WithStack e), h')
    | (inr a, h') => (inr a, h')
    end.

Definition RULE_NOT_EXIST : string := "RTNETLINK answers: No such file or directory".
Definition ruleNotExist : string := "Cannot delete qdisc with handle of zero.".
Definition ruleNotExistLowerVersion : string := "RTNETLINK answers: No such file or directory".

Record tcClient := {
  nsPath : string
}.

Definition buildTcClient (nsPath : string) : tcClient := {| nsPath := nsPath |}.

Section Client.
Context {FV : FloatVerb} (w : World).
Import GoStrings.

(** [cmd.CombinedOutput()] of the process [tc args...] in the client's
    namespace. *)
Definition runTc (c : tcClient) (args : list string) : M (string * option error) :=
  fun h =>
    let cmd := {| cmd_name := "tc"; cmd_args := args; cmd_netns := nsPath c |} in
    (inr (CombinedOutput w h cmd), h ++ [EvExec cmd]).

Definition flush (c : tcClient) : M unit :=
  r <- runTc c ["qdisc"; "del"; "dev"; "eth0"; "root"] ;;
  let '(output, err) := r in
  match err with
  | Some err =>
      if negb (Contains output RULE_NOT_EXIST) then throw err else ret tt
  | None => ret tt
  end.

(** The common tail of [addPrio], [addNetem] and [addTbf]. *)
Definition runArgs (c : tcClient) (args : string) : M unit :=
  r <- runTc c (Split args space) ;;
  let '(output, err) := r in
  match err with
  | Some err => throw (encodeOutputToError w output err)
  | None => ret tt
  end.

Definition addNetem (c : tcClient) (parent handle : string) (netem : Netem.t) : M unit :=
  runArgs c ("qdisc add dev eth0 " +:+ parent +:+ " " +:+ handle
             +:+ " netem " +:+ convertNetemToArgs netem).

Definition addTbf (c : tcClient) (parent handle : string) (tbf : Tbf.t) : M unit :=
  runArgs c ("qdisc add dev eth0 " +:+ parent +:+ " " +:+ handle
             +:+ " tbf " +:+ convertTbfToArgs tbf).

Definition addTc (c : tcClient) (parentArg handleArg : string) (tc : Tc.t) : M unit :=
  match Tc.Type_ tc with
  | Tc_BANDWIDTH =>
      match Tc.Tbf tc with
      | None => throw (Errorf "tbf is nil while type is BANDWIDTH")
      | Some tbf => addTbf c parentArg handleArg tbf
      end
  | Tc_NETEM =>
      match Tc.Netem tc with
      | None => throw (Errorf "netem is nil while type is NETEM")
      | Some netem => addNetem c parentArg handleArg netem
      end
  | Tc_unknown _ => throw (Errorf "unknown tc qdisc type")
  end.

(** The loop [for index := 1; index <= 3; index++] of [addPrio], from
    [index] on; [fuel] bounds the iterations and three are enough. *)
Fixpoint addSfq (c : tcClient) (parent : Z) (index : Z) (fuel : nat) : M unit :=
  match fuel with
  | O => ret tt
  | S fuel =>
      if index <=? 3 then
        runArgs c ("qdisc add dev eth0 parent " +:+ GoFmt.d (parent + 1) +:+ ":" +:+ GoFmt.d index
                   +:+ " handle " +:+ GoFmt.d (parent + 1 + index) +:+ ": sfq") ;;;
        addSfq c parent (index + 1) fuel
      else ret tt
  end.

Definition addPrio (c : tcClient) (parent band : Z) : M unit :=
  let parentArg := if 0 <? parent then "parent " +:+ GoFmt.d parent +:+ ":" else "root" in
  runArgs c ("qdisc add dev eth0 " +:+ parentArg +:+ " handle " +:+ GoFmt.d (parent + 1)
             +:+ ": prio bands " +:+ GoFmt.d band
             +:+ " priomap 1 2 2 2 1 2 0 0 1 1 1 1 1 1 1 1") ;;;
  addSfq c parent 1 3.

End Client.

(** ** [SetContainerTcRules] *)

Section Server.
Context {FV : FloatVerb} (w : World).

(** [s.criCli.GetPidFromContainerID(ctx, in.ContainerId)] *)
Definition getPid (containerId : string) : M Z :=
  fun h => (GetPidFromContainerID w containerId, h).

(** [iptables.setIptablesChains(chains)] of the client built by
    [buildIptablesClient(ctx, nsPath)]. *)
Definition setChains (nsPath : string) (chains : list Chain.t) : M unit :=
  fun h =>
    let h' := h ++ [EvSetIptablesChains nsPath chains] in
    match setIptablesChains w h nsPath chains with
    | Some err => (inl err, h')
    | None => (inr tt, h')
    end.

(** One iteration of the loop over [in.Tcs] that fills [globalTc] and
    [filterTc]. *)
Definition splitStep (acc : list Tc.t * gmap string (list Tc.t)) (tc : Tc.t)
  : list Tc.t * gmap string (list Tc.t) :=
  let '(globalTc, filterTc) := acc in
  if String.eqb (Tc.Ipset tc) ""
  then (globalTc ++ [tc], filterTc)
  else (globalTc,
        <[Tc.Ipset tc := default [] (filterTc !! Tc.Ipset tc) ++ [tc]]> filterTc).

Definition splitTcs (tcs : list Tc.t) : list Tc.t * gmap string (list Tc.t) :=
  fold_left splitStep tcs ([], ∅).

(** The loop [for index, tc := range globalTc], from [index] on. *)
Fixpoint addGlobalTcs (c : tcClient) (index : Z) (globalTc : list Tc.t) : M unit :=
  match globalTc with
  | [] => ret tt
  | tc :: rest =>
      let parentArg :=
        if 0 <? index then "parent " +:+ GoFmt.d index +:+ ":" else "root" in
      let handleArg := "handle " +:+ GoFmt.d (index + 1) +:+ ":" in
      withStack (addTc w c parentArg handleArg tc) ;;;
      addGlobalTcs c (index + 1) rest
  end.

(** The inner loop [for i, tc := range tcs] of one filtered group, from
    [i] on; it returns the advanced [currentHandler]. *)
Fixpoint addFilterTcs (c : tcClient) (parent index i currentHandler : Z)
         (tcs : list Tc.t) : M Z :=
  match tcs with
  | [] => ret currentHandler
  | tc :: rest =>
      let parentArg :=
        if 0 <? i
        then "parent " +:+ GoFmt.d currentHandler +:+ ":"
        else "parent " +:+ GoFmt.d parent +:+ ":" +:+ GoFmt.d (index + 4) in
      let currentHandler := currentHandler + 1 in
      let handleArg := "handle " +:+ GoFmt.d currentHandler +:+ ":" in
      withStack (addTc w c parentArg handleArg tc) ;;;
      addFilterTcs c parent index (i + 1) currentHandler rest
  end.

(** The chain appended after the rules of the group at [index]. *)
Definition tcChain (ipset : string) (parent index : Z) : Chain.t :=
  {| Chain.Name := "TC-TABLES-" +:+ GoFmt.d index;
     Chain.Direction := Chain_OUTPUT;
     Chain.Ipsets := [ipset];
     Chain.Target := "CLASSIFY --set-class " +:+ GoFmt.d parent +:+ ":" +:+ GoFmt.d (index + 4) |}.

(** The outer loop [for ipset, tcs := range filterTc] over the entries
    in the order the runtime yields them. *)
Fixpoint addFilterGroups (c : tcClient) (parent index currentHandler : Z)
         (chains : list Chain.t) (groups : list (string * list Tc.t))
  : M (list Chain.t) :=
  match groups with
  | [] => ret chains
  | (ipset, tcs) :: rest =>
      currentHandler <- addFilterTcs c parent index 0 currentHandler tcs ;;
      let chains := chains ++ [tcChain ipset parent index] in
      addFilterGroups c parent (index + 1) currentHandler chains rest
  end.

Definition SetContainerTcRules (in_ : TcsRequest) : M unit :=
  pid <- withStack (getPid (ContainerId in_)) ;;
  let nsPath := GetNsPath w pid in
  let tcClient := buildTcClient nsPath in
  withStack (flush w tcClient) ;;;
  let '(globalTc, filterTc) := splitTcs (Tcs in_) in
  addGlobalTcs tcClient 0 globalTc ;;;
  let parent := Z.of_nat (length globalTc) in
  let band := 3 + Z.of_nat (size filterTc) in
  withStack (addPrio w tcClient parent band) ;;;
  let parent := parent + 1 in
  let index := 0 in
  let currentHandler := parent + 3 in
  chains <- addFilterGroups tcClient parent index currentHandler [] (mapRange w filterTc) ;;
  withStack (setChains nsPath chains).

End Server.

(** ** The encodings as the design describes them *)

Section CodecSpec.
Context {FV : FloatVerb}.

(** An optional integer or float sub-field: present when it is set. *)
Definition optD (x : Z) : list string :=
  if 0 <? x then [GoFmt.d x] else [].

Definition optF (x : float32) : list string :=
  if float32_gt0 x then [Sprintf_f x] else [].

(** [delay <d> [<jitter> [<delayCorr>]]], then (only if [delay > 0])
    [reorder <p> [<corr>] [gap <g>]]. *)
Definition delayTokens (n : Netem.t) : list string :=
  if 0 <? Netem.Time n then
    ["delay"; GoFmt.d (Netem.Time n)]
    ++ (if 0 <? Netem.Jitter n
        then [GoFmt.d (Netem.Jitter n)] ++ optF (Netem.DelayCorr n)
        else [])
    ++ (if float32_gt0 (Netem.Reorder n)
        then ["reorder"; Sprintf_f (Netem.Reorder n)]
             ++ optF (Netem.ReorderCorr n)
             ++ (if 0 <? Netem.Gap n then ["gap"; GoFmt.d (Netem.Gap n)] else [])
        else [])
  else [].

(** [limit <n>] *)
Definition limitTokens (limit : Z) : list string :=
  if 0 <? limit then ["limit"; GoFmt.d limit] else [].

(** [loss <p> [<corr>]], [duplicate <p> [<corr>]], [corrupt <p> [<corr>]] *)
Definition probTokens (kw : string) (p corr : float32) : list string :=
  if float32_gt0 p then [kw; Sprintf_f p] ++ optF corr else [].

(** A payload with only [delay] set, one with [jitter] added, and one
    with only [reorder] set. *)
Definition delayOnly (delay : Z) : Netem.t :=
  Netem.mk delay 0 float32_zero 0 float32_zero float32_zero 0
           float32_zero float32_zero float32_zero float32_zero
           float32_zero float32_zero.

Definition delayJitter (delay jitter : Z) : Netem.t :=
  Netem.mk delay jitter float32_zero 0 float32_zero float32_zero 0
           float32_zero float32_zero float32_zero float32_zero
           float32_zero float32_zero.

Definition reorderOnly (reorder : float32) : Netem.t :=
  Netem.mk 0 0 float32_zero 0 float32_zero float32_zero 0
           float32_zero float32_zero reorder float32_zero
           float32_zero float32_zero.

Definition netemTokens (n : Netem.t) : list string :=
  delayTokens n
  ++ limitTokens (Netem.Limit n)
  ++ probTokens "loss" (Netem.Loss n) (Netem.LossCorr n)
  ++ probTokens "duplicate" (Netem.Duplicate n) (Netem.DuplicateCorr n)
  ++ probTokens "corrupt" (Netem.Corrupt n) (Netem.CorruptCorr n).

(** [rate <r> burst <b>], then [limit <n>] if set, then
    [peakrate <p> mtu <m>] if the peak rate is set. *)
Definition tbfTokens (t : Tbf.t) : list string :=
  ["rate"; GoFmt.d (Tbf.Rate t); "burst"; GoFmt.d (Tbf.Buffer t)]
  ++ limitTokens (Tbf.Limit t)
  ++ (if 0 <? Tbf.PeakRate t
      then ["peakrate"; GoFmt.d (Tbf.PeakRate t); "mtu"; GoFmt.d (Tbf.MinBurst t)]
      else []).

End CodecSpec.

(** ** The compiled plan

    [SetContainerTcRules] interleaves computing the parent and handle of
    each qdisc with running it.  The plan is the list of operations it
    would issue when none fails; running the operations one by one and
    stopping at the first failure is what the loops do (proved below). *)

Section Plan.
Context {FV : FloatVerb}.

Inductive Op :=
| OpAddTc (parentArg handleArg : string) (tc : Tc.t)   (* a call of [addTc] *)
| OpRun (args : string).                               (* a command of [addPrio] *)

(** The rule kinds [addTc] rejects before it runs anything. *)
Definition malformedTc (tc : Tc.t) : Prop :=
  (Tc.Type_ tc <> Tc_NETEM /\ Tc.Type_ tc <> Tc_BANDWIDTH)
  \/ (Tc.Type_ tc = Tc_BANDWIDTH /\ Tc.Tbf tc = None)
  \/ (Tc.Type_ tc = Tc_NETEM /\ Tc.Netem tc = None).

(** The qdisc kind and the encoded arguments of a well-formed rule. *)
Definition tcPayload (tc : Tc.t) : option (string * string) :=
  match Tc.Type_ tc with
  | Tc_BANDWIDTH =>
      match Tc.Tbf tc with
      | Some tbf => Some ("tbf", convertTbfToArgs tbf)
      | None => None
      end
  | Tc_NETEM =>
      match Tc.Netem tc with
      | Some netem => Some ("netem", convertNetemToArgs netem)
      | None => None
      end
  | Tc_unknown _ => None
  end.

Definition tcCmd (ns : string) (args : list string) : Cmd :=
  {| cmd_name := "tc"; cmd_args := args; cmd_netns := ns |}.

(** The command an operation runs, if it gets as far as running one. *)
Definition opCmd (ns : string) (op : Op) : option Cmd :=
  match op with
  | OpAddTc parentArg handleArg tc =>
      match tcPayload tc with
      | Some (kind, args) =>
          Some (tcCmd ns (GoStrings.Split
                            ("qdisc add dev eth0 " +:+ parentArg +:+ " " +:+ handleArg
                             +:+ " " +:+ kind +:+ " " +:+ args) space))
      | None => None
      end
  | OpRun args => Some (tcCmd ns (GoStrings.Split args space))
  end.

Definition runOp (w : World) (c : tcClient) (op : Op) : M unit :=
  match op with
  | OpAddTc parentArg handleArg tc => addTc w c parentArg handleArg tc
  | OpRun args => runArgs w c args
  end.

Fixpoint runOps (w : World) (c : tcClient) (ops : list Op) : M unit :=
  match ops with
  | [] => ret tt
  | op :: ops => withStack (runOp w c op) ;;; runOps w c ops
  end.

(** Parent and handle of the global rule at [index]. *)
Definition globalParentArg (index : Z) : string :=
  if 0 <? index then "parent " +:+ GoFmt.d index +:+ ":" else "root".

Definition handleArgOf (handle : Z) : string :=
  "handle " +:+ GoFmt.d handle +:+ ":".

Fixpoint globalOps (index : Z) (globalTc : list Tc.t) : list Op :=
  match globalTc with
  | [] => []
  | tc :: rest =>
      OpAddTc (globalParentArg index) (handleArgOf (index + 1)) tc
      :: globalOps (index + 1) rest
  end.

Definition prioArgs (parent band : Z) : string :=
  "qdisc add dev eth0 " +:+ globalParentArg parent +:+ " handle " +:+ GoFmt.d (parent + 1)
  +:+ ": prio bands " +:+ GoFmt.d band
  +:+ " priomap 1 2 2 2 1 2 0 0 1 1 1 1 1 1 1 1".

Definition sfqArgs (parent index : Z) : string :=
  "qdisc add dev eth0 parent " +:+ GoFmt.d (parent + 1) +:+ ":" +:+ GoFmt.d index
  +:+ " handle " +:+ GoFmt.d (parent + 1 + index) +:+ ": sfq".

Definition prioOps (parent band : Z) : list Op :=
  [OpRun (prioArgs parent band);
   OpRun (sfqArgs parent 1); OpRun (sfqArgs parent 2); OpRun (sfqArgs parent 3)].

(** The band of the multiplexer [parent] given to the group at [index]. *)
Definition bandOf (parent index : Z) : string :=
  GoFmt.d parent +:+ ":" +:+ GoFmt.d (index + 4).

Fixpoint groupOps (parent index i currentHandler : Z) (tcs : list Tc.t) : list Op :=
  match tcs with
  | [] => []
  | tc :: rest =>
      OpAddTc (if 0 <? i
               then "parent " +:+ GoFmt.d currentHandler +:+ ":"
               else "parent " +:+ bandOf parent index)
              (handleArgOf (currentHandler + 1)) tc
      :: groupOps parent index (i + 1) (currentHandler + 1) rest
  end.

Fixpoint filterOps (parent index currentHandler : Z)
         (groups : list (string * list Tc.t)) : list Op :=
  match groups with
  | [] => []
  | (ipset, tcs) :: rest =>
      groupOps parent index 0 currentHandler tcs
      ++ filterOps parent (index + 1) (currentHandler + Z.of_nat (length tcs)) rest
  end.

Fixpoint filterChains (parent index : Z) (groups : list (string * list Tc.t))
  : list Chain.t :=
  match groups with
  | [] => []
  | (ipset, tcs) :: rest =>
      tcChain ipset parent index :: filterChains parent (index + 1) rest
  end.

(** The rules without a destination set, and the destination sets in
    the order of their first occurrence. *)
Definition globalRules (tcs : list Tc.t) : list Tc.t :=
  List.filter (fun tc => String.eqb (Tc.Ipset tc) "") tcs.

Fixpoint firstSeen (keys : list string) : list string :=
  match keys with
  | [] => []
  | k :: rest => k :: List.filter (fun k' => negb (String.eqb k' k)) (firstSeen rest)
  end.

Definition destinationSets (tcs : list Tc.t) : list string :=
  firstSeen (List.filter (fun k => negb (String.eqb k "")) (List.map Tc.Ipset tcs)).

(** The result of running a command on the history [h]. *)
Definition cmdResult (w : World) (h : list Event) (cmd : Cmd) : error + unit :=
  match CombinedOutput w h cmd with
  | (output, Some err) => inl (encodeOutputToError w output err)
  | (_, None) => inr tt
  end.

(** The order in which the runtime walks the groups of a request. *)
Definition groupsOf (w : World) (tcs : list Tc.t) : list (string * list Tc.t) :=
  mapRange w (snd (splitTcs tcs)).

(** The whole plan of a request. *)
Definition planOf (w : World) (tcs : list Tc.t) : list Op :=
  let '(globalTc, filterTc) := splitTcs tcs in
  let g := Z.of_nat (length globalTc) in
  globalOps 0 globalTc
  ++ prioOps g (3 + Z.of_nat (size filterTc))
  ++ filterOps (g + 1) 0 (g + 4) (mapRange w filterTc).

Definition chainsOf (w : World) (tcs : list Tc.t) : list Chain.t :=
  let '(globalTc, filterTc) := splitTcs tcs in
  filterChains (Z.of_nat (length globalTc) + 1) 0 (mapRange w filterTc).

Definition flushCmd (ns : string) : Cmd :=
  tcCmd ns ["qdisc"; "del"; "dev"; "eth0"; "root"].

(** What [flush] returns for the answer of the command runner. *)
Definition flushResult (w : World) (h : list Event) (ns : string) : error + unit :=
  match CombinedOutput w h (flushCmd ns) with
  | (output, Some err) =>
      if GoStrings.Contains output RULE_NOT_EXIST then inr tt else inl err
  | (_, None) => inr tt
  end.

(** The rules of a request that name the destination set [k]. *)
Definition rulesOf (k : string) (tcs : list Tc.t) : list Tc.t :=
  List.filter (fun tc => String.eqb (Tc.Ipset tc) k) tcs.

(** The chains for the destination sets [sets] taken in this order,
    below [g] unfiltered rules: [TC-TABLES-0], [TC-TABLES-1], ... *)
Definition chainsFor (g : Z) (sets : list string) : list Chain.t :=
  imap (fun j ipset => tcChain ipset (g + 1) (Z.of_nat j)) sets.

(** The number of filtered rules in the groups before the one at
    position [j]. *)
Definition rulesBefore (groups : list (string * list Tc.t)) (j : nat) : nat :=
  length (concat (List.map snd (take j groups))).

End Plan.

(** ** [addFilter] *)

Section Filter.
Context {FV : FloatVerb} (w : World).
Import GoStrings.

(** The match expression is appended as one argument, blank included;
    [parent] and [classid] are cut at their blanks. *)
Definition addFilter (c : tcClient) (parent classid ipset : string) : M unit :=
  let args := Split ("filter add dev eth0 " +:+ parent +:+ " basic match") space in
  let args := args ++ ["ipset(" +:+ ipset +:+ " dst)"] in
  let args := args ++ Split classid space in
  r <- runTc w c args ;;
  let '(output, err) := r in
  match err with
  | Some err => throw (encodeOutputToError w output err)
  | None => ret tt
  end.

End Filter.

(** * The redis attack

    [RedisCommand.Validate] of the package [core], and [Attack],
    [Recover], [shutdownSentinelServer] and [recoverSentinelStop] of the
    redis attack of the package [chaosd]. *)

Module Redis.

Definition RedisSentinelRestartAction : string := "restart".
Definition RedisSentinelStopAction : string := "stop".
Definition RedisCachePenetrationAction : string := "penetration".
Definition RedisCacheExpirationAction : string := "expiration".

Definition STATUSOK : string := "OK".

(** [core.RedisCommand].  Of the embedded [CommonAttackConfig] only
    [Action] is read here.  [Frequency] and [ConcurrentNum] are the two
    fields [Attack] reads in its penetration case; the declaration of
    the struct at hand does not list them, [Validate] looks at
    [RequestNum] instead. *)
Record RedisCommand := {
  Action : string;
  Addr : string;
  Password : string;
  Conf : string;
  FlushConfig : bool;
  RedisPath : string;
  RequestNum : Z;
  Key : string;
  Expiration : string;
  Option : string;
  Frequency : Z;
  ConcurrentNum : Z
}.

(** [RedisCommand.Validate]; [common] is the result of
    [r.CommonAttackConfig.Validate()].  [errors.New] makes an error that
    carries its message. *)
Definition Validate (common : option error) (r : RedisCommand) : option error :=
  match common with
  | Some err => Some err
  | None =>
      if GoStrings.len (Addr r) =? 0
      then Some (Errorf "addr of redis server is required")
      else if String.eqb (Action r) RedisCachePenetrationAction then
        if RequestNum r =? 0 then Some (Errorf "request-num is required") else None
      else if String.eqb (Action r) RedisCacheExpirationAction then
        if negb (String.eqb (Option r) "") && negb (String.eqb (Option r) "XX")
           && negb (String.eqb (Option r) "NX") && negb (String.eqb (Option r) "GT")
           && negb (String.eqb (Option r) "LT")
        then Some (Errorf "option invalid")
        else None
      else None
  end.

(** What the attack asks of the redis server and of the operating
    system.  A client is given by the options it was made with. *)
Inductive Request :=
| Ping (addr password : string)
| SentinelFlushConfig (addr : string)
| Shutdown (addr password : string)
| Get (addr password key : string)
| Exec (name : string) (args : list string).

(** The answers: the result and the error of a request, given the
    requests made before it; and the value of
    [int(math.Ceil(float64(a) / float64(b)))]. *)
Record Env := {
  Result : list Request -> Request -> string * option error;
  ceilQuot : Z -> Z -> Z
}.

Definition call (env : Env) (req : Request) (h : list Request)
  : (string * option error) * list Request :=
  (Result env h req, h ++ [req]).

(** [errors.WithStack(err)], which keeps [nil]. *)
Definition WithStack_ (err : option error) : option error :=
  match err with
  | Some err => Some (WithStack err)
  | None => None
  end.

Definition shutdownSentinelServer (env : Env) (attack : RedisCommand)
           (h : list Request) : option error * list Request :=
  let flushed :=
    if FlushConfig attack then
      let '((result, err), h) := call env (SentinelFlushConfig (Addr attack)) h in
      match err with
      | Some err => (Some (WithStack err), h)
      | None =>
          if negb (String.eqb result STATUSOK)
          then (Some (WithStack (Errorf ("redis command status is " +:+ result))), h)
          else (None, h)
      end
    else (None, h) in
  match flushed with
  | (Some err, h) => (Some err, h)
  | (None, h) =>
      let '((result, err), h) := call env (Shutdown (Addr attack) (Password attack)) h in
      if negb (String.eqb result "") then (WithStack_ err, h) else (None, h)
  end.

Definition recoverSentinelStop (env : Env) (attack : RedisCommand)
           (h : list Request) : option error * list Request :=
  if String.eqb (Conf attack) ""
  then (Some (WithStack (Errorf "redis config is not present")), h)
  else
    let '((_, err), h) := call env (Exec "redis-server" [Conf attack; "--sentinel"]) h in
    match err with
    | Some err => (Some (WithStack err), h)
    | None => (None, h)
    end.

(** How a call of [Attack] ends: it returns, or [wg.Wait()] never
    returns, or the counter of the wait group goes below zero, which
    panics. *)
Inductive Outcome :=
| Returned (err : option error) (h : list Request)
| Blocked (h : list Request)
| Panicked.

(** The loop [for i := 0; i < num; i++] of the penetration case, from
    [i] on: the arguments of the goroutines it starts.  [concurrentNum]
    is the variable the loop overwrites; [fuel] bounds the iterations. *)
Fixpoint spawned (Frequency concurrentNum num i : Z) (fuel : nat) : list Z :=
  match fuel with
  | O => []
  | S fuel =>
      if i <? num then
        let concurrentNum :=
          if Frequency - i * concurrentNum <? concurrentNum
          then Frequency - i * concurrentNum
          else concurrentNum in
        concurrentNum :: spawned Frequency concurrentNum num (i + 1) fuel
      else []
  end.

(** One goroutine: [for j := 0; j < concurrentNum; j++], a [Get] and a
    [wg.Done()] each time. *)
Definition goroutine (attack : RedisCommand) (concurrentNum : Z) : list Request :=
  repeat (Get (Addr attack) (Password attack) "CHAOS_MESH_nqE3BWm7khHv")
         (Z.to_nat concurrentNum).

(** The penetration case.  All requests of the goroutines are the same
    and their answers are dropped, so the trace does not depend on how
    the goroutines interleave.  The elapsed time that is printed at the
    end is not modelled. *)
Definition penetration (env : Env) (attack : RedisCommand) (h : list Request)
  : Outcome :=
  let num := ceilQuot env (Frequency attack) (ConcurrentNum attack) in
  let concurrentNum := ConcurrentNum attack in
  if Frequency attack <? 0 then Panicked
  else
    let gets :=
      concat (List.map (goroutine attack)
                (spawned (Frequency attack) concurrentNum num 0 (Z.to_nat num))) in
    let done := Z.of_nat (length gets) in
    if done =? Frequency attack then Returned None (h ++ gets)
    else if done <? Frequency attack then Blocked (h ++ gets)
    else Panicked.

Definition Attack (env : Env) (attack : RedisCommand) (h : list Request) : Outcome :=
  let '((_, err), h) := call env (Ping (Addr attack) (Password attack)) h in
  match err with
  | Some err => Returned (Some (WithStack err)) h
  | None =>
      if String.eqb (Action attack) RedisSentinelRestartAction then
        match shutdownSentinelServer env attack h with
        | (Some err, h) => Returned (Some (WithStack err)) h
        | (None, h) =>
            let '(err, h) := recoverSentinelStop env attack h in Returned err h
        end
      else if String.eqb (Action attack) RedisSentinelStopAction then
        let '(err, h) := shutdownSentinelServer env attack h in Returned err h
      else if String.eqb (Action attack) RedisCachePenetrationAction then
        penetration env attack h
      else Returned None h
  end.

(** [Recover]; [exp] is the result of [exp.GetRequestCommand()]. *)
Definition Recover (env : Env) (exp : error + RedisCommand) (h : list Request)
  : option error * list Request :=
  match exp with
  | inl err => (Some err, h)
  | inr attack =>
      if String.eqb (Action attack) RedisSentinelStopAction
      then recoverSentinelStop env attack h
      else (None, h)
  end.

(** A server that answers every request without an error: [OK] to a
    flush of the configuration, nothing to anything else.  The quotient
    is rounded up exactly. *)
Definition quiet : Env :=
  {| Result := fun _ req =>
       match req with
       | SentinelFlushConfig _ => ("OK", None)
       | _ => ("", None)
       end;
     ceilQuot := fun a b => (a + b - 1) / b |}.

End Redis.

(** ** What the arguments of a qdisc determine *)

(** What [generateQdiscArgs] keeps of the two handles of a qdisc: a parent
    [1:0] is the root, as a missing one is, and a missing handle is
    [1:0]. *)
Definition effectiveParent (q : Qdisc.t) : option TcHandle :=
  match Qdisc.Parent q with
  | Some p => if (Major p =? 1) && (Minor p =? 0) then None else Some p
  | None => None
  end.

Definition effectiveHandle (q : Qdisc.t) : TcHandle :=
  match Qdisc.Handle q with
  | Some h => h
  | None => {| Major := 1; Minor := 0 |}
  end.

(** ** A concrete world for running the model *)

Module Demo.

(** Floats with six decimals, given by their units and their millionths
    and rendered as [%f] does. *)
Definition pad6 (s : string) : string :=
  String.string_of_list_ascii
    (List.repeat "0"%char (6 - String.length s)) +:+ s.

Definition micro_f (x : Z * Z) : string :=
  GoFmt.d (fst x) +:+ "." +:+ pad6 (GoFmt.d (snd x)).

Definition micro_gt0 (x : Z * Z) : bool :=
  (0 <? fst x) || ((fst x =? 0) && (0 <? snd x)).

#[export] Instance micro : FloatVerb :=
  {| float32 := Z * Z; float32_zero := (0, 0);
     float32_gt0 := micro_gt0; Sprintf_f := micro_f |}.

Definition delay (us : Z) : Netem.t := delayOnly us.

Definition netemTc (n : Netem.t) (ipset : string) : Tc.t :=
  Tc.mk Tc_NETEM (Some n) None ipset.

Definition tbfTc (t : Tbf.t) (ipset : string) : Tc.t :=
  Tc.mk Tc_BANDWIDTH None (Some t) ipset.

(** A namespace where every command and the packet filter succeed; the
    runtime walks a map in the order of [map_to_list]. *)
Definition calm : World :=
  {| GetPidFromContainerID := fun _ => inr 42;
     GetNsPath := fun pid => "/proc/" +:+ GoFmt.d pid +:+ "/ns/net";
     CombinedOutput := fun _ _ => ("", None);
     setIptablesChains := fun _ _ _ => None;
     encodeOutputToError := fun output err => External output;
     mapRange := map_to_list |}.

(** The same, but the command issued after [n] earlier requests exits
    with status 2 and prints [output]. *)
Definition failing (n : nat) (output : string) : World :=
  {| GetPidFromContainerID := fun _ => inr 42;
     GetNsPath := fun pid => "/proc/" +:+ GoFmt.d pid +:+ "/ns/net";
     CombinedOutput := fun h _ =>
       if Nat.eqb (length h) n then (output, Some (External "exit status 2"))
       else ("", None);
     setIptablesChains := fun _ _ _ => None;
     encodeOutputToError := fun output err => External output;
     mapRange := map_to_list |}.

(** The four rules of the comment in [SetContainerTcRules]. *)
Definition four : TcsRequest :=
  {| Tcs := [netemTc (delay 50000) ""; netemTc (delay 100000) "";
             netemTc (delay 50000) "A"; netemTc (delay 100000) "B"];
     ContainerId := "c1" |}.

(** As [four], with the filtered rules in the other order. *)
Definition four_BA : TcsRequest :=
  {| Tcs := [netemTc (delay 50000) ""; netemTc (delay 100000) "";
             netemTc (delay 100000) "B"; netemTc (delay 50000) "A"];
     ContainerId := "c1" |}.

(** [calm] on a runtime that walks a map the other way round. *)
Definition backwards : World :=
  {| GetPidFromContainerID := fun _ => inr 42;
     GetNsPath := fun pid => "/proc/" +:+ GoFmt.d pid +:+ "/ns/net";
     CombinedOutput := fun _ _ => ("", None);
     setIptablesChains := fun _ _ _ => None;
     encodeOutputToError := fun output err => External output;
     mapRange := fun m => rev (map_to_list m) |}.

End Demo.

(** * Properties *)

(** ** Strings, splitting and the rendering of numbers *)

Section StringFacts.
Import GoStrings.

Lemma Split_nonempty s sep : Split s sep <> [].
Proof.
  destruct s as [|c s]; simpl; [discriminate|].
  destruct (Ascii.eqb c sep); [discriminate|].
  destruct (Split s sep); discriminate.
Qed.

(** Splitting distributes over a separator between two strings. *)
Lemma Split_app_sep a b sep :
  Split (a +:+ String sep b) sep = Split a sep ++ Split b sep.
Proof.
  induction a as [|c a IH]; simpl.
  - now rewrite Ascii.eqb_refl.
  - destruct (Ascii.eqb c sep); [now rewrite IH|].
    rewrite IH. pose proof (Split_nonempty a sep) as Hne.
    destruct (Split a sep); [contradiction|reflexivity].
Qed.

Lemma Split_token s : no_space s = true -> Split s space = [s].
Proof.
  induction s as [|c s IH]; simpl; [reflexivity|].
  intros [Hc Hs]%andb_prop. apply negb_true_iff in Hc.
  rewrite Hc, (IH Hs). reflexivity.
Qed.

Lemma no_space_app a b :
  no_space (a +:+ b) = no_space a && no_space b.
Proof.
  induction a as [|c a IH]; simpl; [reflexivity|].
  now rewrite IH, andb_assoc.
Qed.

Lemma number_token_no_space s : number_token s = true -> no_space s = true.
Proof.
  destruct s as [|c s]; simpl; [discriminate|].
  intros [Hc Hs]%andb_prop. rewrite Hs, andb_true_r.
  apply negb_true_iff. destruct (Ascii.eqb_spec c space) as [->|]; [|reflexivity].
  discriminate Hc.
Qed.

Lemma number_token_nonempty s : number_token s = true -> s <> "".
Proof. destruct s; [discriminate|discriminate]. Qed.

Lemma trimedArgs_app_sep a b :
  trimedArgs (a +:+ String space b) = trimedArgs a ++ trimedArgs b.
Proof. unfold trimedArgs. now rewrite Split_app_sep, List.filter_app. Qed.

Lemma trimedArgs_empty : trimedArgs "" = [].
Proof. reflexivity. Qed.

Lemma trimedArgs_token s :
  no_space s = true -> s <> "" -> trimedArgs s = [s].
Proof.
  intros Hs Hne. unfold trimedArgs. rewrite (Split_token s Hs). simpl.
  destruct s; [contradiction|reflexivity].
Qed.

(** The digits of a decimal numeral hold no blank. *)
Lemma uint_no_space u : no_space (NilEmpty.string_of_uint u) = true.
Proof. induction u; simpl; auto. Qed.

Lemma uint_number_token u : number_token (NilZero.string_of_uint u) = true.
Proof. destruct u; simpl; try reflexivity; apply uint_no_space. Qed.

Lemma d_number_token z : number_token (GoFmt.d z) = true.
Proof.
  unfold GoFmt.d, NilZero.string_of_int.
  destruct (Z.to_int z) as [u|u]; [apply uint_number_token|].
  simpl. apply number_token_no_space, uint_number_token.
Qed.

Lemma d_no_space z : no_space (GoFmt.d z) = true.
Proof. apply number_token_no_space, d_number_token. Qed.

Lemma d_nonempty z : GoFmt.d z <> "".
Proof. apply number_token_nonempty, d_number_token. Qed.

(** [%d] renders different integers differently. *)
Lemma d_inj a b : GoFmt.d a = GoFmt.d b -> a = b.
Proof.
  unfold GoFmt.d. intros H. apply DecimalZ.to_int_inj.
  assert (Hnn : forall z, Z.to_int z <> Decimal.Pos Decimal.Nil
                         /\ Z.to_int z <> Decimal.Neg Decimal.Nil).
  { intros [|p|p]; simpl; split; try discriminate;
      intros [= E]; now apply (DecimalPos.Unsigned.to_uint_nonnil p). }
  destruct (Hnn a) as [Ha1 Ha2], (Hnn b) as [Hb1 Hb2].
  pose proof (NilZero.isi _ Ha1 Ha2) as Ea.
  pose proof (NilZero.isi _ Hb1 Hb2) as Eb.
  rewrite H in Ea. congruence.
Qed.

End StringFacts.

(** ** The argument codec *)

Section CodecFacts.
Context {FV : FloatVerb} {FL : FloatVerbLaws}.
Import GoStrings.

Lemma append_cons c (a b : string) : String c a +:+ b = String c (a +:+ b).
Proof. reflexivity. Qed.

Lemma f_number_token x : number_token (Sprintf_f x) = true.
Proof. apply Sprintf_f_token. Qed.

(** Appending [" <t>"] adds the token [t]. *)
Lemma trimedArgs_snoc a t :
  number_token t = true ->
  trimedArgs (a +:+ " " +:+ t) = trimedArgs a ++ [t].
Proof.
  intros Ht. change (a +:+ " " +:+ t) with (a +:+ String space t).
  rewrite trimedArgs_app_sep, (trimedArgs_token t); auto using
    number_token_no_space, number_token_nonempty.
Qed.

(** Appending [" <kw> <t>"] adds the two tokens [kw] and [t]. *)
Lemma trimedArgs_kw a kw t :
  no_space kw = true -> kw <> "" -> number_token t = true ->
  trimedArgs (a +:+ (" " +:+ kw +:+ " ") +:+ t) = trimedArgs a ++ [kw; t].
Proof.
  intros Hkw Hne Ht.
  replace (a +:+ (" " +:+ kw +:+ " ") +:+ t)
    with (a +:+ String space (kw +:+ String space t)).
  - rewrite !trimedArgs_app_sep, (trimedArgs_token kw), (trimedArgs_token t);
      auto using number_token_no_space, number_token_nonempty.
  - f_equal. change (" " +:+ kw +:+ " ") with (String space (kw +:+ " ")).
    rewrite append_cons. f_equal. clear.
    induction kw as [|c kw IH]; [reflexivity|].
    rewrite !append_cons. now f_equal.
Qed.

Lemma trimedArgs_opt_f a x :
  trimedArgs (if float32_gt0 x then a +:+ " " +:+ Sprintf_f x else a)
  = trimedArgs a ++ optF x.
Proof.
  unfold optF. destruct (float32_gt0 x).
  - apply trimedArgs_snoc, f_number_token.
  - now rewrite app_nil_r.
Qed.

Lemma trimedArgs_limit a x :
  trimedArgs (if 0 <? x then a +:+ " limit " +:+ GoFmt.d x else a)
  = trimedArgs a ++ limitTokens x.
Proof.
  unfold limitTokens. destruct (0 <? x).
  - apply (trimedArgs_kw a "limit"); solve [auto using d_number_token | discriminate].
  - now rewrite app_nil_r.
Qed.

Lemma trimedArgs_prob a kw p corr :
  no_space kw = true -> kw <> "" ->
  trimedArgs
    (if float32_gt0 p
     then let args := a +:+ (" " +:+ kw +:+ " ") +:+ Sprintf_f p in
          if float32_gt0 corr then args +:+ " " +:+ Sprintf_f corr else args
     else a)
  = trimedArgs a ++ probTokens kw p corr.
Proof.
  intros Hkw Hne. unfold probTokens. destruct (float32_gt0 p).
  - cbv zeta. rewrite trimedArgs_opt_f, trimedArgs_kw, <- app_assoc;
      auto using f_number_token.
  - now rewrite app_nil_r.
Qed.

Lemma trimedArgs_delay (n : Netem.t) :
  trimedArgs
    (if 0 <? Netem.Time n then
      let args := "delay " +:+ GoFmt.d (Netem.Time n) in
      let args :=
        if 0 <? Netem.Jitter n then
          let args := args +:+ " " +:+ GoFmt.d (Netem.Jitter n) in
          if float32_gt0 (Netem.DelayCorr n)
          then args +:+ " " +:+ Sprintf_f (Netem.DelayCorr n)
          else args
        else args in
      if float32_gt0 (Netem.Reorder n) then
        let args := args +:+ " reorder " +:+ Sprintf_f (Netem.Reorder n) in
        let args :=
          if float32_gt0 (Netem.ReorderCorr n)
          then args +:+ " " +:+ Sprintf_f (Netem.ReorderCorr n)
          else args in
        if 0 <? Netem.Gap n
        then args +:+ " gap " +:+ GoFmt.d (Netem.Gap n)
        else args
      else args
    else "")
  = delayTokens n.
Proof.
  unfold delayTokens. destruct (0 <? Netem.Time n); [|reflexivity].
  cbv zeta.
  assert (Hd : trimedArgs ("delay " +:+ GoFmt.d (Netem.Time n))
               = ["delay"; GoFmt.d (Netem.Time n)]).
  { apply (trimedArgs_kw "" "delay"); solve [auto using d_number_token | discriminate]. }
  destruct (0 <? Netem.Jitter n), (float32_gt0 (Netem.Reorder n));
    repeat first
      [ rewrite trimedArgs_opt_f
      | rewrite (trimedArgs_kw _ "gap") by solve [auto using d_number_token | discriminate]
      | rewrite (trimedArgs_kw _ "reorder") by solve [auto using f_number_token | discriminate]
      | rewrite trimedArgs_snoc by apply d_number_token
      | rewrite Hd ].
  all: try (destruct (0 <? Netem.Gap n);
    repeat first
      [ rewrite trimedArgs_opt_f
      | rewrite (trimedArgs_kw _ "gap") by solve [auto using d_number_token | discriminate]
      | rewrite (trimedArgs_kw _ "reorder") by solve [auto using f_number_token | discriminate]
      | rewrite trimedArgs_snoc by apply d_number_token
      | rewrite Hd ]).
  all: rewrite <- ?app_assoc, ?app_nil_r; simpl; try reflexivity.
Qed.

(** The trimmed parts of the accumulated string are the tokens of the
    design, in its order. *)
Lemma trimedArgs_netemRawArgs (n : Netem.t) :
  trimedArgs (netemRawArgs n) = netemTokens n.
Proof.
  unfold netemRawArgs, netemTokens.
  cbv zeta.
  rewrite (trimedArgs_prob _ "corrupt") by solve [auto | discriminate].
  rewrite (trimedArgs_prob _ "duplicate") by solve [auto | discriminate].
  rewrite (trimedArgs_prob _ "loss") by solve [auto | discriminate].
  rewrite trimedArgs_limit.
  rewrite trimedArgs_delay.
  now rewrite <- !app_assoc.
Qed.

(** A keyword of the encoding is no rendering of a number. *)
Lemma keyword_not_optD s x : number_token s = false -> ~ In s (optD x).
Proof.
  unfold optD. intros Hs. destruct (0 <? x); simpl; [|tauto].
  intros [<-|[]]. now rewrite d_number_token in Hs.
Qed.

Lemma keyword_not_optF s x : number_token s = false -> ~ In s (optF x).
Proof.
  unfold optF. intros Hs. destruct (float32_gt0 x); simpl; [|tauto].
  intros [<-|[]]. now rewrite f_number_token in Hs.
Qed.

Lemma keyword_in_limitTokens s x :
  number_token s = false ->
  In s (limitTokens x) <-> s = "limit" /\ 0 < x.
Proof.
  unfold limitTokens. intros Hs. destruct (Z.ltb_spec 0 x) as [Hx|Hx]; simpl.
  - split; [intros [<-|[<-|[]]]; [now split|]|intros [-> _]; now left].
    now rewrite d_number_token in Hs.
  - split; [tauto|lia].
Qed.

Lemma keyword_in_probTokens s kw p corr :
  number_token s = false ->
  In s (probTokens kw p corr) <-> s = kw /\ float32_gt0 p = true.
Proof.
  unfold probTokens. intros Hs. destruct (float32_gt0 p); simpl.
  - split; [intros [<-|[<-|Hin]]; [now split| |]|intros [-> _]; now left].
    + now rewrite f_number_token in Hs.
    + now apply keyword_not_optF in Hin.
  - split; [tauto|intros [_ [=]]].
Qed.

Lemma keyword_in_delayTokens s (n : Netem.t) :
  number_token s = false ->
  In s (delayTokens n) <->
  0 < Netem.Time n /\
  (s = "delay" \/
   (float32_gt0 (Netem.Reorder n) = true /\
    (s = "reorder" \/ (s = "gap" /\ 0 < Netem.Gap n)))).
Proof.
  unfold delayTokens. intros Hs.
  assert (Hd : forall x, s <> GoFmt.d x)
    by (intros x ->; now rewrite d_number_token in Hs).
  assert (Hf : forall x, s <> Sprintf_f x)
    by (intros x ->; now rewrite f_number_token in Hs).
  destruct (Z.ltb_spec 0 (Netem.Time n)) as [Ht|Ht]; [|simpl; split; [tauto|lia]].
  rewrite !in_app_iff. simpl.
  assert (Hj : ~ In s (if 0 <? Netem.Jitter n
                       then [GoFmt.d (Netem.Jitter n)] ++ optF (Netem.DelayCorr n)
                       else [])).
  { destruct (0 <? Netem.Jitter n); simpl; [|tauto].
    intros [E|Hin]; [now apply (Hd (Netem.Jitter n))|].
    now apply keyword_not_optF in Hin. }
  destruct (float32_gt0 (Netem.Reorder n)); simpl.
  - rewrite in_app_iff.
    pose proof (keyword_not_optF s (Netem.ReorderCorr n) Hs) as Hrc.
    destruct (Z.ltb_spec 0 (Netem.Gap n)) as [Hg|Hg]; simpl.
    + split.
      * intros [[E|[E|[]]]|[Hin|[E|[E|[Hin|[E|[E|[]]]]]]]]; subst;
          try tauto; try (now exfalso; eapply Hd); try (now exfalso; eapply Hf).
      * intros [_ [->|[_ [->|[-> _]]]]]; tauto.
    + split.
      * intros [[E|[E|[]]]|[Hin|[E|[E|[Hin|[]]]]]]; subst;
          try tauto; try (now exfalso; eapply Hd); try (now exfalso; eapply Hf).
      * intros [_ [->|[_ [->|[-> ?]]]]]; try tauto; lia.
  - split.
    + intros [[E|[E|[]]]|[Hin|[]]]; subst;
        try tauto; try (now exfalso; eapply Hd).
    + intros [_ [->|[[=] _]]]. tauto.
Qed.

Lemma keyword_in_netemTokens s (n : Netem.t) :
  number_token s = false ->
  In s (netemTokens n) <->
  (0 < Netem.Time n /\
   (s = "delay" \/
    (float32_gt0 (Netem.Reorder n) = true /\
     (s = "reorder" \/ (s = "gap" /\ 0 < Netem.Gap n)))))
  \/ (s = "limit" /\ 0 < Netem.Limit n)
  \/ (s = "loss" /\ float32_gt0 (Netem.Loss n) = true)
  \/ (s = "duplicate" /\ float32_gt0 (Netem.Duplicate n) = true)
  \/ (s = "corrupt" /\ float32_gt0 (Netem.Corrupt n) = true).
Proof.
  intros Hs. unfold netemTokens. rewrite !in_app_iff.
  rewrite keyword_in_delayTokens, keyword_in_limitTokens by assumption.
  rewrite !keyword_in_probTokens by assumption. reflexivity.
Qed.

End CodecFacts.

(** The rendering of whole millionths obeys the laws of [%f]. *)
Lemma number_token_app a b :
  number_token a = true -> no_space b = true -> number_token (a +:+ b) = true.
Proof.
  destruct a as [|c a]; simpl; [discriminate|].
  intros [Hc Ha]%andb_prop Hb. change (String c a +:+ b) with (String c (a +:+ b)).
  simpl. now rewrite Hc, no_space_app, Ha, Hb.
Qed.

Lemma pad6_no_space s : no_space s = true -> no_space (Demo.pad6 s) = true.
Proof.
  intros Hs. unfold Demo.pad6. rewrite no_space_app, Hs, andb_true_r.
  induction (6 - String.length s)%nat; simpl; auto.
Qed.

#[export] Instance micro_laws : @FloatVerbLaws Demo.micro.
Proof.
  split; [reflexivity|]. intros x. simpl. unfold Demo.micro_f.
  apply number_token_app; [apply d_number_token|].
  change ("." +:+ ?s) with (String "."%char s). simpl.
  apply pad6_no_space, d_no_space.
Qed.

Section JoinFacts.
Import GoStrings.

(** No part of a split holds the separator. *)
Lemma Split_no_space s : Forall (fun t => no_space t = true) (Split s space).
Proof.
  induction s as [|c s IH]; simpl; [repeat constructor|].
  destruct (Ascii.eqb c space) eqn:E; [now constructor|].
  destruct (Split s space) as [|t ts]; [repeat constructor; simpl; now rewrite E|].
  inversion IH as [|? ? Ht Hts]; subst. constructor; [|assumption].
  simpl. now rewrite E, Ht.
Qed.

Lemma trimedArgs_no_space s : Forall (fun t => no_space t = true) (trimedArgs s).
Proof.
  unfold trimedArgs. apply List.Forall_forall. intros t [Hin _]%filter_In.
  revert t Hin. apply List.Forall_forall, Split_no_space.
Qed.

(** Splitting undoes joining blank-free parts. *)
Lemma Split_Join parts :
  parts <> [] -> Forall (fun t => no_space t = true) parts ->
  Split (Join parts " ") space = parts.
Proof.
  induction parts as [|t rest IH]; intros Hne Hall; [contradiction|].
  inversion Hall as [|? ? Ht Hrest]; subst.
  destruct rest as [|t' rest]; [now apply Split_token|].
  change (Join (t :: t' :: rest) " ") with (t +:+ String space (Join (t' :: rest) " ")).
  rewrite Split_app_sep, (Split_token t Ht), IH; [reflexivity|discriminate|assumption].
Qed.

End JoinFacts.

(** C6. The netem encoding: the parts [convertNetemToArgs] keeps, which
    are the tokens the command gets, are the tokens of the design, so a
    sub-field that is not above zero is left out; the keyword [reorder]
    (and with it [gap]) occurs only when the delay is above zero.  A
    payload with only [delay=50000] gives
    ["delay"; "50000"], with [jitter=10] added ["delay"; "50000"; "10"],
    and one with only [reorder] set holds no [reorder] token. *)
Theorem netem_encoding {FV : FloatVerb} {FL : FloatVerbLaws} (n : Netem.t) :
  let tokens := trimedArgs (netemRawArgs n) in
  tokens = netemTokens n
  /\ convertNetemToArgs n = GoStrings.Join tokens " "
  /\ (In "delay" tokens <-> 0 < Netem.Time n)
  /\ (In "reorder" tokens <->
      0 < Netem.Time n /\ float32_gt0 (Netem.Reorder n) = true)
  /\ (In "gap" tokens <->
      0 < Netem.Time n /\ float32_gt0 (Netem.Reorder n) = true /\ 0 < Netem.Gap n)
  /\ (In "limit" tokens <-> 0 < Netem.Limit n)
  /\ (In "loss" tokens <-> float32_gt0 (Netem.Loss n) = true)
  /\ (In "duplicate" tokens <-> float32_gt0 (Netem.Duplicate n) = true)
  /\ (In "corrupt" tokens <-> float32_gt0 (Netem.Corrupt n) = true)
  /\ trimedArgs (netemRawArgs (delayOnly 50000)) = ["delay"; "50000"]
  /\ convertNetemToArgs (delayOnly 50000) = "delay 50000"
  /\ trimedArgs (netemRawArgs (delayJitter 50000 10)) = ["delay"; "50000"; "10"]
  /\ convertNetemToArgs (delayJitter 50000 10) = "delay 50000 10"
  /\ (forall reorder, ~ In "reorder" (trimedArgs (netemRawArgs (reorderOnly reorder))))
  /\ (forall reorder, convertNetemToArgs (reorderOnly reorder) = "")
  /\ (tokens <> [] -> GoStrings.Split (convertNetemToArgs n) space = tokens).
Proof.
  intros tokens. subst tokens.
  assert (Hex : forall m, convertNetemToArgs m = GoStrings.Join (netemTokens m) " ")
    by (intros m; unfold convertNetemToArgs; now rewrite trimedArgs_netemRawArgs).
  assert (Hzero : forall kw, probTokens kw float32_zero float32_zero = [])
    by (intros kw; unfold probTokens; now rewrite float32_zero_gt0).
  assert (Hkw : forall s, number_token s = false ->
                In s (trimedArgs (netemRawArgs n)) <-> _)
    by (intros s Hs; rewrite trimedArgs_netemRawArgs;
        exact (keyword_in_netemTokens s n Hs)).
  repeat match goal with |- _ /\ _ => split end.
  - apply trimedArgs_netemRawArgs.
  - reflexivity.
  - rewrite Hkw by reflexivity.
    split; [intros [[? _]|[[[=] _]|[[[=] _]|[[[=] _]|[[=] _]]]]]; assumption|].
    intros Ht. left. split; [assumption|now left].
  - rewrite Hkw by reflexivity. split.
    + intros [[Ht [[=]|[Hr _]]]|[[[=] _]|[[[=] _]|[[[=] _]|[[=] _]]]]]. now split.
    + intros [Ht Hr]. left. split; [assumption|]. right. split; [assumption|now left].
  - rewrite Hkw by reflexivity. split.
    + intros [[Ht [[=]|[Hr [[=]|[_ Hg]]]]]|[[[=] _]|[[[=] _]|[[[=] _]|[[=] _]]]]].
      now repeat split.
    + intros (Ht & Hr & Hg). left. split; [assumption|]. right.
      split; [assumption|]. right. now split.
  - rewrite Hkw by reflexivity. split.
    + intros [[_ [[=]|[_ [[=]|[[=] _]]]]]|[[_ Hl]|[[[=] _]|[[[=] _]|[[=] _]]]]].
      assumption.
    + intros Hl. right. left. now split.
  - rewrite Hkw by reflexivity. split.
    + intros [[_ [[=]|[_ [[=]|[[=] _]]]]]|[[[=] _]|[[_ Hl]|[[[=] _]|[[=] _]]]]].
      assumption.
    + intros Hl. right. right. left. now split.
  - rewrite Hkw by reflexivity. split.
    + intros [[_ [[=]|[_ [[=]|[[=] _]]]]]|[[[=] _]|[[[=] _]|[[_ Hl]|[[=] _]]]]].
      assumption.
    + intros Hl. right. right. right. left. now split.
  - rewrite Hkw by reflexivity. split.
    + intros [[_ [[=]|[_ [[=]|[[=] _]]]]]|[[[=] _]|[[[=] _]|[[[=] _]|[_ Hl]]]]].
      assumption.
    + intros Hl. right. right. right. right. now split.
  - rewrite trimedArgs_netemRawArgs. unfold netemTokens, delayTokens. simpl.
    now rewrite !Hzero, float32_zero_gt0.
  - rewrite Hex. unfold netemTokens, delayTokens. simpl.
    now rewrite !Hzero, float32_zero_gt0.
  - rewrite trimedArgs_netemRawArgs. unfold netemTokens, delayTokens, optF. simpl.
    now rewrite !Hzero, !float32_zero_gt0.
  - rewrite Hex. unfold netemTokens, delayTokens, optF. simpl.
    now rewrite !Hzero, !float32_zero_gt0.
  - intros reorder. rewrite trimedArgs_netemRawArgs.
    rewrite keyword_in_netemTokens by reflexivity. simpl.
    intros [[Ht _]|[[[=] _]|[[[=] _]|[[[=] _]|[[=] _]]]]]. lia.
  - intros reorder. rewrite Hex. unfold netemTokens, delayTokens. simpl.
    now rewrite !Hzero.
  - intros Hne. unfold convertNetemToArgs.
    apply Split_Join; [assumption|apply trimedArgs_no_space].
Qed.

Lemma netem_encoding_witness :
  trimedArgs (netemRawArgs (Demo.delay 50000)) = ["delay"; "50000"]
  /\ ~ In "reorder" (trimedArgs (netemRawArgs (@reorderOnly Demo.micro (0, 500000)))).
Proof.
  pose proof (@netem_encoding Demo.micro micro_laws (Demo.delay 50000)) as H.
  cbv zeta in H.
  destruct H as (_ & _ & _ & _ & _ & _ & _ & _ & _ & H1 & _ & _ & _ & H2 & _).
  split; [exact H1|exact (H2 (0, 500000))].
Defined.

Section TbfFacts.
Import GoStrings.

Lemma append_assoc (a b c : string) : (a +:+ b) +:+ c = a +:+ (b +:+ c).
Proof.
  induction a as [|x a IH]; [reflexivity|].
  change (String x (a +:+ b) +:+ c = String x (a +:+ (b +:+ c))).
  rewrite append_cons. now f_equal.
Qed.

Lemma Split_tbf_head r b :
  Split ("rate " +:+ GoFmt.d r +:+ " burst " +:+ GoFmt.d b) space
  = ["rate"; GoFmt.d r; "burst"; GoFmt.d b].
Proof.
  change ("rate " +:+ GoFmt.d r +:+ " burst " +:+ GoFmt.d b)
    with ("rate" +:+ String space
            (GoFmt.d r +:+ String space ("burst" +:+ String space (GoFmt.d b)))).
  rewrite !Split_app_sep, !(Split_token (GoFmt.d _)) by apply d_no_space.
  reflexivity.
Qed.

Lemma Split_tbf_limit a l :
  Split (a +:+ " limit " +:+ GoFmt.d l) space
  = Split a space ++ ["limit"; GoFmt.d l].
Proof.
  change (a +:+ " limit " +:+ GoFmt.d l)
    with (a +:+ String space ("limit" +:+ String space (GoFmt.d l))).
  rewrite !Split_app_sep, !(Split_token (GoFmt.d _)) by apply d_no_space.
  reflexivity.
Qed.

Lemma Split_tbf_peakrate a p m :
  Split (a +:+ " peakrate " +:+ GoFmt.d p +:+ " mtu " +:+ GoFmt.d m) space
  = Split a space ++ ["peakrate"; GoFmt.d p; "mtu"; GoFmt.d m].
Proof.
  change (a +:+ " peakrate " +:+ GoFmt.d p +:+ " mtu " +:+ GoFmt.d m)
    with (a +:+ String space
            ("peakrate" +:+ String space
               (GoFmt.d p +:+ String space ("mtu" +:+ String space (GoFmt.d m))))).
  rewrite !Split_app_sep, !(Split_token (GoFmt.d _)) by apply d_no_space.
  reflexivity.
Qed.

Lemma Split_convertTbfToArgs (t : Tbf.t) :
  Split (convertTbfToArgs t) space = tbfTokens t.
Proof.
  unfold convertTbfToArgs, tbfTokens, limitTokens. cbv zeta.
  destruct (0 <? Tbf.PeakRate t), (0 <? Tbf.Limit t);
    rewrite ?Split_tbf_peakrate, ?Split_tbf_limit, Split_tbf_head;
    reflexivity.
Qed.

Lemma append_nil_r (a : string) : a +:+ "" = a.
Proof.
  induction a as [|x a IH]; [reflexivity|].
  rewrite append_cons. now f_equal.
Qed.

Lemma keyword_in_tbfTokens s (t : Tbf.t) :
  number_token s = false ->
  In s (tbfTokens t) <->
  s = "rate" \/ s = "burst" \/ (s = "limit" /\ 0 < Tbf.Limit t)
  \/ ((s = "peakrate" \/ s = "mtu") /\ 0 < Tbf.PeakRate t).
Proof.
  intros Hs. unfold tbfTokens. rewrite !in_app_iff.
  rewrite keyword_in_limitTokens by assumption.
  assert (Hd : forall x, GoFmt.d x = s -> False)
    by (intros x <-; now rewrite d_number_token in Hs).
  destruct (Z.ltb_spec 0 (Tbf.PeakRate t)) as [Hp|Hp]; simpl.
  - split.
    + intros [[E|[E|[E|[E|[]]]]]|[Hl|[E|[E|[E|[E|[]]]]]]]; subst; auto;
        try (exfalso; now eapply Hd); tauto.
    + intros [->|[->|[Hl|[[->| ->] _]]]]; tauto.
  - split.
    + intros [[E|[E|[E|[E|[]]]]]|[Hl|[]]]; subst; auto;
        try (exfalso; now eapply Hd).
    + intros [->|[->|[Hl|[_ ?]]]]; try tauto; lia.
Qed.

End TbfFacts.

(** C9. The bandwidth encoding starts with [rate <r> burst <b>] whatever
    the rate and the burst are, holds [limit <n>] exactly when the queue
    limit is above zero, and [peakrate <p> mtu <m>] exactly when the peak
    rate is above zero, [<m>] being the [MinBurst] field. *)
Theorem tbf_encoding (t : Tbf.t) :
  let tokens := GoStrings.Split (convertTbfToArgs t) space in
  (exists rest,
      convertTbfToArgs t
      = ("rate " +:+ GoFmt.d (Tbf.Rate t) +:+ " burst " +:+ GoFmt.d (Tbf.Buffer t))
        +:+ rest)
  /\ tokens
     = ["rate"; GoFmt.d (Tbf.Rate t); "burst"; GoFmt.d (Tbf.Buffer t)]
       ++ (if 0 <? Tbf.Limit t then ["limit"; GoFmt.d (Tbf.Limit t)] else [])
       ++ (if 0 <? Tbf.PeakRate t
           then ["peakrate"; GoFmt.d (Tbf.PeakRate t); "mtu"; GoFmt.d (Tbf.MinBurst t)]
           else [])
  /\ (In "limit" tokens <-> 0 < Tbf.Limit t)
  /\ (In "peakrate" tokens <-> 0 < Tbf.PeakRate t)
  /\ (In "mtu" tokens <-> 0 < Tbf.PeakRate t).
Proof.
  intros tokens. subst tokens. rewrite Split_convertTbfToArgs.
  split; [|split; [reflexivity|]].
  - unfold convertTbfToArgs. cbv zeta.
    destruct (0 <? Tbf.PeakRate t), (0 <? Tbf.Limit t).
    + eexists. rewrite append_assoc. reflexivity.
    + eexists. reflexivity.
    + eexists. reflexivity.
    + exists "". now rewrite append_nil_r.
  - rewrite !keyword_in_tbfTokens by reflexivity.
    split; [|split]; split.
    + intros [[=]|[[=]|[[_ H]|[[[=]|[=]] _]]]]. exact H.
    + intros H. right. right. left. now split.
    + intros [[=]|[[=]|[[[=] _]|[_ H]]]]. exact H.
    + intros H. right. right. right. split; [now left|exact H].
    + intros [[=]|[[=]|[[[=] _]|[_ H]]]]. exact H.
    + intros H. right. right. right. split; [now right|exact H].
Qed.

(** C10. [generateQdiscArgs] fails exactly for a nil qdisc and for an
    empty [Type]; otherwise a nil [Parent] and the parent 1:0 both give
    the one token [root], and a nil [Handle] gives [handle 1:0]. *)
Theorem generateQdiscArgs_spec (action : string) :
  (forall qdisc,
      (exists e, generateQdiscArgs action qdisc = inl e)
      <-> (qdisc = None \/ exists q, qdisc = Some q /\ Qdisc.Type_ q = ""))
  /\ (forall handle type args,
         type <> "" ->
         let nilParent := Qdisc.mk None handle type args in
         let rootParent := Qdisc.mk (Some {| Major := 1; Minor := 0 |}) handle type args in
         generateQdiscArgs action (Some nilParent)
         = generateQdiscArgs action (Some rootParent)
         /\ exists h,
             generateQdiscArgs action (Some nilParent)
             = inr (["qdisc"; action; "dev"; "eth0"; "root"; "handle"; h; type] ++ args))
  /\ (forall parent type args,
         type <> "" ->
         exists front,
           generateQdiscArgs action (Some (Qdisc.mk parent None type args))
           = inr (["qdisc"; action; "dev"; "eth0"] ++ front
                  ++ ["handle"; "1:0"; type] ++ args)).
Proof.
  split; [|split].
  - intros [q|]; simpl.
    + destruct (String.eqb_spec (Qdisc.Type_ q) "") as [E|E].
      * split; [intros _; right; now exists q|intros _; eauto].
      * split; [intros [e [=]]|].
        intros [[=]|(q' & [= <-] & E')]. contradiction.
    + split; [now left|eauto].
  - intros handle type args Hty nilParent rootParent. subst nilParent rootParent.
    simpl. destruct (String.eqb_spec type "") as [E|_]; [contradiction|].
    split; [reflexivity|].
    destruct handle as [h|]; eexists; reflexivity.
  - intros parent type args Hty. simpl.
    destruct (String.eqb_spec type "") as [E|_]; [contradiction|].
    destruct parent as [p|]; [destruct (_ && _)|].
    + now exists ["root"].
    + now exists ["parent"; GoFmt.handle_pair (Major p) (Minor p)].
    + now exists ["root"].
Qed.

Lemma generateQdiscArgs_spec_witness :
  generateQdiscArgs "add" (Some (Qdisc.mk None None "netem" ["delay"; "50000"]))
  = generateQdiscArgs "add"
      (Some (Qdisc.mk (Some {| Major := 1; Minor := 0 |}) None "netem" ["delay"; "50000"]))
  /\ exists front,
      generateQdiscArgs "add" (Some (Qdisc.mk None None "netem" ["delay"; "50000"]))
      = inr (["qdisc"; "add"; "dev"; "eth0"] ++ front
             ++ ["handle"; "1:0"; "netem"] ++ ["delay"; "50000"]).
Proof.
  destruct (generateQdiscArgs_spec "add") as (_ & Hroot & Hhandle).
  split.
  - refine (proj1 (Hroot None "netem" ["delay"; "50000"] _)). discriminate.
  - refine (Hhandle None "netem" ["delay"; "50000"] _). discriminate.
Defined.

(** ** Running operations: what the trace looks like *)

Section RunFacts.
Context {FV : FloatVerb} (w : World) (c : tcClient).

Lemma withStack_bind {A B} (m : M A) (k : A -> M B) h :
  withStack (bind m k) h = bind (withStack m) (fun a => withStack (k a)) h.
Proof. unfold withStack, bind. destruct (m h) as [[e|a] h']; reflexivity. Qed.

Lemma runArgs_eq args h :
  runArgs w c args h
  = (cmdResult w h (tcCmd (nsPath c) (GoStrings.Split args space)),
     h ++ [EvExec (tcCmd (nsPath c) (GoStrings.Split args space))]).
Proof.
  unfold runArgs, bind, runTc, cmdResult, tcCmd.
  destruct (CombinedOutput w h _) as [output [err|]]; reflexivity.
Qed.

(** An operation either is rejected without a trace or runs exactly one
    command, whose result it returns. *)
Lemma runOp_cases op h :
  (opCmd (nsPath c) op = None /\ exists e, runOp w c op h = (inl e, h))
  \/ (exists cmd, opCmd (nsPath c) op = Some cmd
                  /\ runOp w c op h = (cmdResult w h cmd, h ++ [EvExec cmd])).
Proof.
  destruct op as [parentArg handleArg tc|args]; simpl.
  - unfold addTc, tcPayload.
    destruct (Tc.Type_ tc); [destruct (Tc.Tbf tc)|destruct (Tc.Netem tc)|];
      try (left; split; [reflexivity|eexists; reflexivity]);
      right; eexists; (split; [reflexivity|]).
    + unfold addTbf. now rewrite runArgs_eq.
    + unfold addNetem. now rewrite runArgs_eq.
  - right. eexists. split; [reflexivity|apply runArgs_eq].
Qed.

Lemma runOps_app ops1 ops2 h :
  runOps w c (ops1 ++ ops2) h = bind (runOps w c ops1) (fun _ => runOps w c ops2) h.
Proof.
  revert h. induction ops1 as [|op ops1 IH]; intros h; [reflexivity|].
  simpl. unfold bind.
  destruct (withStack (runOp w c op) h) as [[e|[]] h']; [reflexivity|].
  rewrite IH. reflexivity.
Qed.

(** The trace of a run: one command per operation, in order, up to the
    first operation that fails; a failing command is the last event and
    its error, wrapped by [errors.WithStack], is the result. *)
Lemma runOps_trace ops : forall h r h',
  runOps w c ops h = (r, h') ->
  exists evs,
    h' = h ++ evs
    /\ (length evs <= length ops)%nat
    /\ (r = inr tt -> length evs = length ops)
    /\ (forall n ev, evs !! n = Some ev ->
          exists op cmd, ops !! n = Some op
                         /\ opCmd (nsPath c) op = Some cmd /\ ev = EvExec cmd)
    /\ (forall n cmd e, evs !! n = Some (EvExec cmd) ->
          cmdResult w (h ++ take n evs) cmd = inl e ->
          length evs = S n /\ r = inl (WithStack e)).
Proof.
  induction ops as [|op ops IH]; intros h r h' Hrun.
  - injection Hrun as <- <-. exists []. rewrite app_nil_r.
    split; [reflexivity|]. split; [simpl; lia|]. split; [reflexivity|].
    split; intros n; intros; rewrite lookup_nil in *; discriminate.
  - simpl in Hrun. unfold bind, withStack in Hrun.
    destruct (runOp_cases op h) as [[Hnone [e He]]|(cmd & Hcmd & He)];
      rewrite He in Hrun.
    + injection Hrun as <- <-. exists []. rewrite app_nil_r.
      split; [reflexivity|]. split; [simpl; lia|]. split; [discriminate|].
      split; intros n; intros; rewrite lookup_nil in *; discriminate.
    + destruct (cmdResult w h cmd) as [e|[]] eqn:Hres.
      * injection Hrun as <- <-. exists [EvExec cmd].
        split; [reflexivity|]. split; [simpl; lia|]. split; [discriminate|].
        split.
        -- intros [|n] ev Hev; [|simpl in Hev; now rewrite lookup_nil in Hev].
           injection Hev as <-. eauto.
        -- intros [|n] cmd' e' Hev Hfail;
             [|simpl in Hev; now rewrite lookup_nil in Hev].
           injection Hev as <-. simpl in Hfail. rewrite app_nil_r in Hfail.
           split; [reflexivity|congruence].
      * destruct (IH _ _ _ Hrun) as (evs & -> & Hlen & Hok & Hev & Hfail).
        exists (EvExec cmd :: evs). rewrite <- app_assoc.
        split; [reflexivity|]. split; [simpl; lia|].
        split; [intros E; simpl; now rewrite Hok|]. split.
        -- intros [|n] ev Hn; [injection Hn as <-; eauto|]. now apply Hev.
        -- intros [|n] cmd' e' Hn Hf.
           ++ injection Hn as <-. simpl in Hf. rewrite app_nil_r in Hf. congruence.
           ++ simpl in Hn, Hf.
              replace (h ++ EvExec cmd :: take n evs)
                with ((h ++ [EvExec cmd]) ++ take n evs) in Hf
                by now rewrite <- app_assoc.
              destruct (Hfail n cmd' e' Hn Hf) as [Hl ->].
              split; [simpl; now rewrite Hl|reflexivity].
Qed.

End RunFacts.

(** ** The loops of [SetContainerTcRules] run the plan *)

Section Refinement.
Context {FV : FloatVerb} (w : World) (c : tcClient).

Lemma addGlobalTcs_runOps globalTc : forall index h,
  addGlobalTcs w c index globalTc h = runOps w c (globalOps index globalTc) h.
Proof.
  induction globalTc as [|tc rest IH]; intros index h; [reflexivity|].
  simpl. unfold bind.
  destruct (withStack (addTc w c _ _ tc) h) as [[e|[]] h']; [reflexivity|].
  apply IH.
Qed.

Lemma bind_congr {A B} (m1 m2 : M A) (k1 k2 : A -> M B) h :
  m1 h = m2 h -> (forall a h', k1 a h' = k2 a h') ->
  bind m1 k1 h = bind m2 k2 h.
Proof.
  intros Hm Hk. unfold bind. rewrite Hm.
  destruct (m2 h) as [[e|a] h']; [reflexivity|apply Hk].
Qed.

Lemma addPrio_runOps parent band h :
  withStack (addPrio w c parent band) h = runOps w c (prioOps parent band) h.
Proof.
  unfold addPrio, prioOps. simpl runOps. simpl addSfq.
  rewrite withStack_bind. apply bind_congr; [reflexivity|intros _ h1].
  rewrite withStack_bind. apply bind_congr; [reflexivity|intros _ h2].
  rewrite withStack_bind. apply bind_congr; [reflexivity|intros _ h3].
  rewrite withStack_bind. apply bind_congr; [reflexivity|intros _ h4].
  reflexivity.
Qed.

Lemma addFilterTcs_runOps parent index tcs : forall i currentHandler h,
  addFilterTcs w c parent index i currentHandler tcs h
  = bind (runOps w c (groupOps parent index i currentHandler tcs))
         (fun _ => ret (currentHandler + Z.of_nat (length tcs))) h.
Proof.
  induction tcs as [|tc rest IH]; intros i cur h.
  - simpl. unfold bind, ret. now rewrite Z.add_0_r.
  - simpl addFilterTcs. simpl groupOps. simpl runOps. unfold bind at 1 2 3.
    change (handleArgOf (cur + 1)) with ("handle " +:+ GoFmt.d (cur + 1) +:+ ":").
    unfold bandOf.
    destruct (withStack (addTc w c _ _ tc) h) as [[e|[]] h']; [reflexivity|].
    rewrite IH. unfold bind, ret.
    destruct (runOps w c _ h') as [[e|[]] h'']; [reflexivity|].
    do 2 f_equal. cbn [length]. lia.
Qed.

Lemma addFilterGroups_runOps parent groups : forall index currentHandler chains h,
  addFilterGroups w c parent index currentHandler chains groups h
  = bind (runOps w c (filterOps parent index currentHandler groups))
         (fun _ => ret (chains ++ filterChains parent index groups)) h.
Proof.
  induction groups as [|[ipset tcs] rest IH]; intros index cur chains h.
  - simpl. unfold bind, ret. now rewrite app_nil_r.
  - simpl. unfold bind. rewrite addFilterTcs_runOps, runOps_app. unfold bind, ret.
    destruct (runOps w c (groupOps parent index 0 cur tcs) h) as [[e|[]] h'];
      [reflexivity|].
    rewrite IH. unfold bind, ret.
    destruct (runOps w c _ h') as [[e|[]] h'']; [reflexivity|].
    now rewrite <- app_assoc.
Qed.

End Refinement.

Section SplitFacts.
Context {FV : FloatVerb}.

Lemma fold_splitStep_fst tcs : forall globalTc filterTc,
  fst (fold_left splitStep tcs (globalTc, filterTc)) = globalTc ++ globalRules tcs.
Proof.
  induction tcs as [|tc rest IH]; intros g m; simpl.
  - now rewrite app_nil_r.
  - unfold globalRules. simpl. fold (globalRules rest).
    destruct (String.eqb (Tc.Ipset tc) ""); rewrite IH; [|reflexivity].
    now rewrite <- app_assoc.
Qed.

(** The unfiltered rules keep their order. *)
Lemma splitTcs_fst tcs : fst (splitTcs tcs) = globalRules tcs.
Proof. unfold splitTcs. now rewrite fold_splitStep_fst. Qed.

End SplitFacts.

(** ** The entry point as a whole *)

Section EntryPoint.
Context {FV : FloatVerb} (w : World).

Lemma flush_eq c h :
  flush w c h = (flushResult w h (nsPath c), h ++ [EvExec (flushCmd (nsPath c))]).
Proof.
  unfold flush, flushResult, bind, runTc, flushCmd, tcCmd.
  destruct (CombinedOutput w h _) as [output [err|]]; [|reflexivity].
  destruct (GoStrings.Contains output RULE_NOT_EXIST); reflexivity.
Qed.

(** [SetContainerTcRules] resolves the container, flushes, runs the plan
    and hands the chains to the packet filter, stopping at the first
    failure. *)
Lemma SetContainerTcRules_eq in_ h :
  SetContainerTcRules w in_ h
  = match GetPidFromContainerID w (ContainerId in_) with
    | inl e => (inl (WithStack e), h)
    | inr pid =>
        let ns := GetNsPath w pid in
        let h1 := h ++ [EvExec (flushCmd ns)] in
        match flushResult w h ns with
        | inl e => (inl (WithStack e), h1)
        | inr _ =>
            match runOps w (buildTcClient ns) (planOf w (Tcs in_)) h1 with
            | (inl e, h2) => (inl e, h2)
            | (inr _, h2) => withStack (setChains w ns (chainsOf w (Tcs in_))) h2
            end
        end
    end.
Proof.
  unfold SetContainerTcRules, planOf, chainsOf.
  unfold bind at 1. unfold withStack at 1. unfold getPid.
  destruct (GetPidFromContainerID w (ContainerId in_)) as [e|pid]; [reflexivity|].
  cbv zeta. unfold bind at 1. unfold withStack at 1. rewrite flush_eq.
  change (nsPath (buildTcClient (GetNsPath w pid))) with (GetNsPath w pid).
  destruct (flushResult w h (GetNsPath w pid)) as [e|[]]; [reflexivity|].
  destruct (splitTcs (Tcs in_)) as [globalTc filterTc].
  rewrite runOps_app. unfold bind.
  rewrite addGlobalTcs_runOps.
  destruct (runOps w _ (globalOps 0 globalTc) _) as [[e|[]] h2]; [reflexivity|].
  rewrite runOps_app. unfold bind.
  rewrite addPrio_runOps.
  destruct (runOps w _ (prioOps _ _) h2) as [[e|[]] h3]; [reflexivity|].
  rewrite addFilterGroups_runOps. unfold bind, ret.
  replace (Z.of_nat (length globalTc) + 1 + 3) with (Z.of_nat (length globalTc) + 4)
    by lia.
  destruct (runOps w _ (filterOps _ _ _ _) h3) as [[e|[]] h4]; reflexivity.
Qed.

(** The trace of a call whose container was resolved: the flush, then
    the commands of the plan in order, then the chains. *)
Lemma SetContainerTcRules_trace in_ pid r tr :
  GetPidFromContainerID w (ContainerId in_) = inr pid ->
  SetContainerTcRules w in_ [] = (r, tr) ->
  let ns := GetNsPath w pid in
  let plan := planOf w (Tcs in_) in
  tr !! 0%nat = Some (EvExec (flushCmd ns))
  /\ (length tr <= length plan + 2)%nat
  /\ (r = inr tt ->
      length tr = (length plan + 2)%nat
      /\ tr !! S (length plan) = Some (EvSetIptablesChains ns (chainsOf w (Tcs in_))))
  /\ (forall n ev, tr !! S n = Some ev -> (n < length plan)%nat ->
        exists op cmd, plan !! n = Some op /\ opCmd ns op = Some cmd /\ ev = EvExec cmd)
  /\ (forall ev, tr !! S (length plan) = Some ev ->
        ev = EvSetIptablesChains ns (chainsOf w (Tcs in_)))
  /\ (forall n cmd e, tr !! S n = Some (EvExec cmd) ->
        cmdResult w (take (S n) tr) cmd = inl e ->
        length tr = S (S n) /\ r = inl (WithStack e)).
Proof.
  intros Hpid Hrun ns plan. rewrite SetContainerTcRules_eq, Hpid in Hrun.
  cbv zeta in Hrun. fold ns in Hrun. fold plan in Hrun. simpl app in Hrun.
  destruct (flushResult w [] ns) as [e|[]].
  { injection Hrun as <- <-. split; [reflexivity|]. split; [simpl; lia|].
    split; [discriminate|].
    split; [intros n ev Hn; simpl in Hn; now rewrite lookup_nil in Hn|].
    split; intros; simpl in *; rewrite lookup_nil in *; discriminate. }
  destruct (runOps w _ plan _) as [r2 h2] eqn:Hops.
  destruct (runOps_trace w _ plan _ _ _ Hops) as (evs & -> & Hlen & Hok & Hev & Hfail).
  change (nsPath (buildTcClient ns)) with ns in Hev.
  destruct r2 as [e|[]].
  - injection Hrun as <- <-. split; [reflexivity|]. split; [simpl; lia|].
    split; [discriminate|].
    split; [intros n ev Hn _; simpl in Hn; now apply Hev|].
    split.
    + intros ev Hn. simpl in Hn. apply lookup_lt_Some in Hn. lia.
    + intros n cmd e' Hn Hf. simpl in Hn, Hf.
      destruct (Hfail n cmd e' Hn Hf) as [Hl Hr]. split; [simpl; lia|exact Hr].
  - specialize (Hok eq_refl).
    unfold withStack, setChains in Hrun.
    assert (Htr : tr = EvExec (flushCmd ns) :: evs
                       ++ [EvSetIptablesChains ns (chainsOf w (Tcs in_))]).
    { destruct (setIptablesChains w _ ns _); injection Hrun as <- <-;
        reflexivity. }
    clear Hrun. subst tr.
    split; [reflexivity|]. split; [simpl; rewrite length_app; simpl; lia|].
    split.
    { intros _. split; [simpl; rewrite length_app; simpl; lia|].
      simpl. rewrite lookup_app_r by lia. now rewrite Hok, Nat.sub_diag. }
    split.
    { intros n ev Hn Hlt. simpl in Hn. rewrite lookup_app_l in Hn by lia.
      now apply Hev. }
    split.
    { intros ev Hn. simpl in Hn. rewrite lookup_app_r in Hn by lia.
      rewrite Hok, Nat.sub_diag in Hn. now injection Hn as <-. }
    intros n cmd e' Hn Hf. simpl in Hn, Hf.
    destruct (decide (n < length evs)%nat) as [Hlt|Hge].
    + rewrite lookup_app_l in Hn by lia.
      rewrite take_app_le in Hf by lia.
      destruct (Hfail n cmd e' Hn Hf) as [_ [=]].
    + rewrite lookup_app_r in Hn by lia.
      destruct (n - length evs)%nat; simpl in Hn; [discriminate|].
      now rewrite lookup_nil in Hn.
Qed.

End EntryPoint.

(** The example in the comment of [SetContainerTcRules]: two unfiltered
    delays and one delay each for the sets [A] and [B]. *)
Example worked_example :
  SetContainerTcRules Demo.calm Demo.four []
  = (inr tt,
     List.map (fun args => EvExec (tcCmd "/proc/42/ns/net" args))
       [["qdisc"; "del"; "dev"; "eth0"; "root"];
        ["qdisc"; "add"; "dev"; "eth0"; "root"; "handle"; "1:"; "netem"; "delay"; "50000"];
        ["qdisc"; "add"; "dev"; "eth0"; "parent"; "1:"; "handle"; "2:";
         "netem"; "delay"; "100000"];
        ["qdisc"; "add"; "dev"; "eth0"; "parent"; "2:"; "handle"; "3:";
         "prio"; "bands"; "5"; "priomap";
         "1"; "2"; "2"; "2"; "1"; "2"; "0"; "0"; "1"; "1"; "1"; "1"; "1"; "1"; "1"; "1"];
        ["qdisc"; "add"; "dev"; "eth0"; "parent"; "3:1"; "handle"; "4:"; "sfq"];
        ["qdisc"; "add"; "dev"; "eth0"; "parent"; "3:2"; "handle"; "5:"; "sfq"];
        ["qdisc"; "add"; "dev"; "eth0"; "parent"; "3:3"; "handle"; "6:"; "sfq"];
        ["qdisc"; "add"; "dev"; "eth0"; "parent"; "3:4"; "handle"; "7:";
         "netem"; "delay"; "50000"];
        ["qdisc"; "add"; "dev"; "eth0"; "parent"; "3:5"; "handle"; "8:";
         "netem"; "delay"; "100000"]]
     ++ [EvSetIptablesChains "/proc/42/ns/net"
           [Chain.mk "TC-TABLES-0" Chain_OUTPUT ["A"] "CLASSIFY --set-class 3:4";
            Chain.mk "TC-TABLES-1" Chain_OUTPUT ["B"] "CLASSIFY --set-class 3:5"]]).
Proof. vm_compute. reflexivity. Qed.

(** ** The shape of the plan *)

Section PlanFacts.
Context {FV : FloatVerb}.
Import GoStrings.

Lemma globalOps_length globalTc : forall index,
  length (globalOps index globalTc) = length globalTc.
Proof. induction globalTc; intros index; simpl; auto. Qed.

Lemma globalOps_lookup globalTc : forall index (i : nat) tc,
  globalTc !! i = Some tc ->
  globalOps index globalTc !! i
  = Some (OpAddTc (globalParentArg (index + Z.of_nat i))
                  (handleArgOf (index + Z.of_nat i + 1)) tc).
Proof.
  induction globalTc as [|tc0 rest IH]; intros index i tc Hi; [discriminate|].
  destruct i as [|i]; simpl in *.
  - injection Hi as ->. now rewrite Z.add_0_r.
  - rewrite (IH (index + 1) i tc Hi). do 3 f_equal; lia.
Qed.

Lemma groupOps_length parent index tcs : forall i currentHandler,
  length (groupOps parent index i currentHandler tcs) = length tcs.
Proof. induction tcs; intros i cur; simpl; auto. Qed.

Lemma groupOps_lookup parent index tcs : forall i currentHandler (n : nat) tc,
  0 <= i ->
  tcs !! n = Some tc ->
  groupOps parent index i currentHandler tcs !! n
  = Some (OpAddTc (if 0 <? i + Z.of_nat n
                   then "parent " +:+ GoFmt.d (currentHandler + Z.of_nat n) +:+ ":"
                   else "parent " +:+ bandOf parent index)
                  (handleArgOf (currentHandler + Z.of_nat n + 1)) tc).
Proof.
  induction tcs as [|tc0 rest IH]; intros i cur n tc Hi Hn; [discriminate|].
  destruct n as [|n]; simpl in *.
  - injection Hn as ->. now rewrite !Z.add_0_r.
  - rewrite (IH (i + 1) (cur + 1) n tc) by (lia || assumption).
    replace (i + 1 + Z.of_nat n) with (i + Z.pos (Pos.of_succ_nat n)) by lia.
    replace (cur + 1 + Z.of_nat n) with (cur + Z.pos (Pos.of_succ_nat n)) by lia.
    reflexivity.
Qed.

Lemma filterOps_length parent groups : forall index currentHandler,
  length (filterOps parent index currentHandler groups)
  = length (concat (List.map snd groups)).
Proof.
  induction groups as [|[ipset tcs] rest IH]; intros index cur; [reflexivity|].
  simpl. now rewrite !length_app, groupOps_length, IH.
Qed.

(** The rule at place [i] of the group at place [j]: its parent is the
    band of the group for the first rule and the handle before its own
    otherwise; its handle is the next of the counter. *)
Lemma filterOps_lookup parent groups : forall index currentHandler (j i : nat) ipset tcs tc,
  groups !! j = Some (ipset, tcs) ->
  tcs !! i = Some tc ->
  let m := Z.of_nat (rulesBefore groups j + i) in
  filterOps parent index currentHandler groups !! (rulesBefore groups j + i)%nat
  = Some (OpAddTc (if 0 <? Z.of_nat i
                   then "parent " +:+ GoFmt.d (currentHandler + m) +:+ ":"
                   else "parent " +:+ bandOf parent (index + Z.of_nat j))
                  (handleArgOf (currentHandler + m + 1)) tc).
Proof.
  induction groups as [|[ipset0 tcs0] rest IH];
    intros index cur j i ipset tcs tc Hj Hi m; [discriminate|].
  destruct j as [|j]; simpl in Hj.
  - injection Hj as -> ->. subst m. unfold rulesBefore. simpl.
    rewrite lookup_app_l
      by (rewrite groupOps_length; now apply lookup_lt_Some in Hi).
    rewrite (groupOps_lookup parent index tcs 0 cur i tc) by (lia || assumption).
    now rewrite Z.add_0_r.
  - subst m. unfold rulesBefore. simpl take. simpl List.map. simpl concat.
    rewrite length_app. simpl filterOps.
    rewrite lookup_app_r by (rewrite groupOps_length; lia).
    rewrite groupOps_length.
    replace (length tcs0 + length (concat (List.map snd (take j rest))) + i
             - length tcs0)%nat
      with (rulesBefore rest j + i)%nat by (unfold rulesBefore; lia).
    rewrite (IH (index + 1) (cur + Z.of_nat (length tcs0)) j i ipset tcs tc Hj Hi).
    unfold rulesBefore.
    replace (index + 1 + Z.of_nat j) with (index + Z.of_nat (S j)) by lia.
    replace (cur + Z.of_nat (length tcs0)
             + Z.of_nat (length (concat (List.map snd (take j rest))) + i))
      with (cur + Z.of_nat (length tcs0
                            + length (concat (List.map snd (take j rest))) + i))
      by lia.
    reflexivity.
Qed.

Lemma filterOps_addTc parent groups : forall index currentHandler n op,
  filterOps parent index currentHandler groups !! n = Some op ->
  exists parentArg tc,
    op = OpAddTc parentArg (handleArgOf (currentHandler + Z.of_nat n + 1)) tc.
Proof.
  induction groups as [|[ipset tcs] rest IH]; intros index cur n op Hn;
    [discriminate|].
  simpl in Hn. destruct (decide (n < length tcs)%nat) as [Hlt|Hge].
  - rewrite lookup_app_l in Hn by now rewrite groupOps_length.
    destruct (lookup_lt_is_Some_2 tcs n Hlt) as [tc Htc].
    rewrite (groupOps_lookup parent index tcs 0 cur n tc) in Hn by (lia || assumption).
    injection Hn as <-. eauto.
  - rewrite lookup_app_r in Hn by (rewrite groupOps_length; lia).
    rewrite groupOps_length in Hn.
    destruct (IH _ _ _ _ Hn) as (parentArg & tc & ->).
    exists parentArg, tc. do 2 f_equal. lia.
Qed.

Lemma filterChains_length parent groups : forall index,
  length (filterChains parent index groups) = length groups.
Proof. induction groups as [|[ipset tcs] rest IH]; intros index; simpl; auto. Qed.

Lemma filterChains_lookup parent groups : forall index (j : nat) ipset tcs,
  groups !! j = Some (ipset, tcs) ->
  filterChains parent index groups !! j
  = Some (tcChain ipset parent (index + Z.of_nat j)).
Proof.
  induction groups as [|[ipset0 tcs0] rest IH]; intros index j ipset tcs Hj;
    [discriminate|].
  destruct j as [|j]; simpl in *.
  - injection Hj as -> ->. now rewrite Z.add_0_r.
  - rewrite (IH (index + 1) j ipset tcs Hj). do 2 f_equal. lia.
Qed.

End PlanFacts.

(** ** The tokens of the planned commands *)

Section TokenFacts.
Context {FV : FloatVerb}.
Import GoStrings.

Lemma no_space_colon z : no_space (GoFmt.d z +:+ ":") = true.
Proof. now rewrite no_space_app, d_no_space. Qed.

Lemma no_space_pair a b : no_space (GoFmt.d a +:+ ":" +:+ GoFmt.d b) = true.
Proof.
  rewrite no_space_app, d_no_space.
  change (":" +:+ ?s) with (String ":"%char s). simpl. apply d_no_space.
Qed.

Lemma no_space_bandOf parent index : no_space (bandOf parent index) = true.
Proof. apply no_space_pair. Qed.

Lemma Split_qdisc_add rest :
  Split ("qdisc add dev eth0 " +:+ rest) space
  = ["qdisc"; "add"; "dev"; "eth0"] ++ Split rest space.
Proof.
  change ("qdisc add dev eth0 " +:+ rest)
    with ("qdisc" +:+ String space
            ("add" +:+ String space ("dev" +:+ String space ("eth0" +:+ String space rest)))).
  now rewrite !Split_app_sep.
Qed.

Lemma Split_handleArgOf handle :
  Split (handleArgOf handle) space = ["handle"; GoFmt.d handle +:+ ":"].
Proof.
  unfold handleArgOf.
  change ("handle " +:+ ?s) with ("handle" +:+ String space s).
  now rewrite Split_app_sep, (Split_token (_ +:+ ":")) by apply no_space_colon.
Qed.

Lemma Split_parent s :
  no_space s = true -> Split ("parent " +:+ s) space = ["parent"; s].
Proof.
  intros Hs. change ("parent " +:+ s) with ("parent" +:+ String space s).
  now rewrite Split_app_sep, (Split_token s).
Qed.

Lemma Split_globalParentArg index :
  Split (globalParentArg index) space
  = if 0 <? index then ["parent"; GoFmt.d index +:+ ":"] else ["root"].
Proof.
  unfold globalParentArg. destruct (0 <? index); [|reflexivity].
  apply Split_parent, no_space_colon.
Qed.

(** The tokens of the command of a well-formed [addTc]. *)
Lemma Split_addTc parentArg handleArg kind args :
  no_space kind = true ->
  Split ("qdisc add dev eth0 " +:+ parentArg +:+ " " +:+ handleArg
         +:+ " " +:+ kind +:+ " " +:+ args) space
  = ["qdisc"; "add"; "dev"; "eth0"] ++ Split parentArg space
    ++ Split handleArg space ++ [kind] ++ Split args space.
Proof.
  intros Hk. rewrite Split_qdisc_add.
  change (parentArg +:+ " " +:+ handleArg +:+ " " +:+ kind +:+ " " +:+ args)
    with (parentArg +:+ String space
            (handleArg +:+ String space (kind +:+ String space args))).
  now rewrite !Split_app_sep, (Split_token kind).
Qed.

Lemma tcPayload_kind tc kind args :
  tcPayload tc = Some (kind, args) -> kind = "netem" \/ kind = "tbf".
Proof.
  unfold tcPayload.
  destruct (Tc.Type_ tc); [destruct (Tc.Tbf tc)|destruct (Tc.Netem tc)|];
    intros [= <- <-]; auto.
Qed.

Lemma opCmd_addTc ns parentArg handleArg tc cmd :
  opCmd ns (OpAddTc parentArg handleArg tc) = Some cmd ->
  exists kind args,
    tcPayload tc = Some (kind, args)
    /\ (kind = "netem" \/ kind = "tbf")
    /\ cmd = tcCmd ns (["qdisc"; "add"; "dev"; "eth0"] ++ Split parentArg space
                       ++ Split handleArg space ++ [kind] ++ Split args space).
Proof.
  unfold opCmd. destruct (tcPayload tc) as [[kind args]|] eqn:Hp; [|discriminate].
  intros H. apply (inj Some) in H. subst cmd. exists kind, args.
  pose proof (tcPayload_kind tc kind args Hp) as Hk.
  split; [reflexivity|]. split; [assumption|].
  rewrite Split_addTc; [reflexivity|]. now destruct Hk as [-> | ->].
Qed.

Lemma Split_prioArgs parent band :
  Split (prioArgs parent band) space
  = ["qdisc"; "add"; "dev"; "eth0"]
    ++ (if 0 <? parent then ["parent"; GoFmt.d parent +:+ ":"] else ["root"])
    ++ ["handle"; GoFmt.d (parent + 1) +:+ ":"; "prio"; "bands"; GoFmt.d band;
        "priomap"; "1"; "2"; "2"; "2"; "1"; "2"; "0"; "0";
        "1"; "1"; "1"; "1"; "1"; "1"; "1"; "1"].
Proof.
  unfold prioArgs. rewrite Split_qdisc_add. f_equal.
  assert (E : globalParentArg parent +:+ " handle " +:+ GoFmt.d (parent + 1)
              +:+ ": prio bands " +:+ GoFmt.d band
              +:+ " priomap 1 2 2 2 1 2 0 0 1 1 1 1 1 1 1 1"
              = globalParentArg parent +:+ String space
                  ("handle" +:+ String space
                     ((GoFmt.d (parent + 1) +:+ ":") +:+ String space
                        ("prio" +:+ String space
                           ("bands" +:+ String space
                              (GoFmt.d band +:+ String space
                                 "priomap 1 2 2 2 1 2 0 0 1 1 1 1 1 1 1 1")))))).
  { rewrite !append_assoc. reflexivity. }
  rewrite E, !Split_app_sep, Split_globalParentArg.
  rewrite (Split_token (_ +:+ ":")) by apply no_space_colon.
  rewrite (Split_token (GoFmt.d band)) by apply d_no_space.
  reflexivity.
Qed.

Lemma Split_sfqArgs parent index :
  Split (sfqArgs parent index) space
  = ["qdisc"; "add"; "dev"; "eth0"; "parent";
     GoFmt.d (parent + 1) +:+ ":" +:+ GoFmt.d index;
     "handle"; GoFmt.d (parent + 1 + index) +:+ ":"; "sfq"].
Proof.
  unfold sfqArgs.
  change ("qdisc add dev eth0 parent " +:+ ?s)
    with ("qdisc add dev eth0 " +:+ "parent" +:+ String space s).
  rewrite Split_qdisc_add.
  change (GoFmt.d (parent + 1) +:+ ":" +:+ GoFmt.d index +:+ " handle "
          +:+ GoFmt.d (parent + 1 + index) +:+ ": sfq")
    with (GoFmt.d (parent + 1) +:+ ":" +:+ GoFmt.d index +:+ " handle "
          +:+ GoFmt.d (parent + 1 + index) +:+ ":" +:+ String space "sfq").
  rewrite Split_app_sep.
  assert (E : GoFmt.d (parent + 1) +:+ ":" +:+ GoFmt.d index +:+ " handle "
              +:+ GoFmt.d (parent + 1 + index) +:+ ":" +:+ String space "sfq"
              = (GoFmt.d (parent + 1) +:+ ":" +:+ GoFmt.d index)
                +:+ String space
                  ("handle" +:+ String space
                     ((GoFmt.d (parent + 1 + index) +:+ ":") +:+ String space "sfq"))).
  { rewrite !append_assoc. reflexivity. }
  rewrite E, !Split_app_sep.
  rewrite (Split_token (GoFmt.d (parent + 1) +:+ ":" +:+ GoFmt.d index))
    by apply no_space_pair.
  rewrite (Split_token (_ +:+ ":")) by apply no_space_colon.
  reflexivity.
Qed.

End TokenFacts.

(** ** The partition of the rules *)

Section PartitionFacts.
Context {FV : FloatVerb}.

Lemma fold_splitStep_lookup tcs : forall globalTc (filterTc : gmap string (list Tc.t)) k,
  snd (fold_left splitStep tcs (globalTc, filterTc)) !! k
  = if String.eqb k "" then filterTc !! k
    else match rulesOf k tcs with
         | [] => filterTc !! k
         | _ :: _ => Some (default [] (filterTc !! k) ++ rulesOf k tcs)
         end.
Proof.
  induction tcs as [|tc rest IH]; intros g m k.
  - simpl. now destruct (String.eqb k "").
  - change (rulesOf k (tc :: rest))
      with (if String.eqb (Tc.Ipset tc) k then tc :: rulesOf k rest else rulesOf k rest).
    cbn [fold_left]. unfold splitStep at 2.
    destruct (String.eqb_spec (Tc.Ipset tc) "") as [E|E].
    + rewrite IH. destruct (String.eqb_spec k "") as [->|Hk]; [reflexivity|].
      rewrite E. destruct (String.eqb_spec "" k) as [<-|_]; [contradiction|].
      reflexivity.
    + rewrite IH. destruct (String.eqb_spec k "") as [->|Hk].
      * now rewrite lookup_insert_ne.
      * destruct (String.eqb_spec (Tc.Ipset tc) k) as [<-|Hne].
        -- rewrite lookup_insert_eq. simpl.
           destruct (rulesOf (Tc.Ipset tc) rest); [reflexivity|].
           now rewrite <- app_assoc.
        -- now rewrite lookup_insert_ne.
Qed.

(** A group holds the rules that name its destination set, in the order
    of the request; only sets that some rule names have a group. *)
Lemma splitTcs_lookup tcs k :
  snd (splitTcs tcs) !! k
  = if String.eqb k "" then None
    else match rulesOf k tcs with
         | [] => None
         | _ :: _ => Some (rulesOf k tcs)
         end.
Proof.
  unfold splitTcs. rewrite fold_splitStep_lookup, lookup_empty. reflexivity.
Qed.

Lemma firstSeen_In keys k : In k (firstSeen keys) <-> In k keys.
Proof.
  induction keys as [|k0 rest IH]; simpl; [tauto|].
  rewrite filter_In, IH.
  destruct (String.eqb_spec k k0) as [->|Hne]; simpl.
  - split; [intros [?|[_ [=]]]|]; auto.
  - split; [intros [?|[? _]]|intros [?|?]]; auto.
Qed.

Lemma firstSeen_NoDup keys : List.NoDup (firstSeen keys).
Proof.
  induction keys as [|k0 rest IH]; simpl; constructor.
  - rewrite filter_In. intros [_ H]. now rewrite String.eqb_refl in H.
  - now apply List.NoDup_filter.
Qed.

Lemma destinationSets_In tcs k :
  In k (destinationSets tcs) <-> k <> "" /\ rulesOf k tcs <> [].
Proof.
  unfold destinationSets. rewrite firstSeen_In, filter_In, in_map_iff.
  destruct (String.eqb_spec k "") as [->|Hk]; simpl.
  - split; [intros [_ [=]]|intros [[] _]]. reflexivity.
  - split.
    + intros [(tc & <- & Hin) _]. split; [assumption|].
      intros E. assert (Hf : In tc (rulesOf (Tc.Ipset tc) tcs)).
      { apply filter_In. split; [assumption|apply String.eqb_refl]. }
      rewrite E in Hf. destruct Hf.
    + intros [_ Hne]. split; [|reflexivity].
      destruct (rulesOf k tcs) as [|tc l] eqn:E; [contradiction|].
      assert (Hf : In tc (rulesOf k tcs)) by (rewrite E; now left).
      apply filter_In in Hf as [Hin Heq]. exists tc.
      split; [now apply String.eqb_eq|assumption].
Qed.

Lemma splitTcs_is_Some tcs k :
  is_Some (snd (splitTcs tcs) !! k) <-> In k (destinationSets tcs).
Proof.
  rewrite splitTcs_lookup, destinationSets_In.
  destruct (String.eqb_spec k "") as [->|Hk].
  - split; [intros [? [=]]|intros [[] _]]. reflexivity.
  - destruct (rulesOf k tcs).
    + split; [intros [? [=]]|intros [_ []]]. reflexivity.
    + split; [intros _; split; [assumption|discriminate]|eauto].
Qed.

(** The keys of the map are the destination sets of the request. *)
Lemma splitTcs_keys tcs :
  Permutation (List.map fst (map_to_list (snd (splitTcs tcs)))) (destinationSets tcs).
Proof.
  apply NoDup_Permutation.
  - apply NoDup_fst_map_to_list.
  - apply NoDup_ListNoDup, firstSeen_NoDup.
  - intros k. rewrite !list_elem_of_In, <- splitTcs_is_Some.
    rewrite <- list_elem_of_In.
    change (List.map fst ?l) with (fst <$> l).
    rewrite list_elem_of_fmap. split.
    + intros ([k' v] & -> & Hin). apply elem_of_map_to_list in Hin. eauto.
    + intros [v Hv]. exists (k, v). split; [reflexivity|].
      now apply elem_of_map_to_list.
Qed.

Lemma splitTcs_size tcs :
  size (snd (splitTcs tcs)) = length (destinationSets tcs).
Proof.
  rewrite <- (Permutation_length (splitTcs_keys tcs)).
  now rewrite length_map, length_map_to_list.
Qed.

Context (w : World) {WL : WorldLaws w}.

(** However the runtime walks the map, it visits each destination set
    of the request once. *)
Lemma groupsOf_keys tcs :
  Permutation (List.map fst (groupsOf w tcs)) (destinationSets tcs).
Proof.
  unfold groupsOf. rewrite <- splitTcs_keys.
  apply Permutation_map, mapRange_perm.
Qed.

Lemma groupsOf_length tcs :
  length (groupsOf w tcs) = length (destinationSets tcs).
Proof.
  rewrite <- (Permutation_length (groupsOf_keys tcs)). now rewrite length_map.
Qed.

Lemma groupsOf_rules tcs j ipset group :
  groupsOf w tcs !! j = Some (ipset, group) ->
  ipset <> "" /\ group = rulesOf ipset tcs /\ group <> [].
Proof.
  intros Hj. apply list_elem_of_lookup_2 in Hj.
  unfold groupsOf in Hj. rewrite (mapRange_perm (snd (splitTcs tcs))) in Hj.
  apply elem_of_map_to_list in Hj. rewrite splitTcs_lookup in Hj.
  destruct (String.eqb_spec ipset "") as [->|Hk]; [discriminate|].
  destruct (rulesOf ipset tcs) eqn:E; [discriminate|].
  injection Hj as <-. now repeat split.
Qed.

End PartitionFacts.

(** ** The layout of the compiled tree *)

Section Layout.
Context {FV : FloatVerb} (w : World).

Lemma planOf_eq tcs :
  let g := Z.of_nat (length (globalRules tcs)) in
  planOf w tcs
  = globalOps 0 (globalRules tcs)
    ++ prioOps g (3 + Z.of_nat (length (destinationSets tcs)))
    ++ filterOps (g + 1) 0 (g + 4) (groupsOf w tcs).
Proof.
  intros g. subst g. unfold planOf, groupsOf.
  rewrite <- splitTcs_fst, <- splitTcs_size.
  now destruct (splitTcs tcs).
Qed.

Lemma chainsOf_eq tcs :
  chainsOf w tcs
  = filterChains (Z.of_nat (length (globalRules tcs)) + 1) 0 (groupsOf w tcs).
Proof.
  unfold chainsOf, groupsOf. rewrite <- splitTcs_fst. now destruct (splitTcs tcs).
Qed.

Lemma planOf_length tcs :
  length (planOf w tcs)
  = (length (globalRules tcs) + 4
     + length (concat (List.map snd (groupsOf w tcs))))%nat.
Proof.
  rewrite planOf_eq. cbv zeta.
  rewrite !length_app, globalOps_length, filterOps_length. simpl. lia.
Qed.

Lemma planOf_global tcs (i : nat) tc :
  globalRules tcs !! i = Some tc ->
  planOf w tcs !! i
  = Some (OpAddTc (globalParentArg (Z.of_nat i)) (handleArgOf (Z.of_nat i + 1)) tc).
Proof.
  intros Hi. rewrite planOf_eq. cbv zeta.
  rewrite lookup_app_l
    by (rewrite globalOps_length; now apply lookup_lt_Some in Hi).
  now rewrite (globalOps_lookup _ 0 i tc Hi).
Qed.

Lemma planOf_prio tcs (j : nat) :
  (j < 4)%nat ->
  let g := length (globalRules tcs) in
  planOf w tcs !! (g + j)%nat
  = prioOps (Z.of_nat g) (3 + Z.of_nat (length (destinationSets tcs))) !! j.
Proof.
  intros Hj g. subst g. rewrite planOf_eq. cbv zeta.
  rewrite lookup_app_r by (rewrite globalOps_length; lia).
  rewrite globalOps_length.
  replace (length (globalRules tcs) + j - length (globalRules tcs))%nat with j by lia.
  now rewrite lookup_app_l by (simpl; lia).
Qed.

Lemma planOf_filter tcs (n : nat) :
  let g := length (globalRules tcs) in
  planOf w tcs !! (g + 4 + n)%nat
  = filterOps (Z.of_nat g + 1) 0 (Z.of_nat g + 4) (groupsOf w tcs) !! n.
Proof.
  intros g. subst g. rewrite planOf_eq. cbv zeta.
  rewrite lookup_app_r by (rewrite globalOps_length; lia).
  rewrite globalOps_length.
  rewrite lookup_app_r by (simpl; lia).
  f_equal. simpl. lia.
Qed.

End Layout.

(** C3. One qdisc-add per unfiltered rule, in the order of the request:
    the first has parent [root] and handle [1:], the rule at place [i > 0]
    has parent [i:] and handle [i+1:].  Every such command that was run
    has this form, and a call that succeeds has run them all. *)
Theorem global_chain_layout {FV : FloatVerb} (w : World) (in_ : TcsRequest)
        (pid : Z) (r : error + unit) (tr : list Event) :
  GetPidFromContainerID w (ContainerId in_) = inr pid ->
  SetContainerTcRules w in_ [] = (r, tr) ->
  let globalTc := globalRules (Tcs in_) in
  (forall (i : nat) tc ev,
      globalTc !! i = Some tc -> tr !! S i = Some ev ->
      exists kind args,
        tcPayload tc = Some (kind, args)
        /\ ev = EvExec
                  (tcCmd (GetNsPath w pid)
                     (["qdisc"; "add"; "dev"; "eth0"]
                      ++ match i with
                         | O => ["root"]
                         | S _ => ["parent"; GoFmt.d (Z.of_nat i) +:+ ":"]
                         end
                      ++ ["handle"; GoFmt.d (Z.of_nat i + 1) +:+ ":"; kind]
                      ++ GoStrings.Split args space)))
  /\ (r = inr tt ->
      forall i, (i < length globalTc)%nat -> is_Some (tr !! S i)).
Proof.
  intros Hpid Hrun globalTc.
  destruct (SetContainerTcRules_trace w in_ pid r tr Hpid Hrun)
    as (_ & _ & Hok & Hev & _).
  split.
  - intros i tc ev Hi Hn.
    pose proof (lookup_lt_Some _ _ _ Hi) as Hlt.
    destruct (Hev i ev Hn) as (op & cmd & Hop & Hcmd & ->).
    { rewrite planOf_length. fold globalTc. lia. }
    rewrite (planOf_global w _ i tc Hi) in Hop. injection Hop as <-.
    apply opCmd_addTc in Hcmd as (kind & args & Hp & _ & ->).
    exists kind, args. split; [assumption|].
    rewrite Split_globalParentArg, Split_handleArgOf.
    destruct i as [|i]; [reflexivity|].
    replace (0 <? Z.of_nat (S i)) with true by (symmetry; apply Z.ltb_lt; lia).
    reflexivity.
  - intros Hr i Hi. destruct (Hok Hr) as [Hlen _].
    apply lookup_lt_is_Some_2. rewrite Hlen, planOf_length. fold globalTc. lia.
Qed.

Lemma global_chain_layout_witness :
  Demo.calm.(GetPidFromContainerID) "c1" = inr 42
  /\ exists ev2,
      snd (SetContainerTcRules Demo.calm Demo.four []) !! 2%nat = Some ev2
      /\ ev2 = EvExec (tcCmd "/proc/42/ns/net"
                         ["qdisc"; "add"; "dev"; "eth0"; "parent"; "1:";
                          "handle"; "2:"; "netem"; "delay"; "100000"]).
Proof.
  split; [reflexivity|].
  destruct (SetContainerTcRules Demo.calm Demo.four []) as [r tr] eqn:Hrun.
  pose proof (global_chain_layout Demo.calm Demo.four 42 r tr eq_refl Hrun) as [H _].
  assert (Hev : is_Some (tr !! 2%nat)).
  { apply (f_equal snd) in Hrun. simpl in Hrun. rewrite <- Hrun.
    vm_compute. eauto. }
  destruct Hev as [ev Hev]. exists ev. split; [exact Hev|].
  destruct (H 1%nat (Demo.netemTc (Demo.delay 100000) "") ev eq_refl Hev)
    as (kind & args & Hp & ->).
  injection Hp as <- <-. reflexivity.
Defined.

(** C4. After the [g] unfiltered rules comes the priority multiplexer
    with [3 + k] bands for [k] distinct destination sets, parent [root]
    when [g = 0] and [g:] otherwise, handle [g+1:] and the fixed priomap;
    the next three commands are the sfq leaves with handles [g+2], [g+3],
    [g+4] on the bands [(g+1):1], [(g+1):2], [(g+1):3]; what follows them
    is no sfq leaf but the qdisc of a filtered rule or the hand-over of
    the chains.  A call that succeeds has run all four. *)
Theorem prio_layout {FV : FloatVerb} (w : World) (in_ : TcsRequest)
        (pid : Z) (r : error + unit) (tr : list Event) :
  GetPidFromContainerID w (ContainerId in_) = inr pid ->
  SetContainerTcRules w in_ [] = (r, tr) ->
  let g := length (globalRules (Tcs in_)) in
  let k := length (destinationSets (Tcs in_)) in
  let ns := GetNsPath w pid in
  (forall ev,
      tr !! S g = Some ev ->
      ev = EvExec
             (tcCmd ns
                (["qdisc"; "add"; "dev"; "eth0"]
                 ++ match g with
                    | O => ["root"]
                    | S _ => ["parent"; GoFmt.d (Z.of_nat g) +:+ ":"]
                    end
                 ++ ["handle"; GoFmt.d (Z.of_nat g + 1) +:+ ":";
                     "prio"; "bands"; GoFmt.d (3 + Z.of_nat k);
                     "priomap"; "1"; "2"; "2"; "2"; "1"; "2"; "0"; "0";
                     "1"; "1"; "1"; "1"; "1"; "1"; "1"; "1"])))
  /\ (forall (j : nat) ev,
         (1 <= j <= 3)%nat ->
         tr !! (S g + j)%nat = Some ev ->
         ev = EvExec
                (tcCmd ns
                   ["qdisc"; "add"; "dev"; "eth0"; "parent";
                    GoFmt.d (Z.of_nat g + 1) +:+ ":" +:+ GoFmt.d (Z.of_nat j);
                    "handle"; GoFmt.d (Z.of_nat g + 1 + Z.of_nat j) +:+ ":"; "sfq"]))
  /\ (forall (n : nat) ev,
         tr !! (S g + 4 + n)%nat = Some ev ->
         (exists parentArg handle kind args,
             (kind = "netem" \/ kind = "tbf")
             /\ ev = EvExec
                       (tcCmd ns
                          (["qdisc"; "add"; "dev"; "eth0"]
                           ++ GoStrings.Split parentArg space
                           ++ ["handle"; handle; kind]
                           ++ GoStrings.Split args space)))
         \/ (exists chains, ev = EvSetIptablesChains ns chains))
  /\ (r = inr tt -> forall j, (j <= 3)%nat -> is_Some (tr !! (S g + j)%nat)).
Proof.
  intros Hpid Hrun g k ns.
  destruct (SetContainerTcRules_trace w in_ pid r tr Hpid Hrun)
    as (_ & Hlen & Hok & Hev & Hlast & _).
  pose proof (planOf_length w (Tcs in_)) as Hplan. fold g in Hplan.
  assert (Hprio : forall (j : nat) ev,
             (j < 4)%nat -> tr !! (S g + j)%nat = Some ev ->
             exists args,
               prioOps (Z.of_nat g) (3 + Z.of_nat k) !! j = Some (OpRun args)
               /\ ev = EvExec (tcCmd ns (GoStrings.Split args space))).
  { intros j ev Hj Hn.
    destruct (Hev (g + j)%nat ev Hn) as (op & cmd & Hop & Hcmd & ->); [lia|].
    unfold g in Hop. rewrite (planOf_prio w (Tcs in_) j Hj) in Hop. fold g k in Hop.
    destruct j as [|[|[|[|j]]]]; try lia; simpl in Hop; injection Hop as <-;
      injection Hcmd as <-; eauto. }
  split; [|split; [|split]].
  - intros ev Hn. replace (S g) with (S g + 0)%nat in Hn by lia.
    destruct (Hprio 0%nat ev ltac:(lia) Hn) as (args & [= <-] & ->).
    rewrite Split_prioArgs. do 3 f_equal.
    destruct g as [|g']; [reflexivity|].
    replace (0 <? Z.of_nat (S g')) with true by (symmetry; apply Z.ltb_lt; lia).
    reflexivity.
  - intros j ev Hj Hn.
    destruct (Hprio j ev ltac:(lia) Hn) as (args & Hop & ->).
    destruct j as [|[|[|[|j]]]]; try lia; simpl in Hop; injection Hop as <-;
      now rewrite Split_sfqArgs.
  - intros n ev Hn.
    destruct (decide (g + 4 + n < length (planOf w (Tcs in_)))%nat) as [Hlt|Hge].
    + left. destruct (Hev (g + 4 + n)%nat ev Hn Hlt) as (op & cmd & Hop & Hcmd & ->).
      unfold g in Hop. rewrite (planOf_filter w (Tcs in_) n) in Hop.
      apply filterOps_addTc in Hop as (parentArg & tc & ->).
      apply opCmd_addTc in Hcmd as (kind & args & _ & Hk & ->).
      rewrite Split_handleArgOf. eauto 10.
    + right. apply lookup_lt_Some in Hn as Hn'.
      assert (E : (S g + 4 + n)%nat = S (length (planOf w (Tcs in_)))) by lia.
      rewrite E in Hn. eauto.
  - intros Hr j Hj. destruct (Hok Hr) as [Hl _].
    apply lookup_lt_is_Some_2. lia.
Qed.

Lemma prio_layout_witness :
  Demo.calm.(GetPidFromContainerID) "c1" = inr 42
  /\ exists ev,
      snd (SetContainerTcRules Demo.calm Demo.four []) !! 3%nat = Some ev
      /\ ev = EvExec (tcCmd "/proc/42/ns/net"
                        ["qdisc"; "add"; "dev"; "eth0"; "parent"; "2:";
                         "handle"; "3:"; "prio"; "bands"; "5";
                         "priomap"; "1"; "2"; "2"; "2"; "1"; "2"; "0"; "0";
                         "1"; "1"; "1"; "1"; "1"; "1"; "1"; "1"]).
Proof.
  split; [reflexivity|].
  destruct (SetContainerTcRules Demo.calm Demo.four []) as [r tr] eqn:Hrun.
  pose proof (prio_layout Demo.calm Demo.four 42 r tr eq_refl Hrun) as [H _].
  assert (Hev : is_Some (tr !! 3%nat)).
  { apply (f_equal snd) in Hrun. simpl in Hrun. rewrite <- Hrun.
    vm_compute. eauto. }
  destruct Hev as [ev Hev]. exists ev. split; [exact Hev|].
  exact (H ev Hev).
Defined.

Lemma append_colon_inj (s1 s2 : string) : s1 +:+ ":" = s2 +:+ ":" -> s1 = s2.
Proof.
  revert s2. induction s1 as [|c s1 IH]; intros [|c2 s2] H.
  - reflexivity.
  - rewrite append_cons in H. injection H as _ H. now destruct s2.
  - rewrite append_cons in H. injection H as _ H. now destruct s1.
  - rewrite !append_cons in H. injection H as -> H. f_equal. now apply IH.
Qed.

(** Handles [<n>:] of different numbers are different texts. *)
Lemma handle_token_inj a b : GoFmt.d a +:+ ":" = GoFmt.d b +:+ ":" -> a = b.
Proof. intros H. now apply d_inj, append_colon_inj. Qed.

(** The command of the rule at place [i] of the group processed at
    place [j], when it was run. *)
Lemma filtered_rule_event {FV : FloatVerb} (w : World) (in_ : TcsRequest)
      (pid : Z) (r : error + unit) (tr : list Event) :
  GetPidFromContainerID w (ContainerId in_) = inr pid ->
  SetContainerTcRules w in_ [] = (r, tr) ->
  let g := length (globalRules (Tcs in_)) in
  let groups := groupsOf w (Tcs in_) in
  forall (j i : nat) ipset group tc ev,
    groups !! j = Some (ipset, group) ->
    group !! i = Some tc ->
    let n := (rulesBefore groups j + i)%nat in
    tr !! (g + 5 + n)%nat = Some ev ->
    exists kind args,
      tcPayload tc = Some (kind, args)
      /\ ev = EvExec
                (tcCmd (GetNsPath w pid)
                   (["qdisc"; "add"; "dev"; "eth0"; "parent";
                     match i with
                     | O => GoFmt.d (Z.of_nat g + 1) +:+ ":" +:+ GoFmt.d (Z.of_nat j + 4)
                     | S _ => GoFmt.d (Z.of_nat g + 5 + Z.of_nat n - 1) +:+ ":"
                     end;
                     "handle"; GoFmt.d (Z.of_nat g + 5 + Z.of_nat n) +:+ ":"; kind]
                    ++ GoStrings.Split args space)).
Proof.
  intros Hpid Hrun g groups j i ipset group tc ev Hj Hi n Hlook.
  destruct (SetContainerTcRules_trace w in_ pid r tr Hpid Hrun)
    as (_ & Hlen & Hok & Hev & Hlast & _).
  pose proof (planOf_length w (Tcs in_)) as Hplan. fold g groups in Hplan.
  assert (Hn : (n < length (concat (List.map snd groups)))%nat).
  { apply lookup_lt_Some in Hlook. apply lookup_lt_Some in Hi.
    subst n. unfold rulesBefore in *.
    rewrite <- (take_drop_middle groups j (ipset, group) Hj) at 2.
    rewrite map_app, concat_app, length_app. simpl. rewrite length_app. lia. }
  replace (g + 5 + n)%nat with (S (g + 4 + n)) in Hlook by lia.
  destruct (Hev (g + 4 + n)%nat ev Hlook) as (op & cmd & Hop & Hcmd & ->); [lia|].
  unfold g in Hop. rewrite (planOf_filter w (Tcs in_) n) in Hop. fold g groups in Hop.
  subst n. rewrite (filterOps_lookup _ groups 0 _ j i ipset group tc Hj Hi) in Hop.
  injection Hop as <-.
  apply opCmd_addTc in Hcmd as (kind & args & Hp & _ & ->).
  exists kind, args. split; [assumption|].
  rewrite Split_handleArgOf.
  set (n := (rulesBefore groups j + i)%nat).
  replace (Z.of_nat g + 4 + Z.of_nat n + 1) with (Z.of_nat g + 5 + Z.of_nat n) by lia.
  replace (Z.of_nat g + 4 + Z.of_nat n) with (Z.of_nat g + 5 + Z.of_nat n - 1) by lia.
  destruct i as [|i].
  + change (0 <? Z.of_nat 0) with false. cbv iota.
    rewrite Split_parent by apply no_space_bandOf. unfold bandOf.
    now rewrite Z.add_0_l.
  + replace (0 <? Z.of_nat (S i)) with true by (symmetry; apply Z.ltb_lt; lia).
    now rewrite Split_parent by apply no_space_colon.
Qed.

(** C5. The filtered rules, in the order in which they are processed,
    get the handles [g+5], [g+6], ...: each is above [g+4], they grow by
    one from rule to rule, and no two are the same.  The first rule of
    the group processed at place [j] hangs on the band [(g+1):(j+4)] (a
    later rule of the group on the handle before its own), and the chain
    of the group has the target [CLASSIFY --set-class (g+1):(j+4)]. *)
Theorem filter_layout {FV : FloatVerb} (w : World) (in_ : TcsRequest)
        (pid : Z) (r : error + unit) (tr : list Event) :
  GetPidFromContainerID w (ContainerId in_) = inr pid ->
  SetContainerTcRules w in_ [] = (r, tr) ->
  let g := length (globalRules (Tcs in_)) in
  let groups := groupsOf w (Tcs in_) in
  let total := length (concat (List.map snd groups)) in
  let ns := GetNsPath w pid in
  let handleOf (n : nat) : Z := Z.of_nat g + 5 + Z.of_nat n in
  (forall (n : nat) ev,
      (n < total)%nat ->
      tr !! (g + 5 + n)%nat = Some ev ->
      exists parentArg kind args,
        ev = EvExec
               (tcCmd ns
                  (["qdisc"; "add"; "dev"; "eth0"]
                   ++ GoStrings.Split parentArg space
                   ++ ["handle"; GoFmt.d (handleOf n) +:+ ":"; kind]
                   ++ GoStrings.Split args space)))
  /\ (forall n n' : nat,
         Z.of_nat g + 4 < handleOf n
         /\ ((n < n')%nat -> handleOf n < handleOf n')
         /\ (n <> n' -> GoFmt.d (handleOf n) +:+ ":" <> GoFmt.d (handleOf n') +:+ ":"))
  /\ (forall (j i : nat) ipset group tc ev,
         groups !! j = Some (ipset, group) ->
         group !! i = Some tc ->
         let n := (rulesBefore groups j + i)%nat in
         tr !! (g + 5 + n)%nat = Some ev ->
         exists kind args,
           tcPayload tc = Some (kind, args)
           /\ ev = EvExec
                     (tcCmd ns
                        (["qdisc"; "add"; "dev"; "eth0"; "parent";
                          match i with
                          | O => GoFmt.d (Z.of_nat g + 1) +:+ ":" +:+ GoFmt.d (Z.of_nat j + 4)
                          | S _ => GoFmt.d (handleOf n - 1) +:+ ":"
                          end;
                          "handle"; GoFmt.d (handleOf n) +:+ ":"; kind]
                         ++ GoStrings.Split args space)))
  /\ (r = inr tt ->
      (forall n, (n < total)%nat -> is_Some (tr !! (g + 5 + n)%nat))
      /\ exists chains,
          tr !! (g + 5 + total)%nat = Some (EvSetIptablesChains ns chains)
          /\ length chains = length groups
          /\ forall (j : nat) ipset group,
              groups !! j = Some (ipset, group) ->
              exists chain,
                chains !! j = Some chain
                /\ Chain.Ipsets chain = [ipset]
                /\ Chain.Target chain
                   = "CLASSIFY --set-class " +:+ GoFmt.d (Z.of_nat g + 1)
                     +:+ ":" +:+ GoFmt.d (Z.of_nat j + 4)).
Proof.
  intros Hpid Hrun g groups total ns handleOf.
  destruct (SetContainerTcRules_trace w in_ pid r tr Hpid Hrun)
    as (_ & Hlen & Hok & Hev & Hlast & _).
  pose proof (planOf_length w (Tcs in_)) as Hplan. fold g groups total in Hplan.
  split; [|split; [|split]].
  - intros n ev Hn Hlook.
    replace (g + 5 + n)%nat with (S (g + 4 + n)) in Hlook by lia.
    destruct (Hev (g + 4 + n)%nat ev Hlook) as (op & cmd & Hop & Hcmd & ->); [lia|].
    unfold g in Hop. rewrite (planOf_filter w (Tcs in_) n) in Hop. fold g in Hop.
    apply filterOps_addTc in Hop as (parentArg & tc & ->).
    apply opCmd_addTc in Hcmd as (kind & args & _ & _ & ->).
    rewrite Split_handleArgOf. exists parentArg, kind, args.
    replace (Z.of_nat g + 4 + Z.of_nat n + 1) with (handleOf n)
      by (subst handleOf; cbv beta; lia).
    reflexivity.
  - intros n n'. subst handleOf. cbv beta. split; [lia|]. split; [lia|].
    intros Hne E. apply handle_token_inj in E. lia.
  - exact (filtered_rule_event w in_ pid r tr Hpid Hrun).
  - intros Hr. destruct (Hok Hr) as [Hl Hch]. split.
    + intros n Hn. apply lookup_lt_is_Some_2. lia.
    + exists (chainsOf w (Tcs in_)).
      replace (g + 5 + total)%nat with (S (length (planOf w (Tcs in_)))) by lia.
      split; [exact Hch|]. rewrite chainsOf_eq. fold g groups.
      split; [apply filterChains_length|].
      intros j ipset group Hj.
      rewrite (filterChains_lookup _ groups 0 j ipset group Hj).
      eexists. split; [reflexivity|]. split; [reflexivity|].
      simpl. now rewrite Z.add_0_l.
Qed.

Lemma filter_layout_witness :
  Demo.calm.(GetPidFromContainerID) "c1" = inr 42
  /\ exists ev parentArg kind args,
      snd (SetContainerTcRules Demo.calm Demo.four []) !! 8%nat = Some ev
      /\ ev = EvExec (tcCmd "/proc/42/ns/net"
                        (["qdisc"; "add"; "dev"; "eth0"]
                         ++ GoStrings.Split parentArg space
                         ++ ["handle"; "8:"; kind]
                         ++ GoStrings.Split args space)).
Proof.
  split; [reflexivity|].
  destruct (SetContainerTcRules Demo.calm Demo.four []) as [r tr] eqn:Hrun.
  pose proof (filter_layout Demo.calm Demo.four 42 r tr eq_refl Hrun) as (H & _).
  cbv zeta in H.
  assert (Hev : is_Some (tr !! 8%nat)).
  { apply (f_equal snd) in Hrun. simpl in Hrun. rewrite <- Hrun.
    vm_compute. eauto. }
  destruct Hev as [ev Hev].
  assert (Ht : (1 < length (concat (List.map snd (groupsOf Demo.calm (Tcs Demo.four)))))%nat)
    by (vm_compute; lia).
  destruct (H 1%nat ev Ht Hev) as (parentArg & kind & args & Eev).
  exists ev, parentArg, kind, args. split; [exact Hev|exact Eev].
Defined.

(** ** The order of the filtered groups *)

#[export] Instance calm_laws : WorldLaws Demo.calm.
Proof. split. intros m. reflexivity. Qed.

Lemma filterChains_imap {FV : FloatVerb} parent (groups : list (string * list Tc.t)) :
  forall index,
    filterChains parent index groups
    = imap (fun j ipset => tcChain ipset parent (index + Z.of_nat j))
           (List.map fst groups).
Proof.
  induction groups as [|[ipset tcs] rest IH]; intros index; [reflexivity|].
  simpl. rewrite Z.add_0_r. f_equal. rewrite IH.
  apply imap_ext. intros j x _. simpl. f_equal. lia.
Qed.

Lemma chainsOf_chainsFor {FV : FloatVerb} (w : World) tcs :
  chainsOf w tcs
  = chainsFor (Z.of_nat (length (globalRules tcs))) (List.map fst (groupsOf w tcs)).
Proof.
  rewrite chainsOf_eq, filterChains_imap. unfold chainsFor.
  apply imap_ext. intros j x _. simpl. now rewrite Z.add_0_l.
Qed.

(** The runtime of [Demo.backwards] is one Go allows. *)
#[export] Instance backwards_laws : WorldLaws Demo.backwards.
Proof. split. intros m. simpl. symmetry. apply Permutation_rev. Qed.

(** The example of the comment in [SetContainerTcRules], run where the
    map is walked from [B] to [A]: the band [3:4], the handle [7:] and
    the chain [TC-TABLES-0] go to the rule of [B], where the comment
    gives them to the rule of [A], which was seen first. *)
Example worked_example_other_order :
  SetContainerTcRules Demo.backwards Demo.four []
  = (inr tt,
     List.map (fun args => EvExec (tcCmd "/proc/42/ns/net" args))
       [["qdisc"; "del"; "dev"; "eth0"; "root"];
        ["qdisc"; "add"; "dev"; "eth0"; "root"; "handle"; "1:"; "netem"; "delay"; "50000"];
        ["qdisc"; "add"; "dev"; "eth0"; "parent"; "1:"; "handle"; "2:";
         "netem"; "delay"; "100000"];
        ["qdisc"; "add"; "dev"; "eth0"; "parent"; "2:"; "handle"; "3:";
         "prio"; "bands"; "5"; "priomap";
         "1"; "2"; "2"; "2"; "1"; "2"; "0"; "0"; "1"; "1"; "1"; "1"; "1"; "1"; "1"; "1"];
        ["qdisc"; "add"; "dev"; "eth0"; "parent"; "3:1"; "handle"; "4:"; "sfq"];
        ["qdisc"; "add"; "dev"; "eth0"; "parent"; "3:2"; "handle"; "5:"; "sfq"];
        ["qdisc"; "add"; "dev"; "eth0"; "parent"; "3:3"; "handle"; "6:"; "sfq"];
        ["qdisc"; "add"; "dev"; "eth0"; "parent"; "3:4"; "handle"; "7:";
         "netem"; "delay"; "100000"];
        ["qdisc"; "add"; "dev"; "eth0"; "parent"; "3:5"; "handle"; "8:";
         "netem"; "delay"; "50000"]]
     ++ [EvSetIptablesChains "/proc/42/ns/net"
           [Chain.mk "TC-TABLES-0" Chain_OUTPUT ["B"] "CLASSIFY --set-class 3:4";
            Chain.mk "TC-TABLES-1" Chain_OUTPUT ["A"] "CLASSIFY --set-class 3:5"]]).
Proof. vm_compute. reflexivity. Qed.

(** C1, as it is written, fails of the code: with the filtered rules of
    sets [B] and [A] given in this order, a runtime that walks the map
    from [A] to [B] (as Go allows) makes the chains of [A], then [B], not
    those of the first-seen order [B], [A]. *)
Lemma first_seen_order_counterexample :
  ~ (forall (w : @World Demo.micro), WorldLaws w ->
     forall in_ pid r tr,
       GetPidFromContainerID w (ContainerId in_) = inr pid ->
       SetContainerTcRules w in_ [] = (r, tr) ->
       r = inr tt ->
       last tr
       = Some (EvSetIptablesChains (GetNsPath w pid)
                 (chainsFor (Z.of_nat (length (globalRules (Tcs in_))))
                            (destinationSets (Tcs in_))))).
Proof.
  intros H.
  specialize (H Demo.calm calm_laws Demo.four_BA 42
                (fst (SetContainerTcRules Demo.calm Demo.four_BA []))
                (snd (SetContainerTcRules Demo.calm Demo.four_BA []))
                eq_refl (surjective_pairing _) ltac:(vm_compute; reflexivity)).
  vm_compute in H. discriminate H.
Qed.

(** C1, what the code does where the design asks for the first-seen
    order.  [SetContainerTcRules] ranges over the map [filterTc], so the
    filtered groups are processed in the order in which the runtime
    walks the map: some arrangement of the distinct destination sets of
    the request, and not always the order of their first occurrence.
    Each group holds the rules of its set in the order of the request
    and starts on its own band; the chains handed to the packet filter
    follow the order of the walk, are named [TC-TABLES-0] to
    [TC-TABLES-(k-1)] without a gap, and each lists exactly the
    destination set of its group. *)
Theorem chains_follow_range_order {FV : FloatVerb} (w : World) {WL : WorldLaws w}
        (in_ : TcsRequest) (pid : Z) (r : error + unit) (tr : list Event) :
  GetPidFromContainerID w (ContainerId in_) = inr pid ->
  SetContainerTcRules w in_ [] = (r, tr) ->
  r = inr tt ->
  let g := length (globalRules (Tcs in_)) in
  let groups := groupsOf w (Tcs in_) in
  let sets := List.map fst groups in
  let k := length (destinationSets (Tcs in_)) in
  Permutation sets (destinationSets (Tcs in_))
  /\ (forall (j : nat) ipset group,
         groups !! j = Some (ipset, group) ->
         exists tc rest,
           rulesOf ipset (Tcs in_) = tc :: rest
           /\ group = tc :: rest
           /\ exists kind args,
               tcPayload tc = Some (kind, args)
               /\ tr !! (g + 5 + rulesBefore groups j)%nat
                  = Some (EvExec
                            (tcCmd (GetNsPath w pid)
                               (["qdisc"; "add"; "dev"; "eth0"; "parent";
                                 GoFmt.d (Z.of_nat g + 1) +:+ ":" +:+ GoFmt.d (Z.of_nat j + 4);
                                 "handle";
                                 GoFmt.d (Z.of_nat g + 5 + Z.of_nat (rulesBefore groups j)) +:+ ":";
                                 kind]
                                ++ GoStrings.Split args space))))
  /\ last tr = Some (EvSetIptablesChains (GetNsPath w pid)
                       (chainsFor (Z.of_nat g) sets))
  /\ length (chainsFor (Z.of_nat g) sets) = k
  /\ (forall (j : nat),
         (j < k)%nat ->
         exists ipset,
           sets !! j = Some ipset
           /\ chainsFor (Z.of_nat g) sets !! j
              = Some {| Chain.Name := "TC-TABLES-" +:+ GoFmt.d (Z.of_nat j);
                        Chain.Direction := Chain_OUTPUT;
                        Chain.Ipsets := [ipset];
                        Chain.Target := "CLASSIFY --set-class "
                                        +:+ GoFmt.d (Z.of_nat g + 1) +:+ ":"
                                        +:+ GoFmt.d (Z.of_nat j + 4) |}).
Proof.
  intros Hpid Hrun Hr g groups sets k.
  destruct (SetContainerTcRules_trace w in_ pid r tr Hpid Hrun)
    as (_ & _ & Hok & _).
  destruct (Hok Hr) as [Hlen Hch].
  pose proof (groupsOf_keys w (Tcs in_)) as Hperm. fold groups sets in Hperm.
  assert (Hk : length sets = k)
    by (subst k; now rewrite <- (Permutation_length Hperm)).
  pose proof (planOf_length w (Tcs in_)) as Hplan. fold g groups in Hplan.
  split; [exact Hperm|]. split; [|split; [|split]].
  - intros j ipset group Hj.
    destruct (groupsOf_rules w (Tcs in_) j ipset group Hj) as (_ & Hgroup & Hne).
    destruct group as [|tc rest]; [contradiction|].
    exists tc, rest. split; [now symmetry|]. split; [reflexivity|].
    assert (Hlt : (rulesBefore groups j < length (concat (List.map snd groups)))%nat).
    { unfold rulesBefore.
      rewrite <- (take_drop_middle groups j (ipset, tc :: rest) Hj) at 2.
      rewrite map_app, concat_app, length_app. simpl. lia. }
    destruct (lookup_lt_is_Some_2 tr (g + 5 + rulesBefore groups j)%nat) as [ev Hev];
      [lia|].
    pose proof (filtered_rule_event w in_ pid r tr Hpid Hrun j 0%nat ipset
                  (tc :: rest) tc ev Hj eq_refl) as Hrule.
    cbv zeta in Hrule. fold g groups in Hrule.
    rewrite Nat.add_0_r in Hrule.
    destruct (Hrule Hev) as (kind & args & Hp & ->).
    exists kind, args. split; [assumption|exact Hev].
  - rewrite last_lookup, Hlen.
    replace (Init.Nat.pred (length (planOf w (Tcs in_)) + 2))
      with (S (length (planOf w (Tcs in_)))) by lia.
    rewrite Hch, chainsOf_chainsFor. reflexivity.
  - unfold chainsFor. now rewrite length_imap.
  - intros j Hj. destruct (lookup_lt_is_Some_2 sets j) as [ipset Hs]; [lia|].
    exists ipset. split; [assumption|].
    unfold chainsFor. rewrite list_lookup_imap, Hs. reflexivity.
Qed.

Lemma chains_follow_range_order_witness :
  last (snd (SetContainerTcRules Demo.calm Demo.four_BA []))
  = Some (EvSetIptablesChains "/proc/42/ns/net"
            (chainsFor 2 (List.map fst (groupsOf Demo.calm (Tcs Demo.four_BA))))).
Proof.
  destruct (SetContainerTcRules Demo.calm Demo.four_BA []) as [r tr] eqn:Hrun.
  assert (Hr : r = inr tt).
  { apply (f_equal fst) in Hrun. simpl in Hrun. rewrite <- Hrun.
    vm_compute. reflexivity. }
  exact (proj1 (proj2 (proj2
           (chains_follow_range_order Demo.calm Demo.four_BA 42 r tr eq_refl Hrun Hr)))).
Defined.

(** ** Failures *)

Section PlanCommands.
Context {FV : FloatVerb} (w : World).

Lemma globalOps_addTc globalTc : forall index n op,
  globalOps index globalTc !! n = Some op ->
  exists parentArg handleArg tc, op = OpAddTc parentArg handleArg tc.
Proof.
  induction globalTc as [|tc rest IH]; intros index n op Hn; [discriminate|].
  destruct n as [|n]; simpl in Hn; [injection Hn as <-; eauto|eauto].
Qed.

(** Every command of the plan is a [tc qdisc add dev eth0 ...]. *)
Lemma planOf_qdisc_add tcs ns n op cmd :
  planOf w tcs !! n = Some op ->
  opCmd ns op = Some cmd ->
  exists rest, cmd_args cmd = "qdisc" :: "add" :: "dev" :: "eth0" :: rest.
Proof.
  intros Hop Hcmd.
  assert (Hshape : (exists parentArg handleArg tc, op = OpAddTc parentArg handleArg tc)
                   \/ (exists parent band, op = OpRun (prioArgs parent band))
                   \/ (exists parent index, op = OpRun (sfqArgs parent index))).
  { rewrite planOf_eq in Hop. cbv zeta in Hop.
    apply lookup_app_Some in Hop as [Hop|[_ Hop]].
    - left. eapply globalOps_addTc, Hop.
    - apply lookup_app_Some in Hop as [Hop|[_ Hop]].
      + right. unfold prioOps in Hop. apply list_elem_of_lookup_2 in Hop.
        repeat (apply elem_of_cons in Hop as [->|Hop]; [eauto|]).
        now apply elem_of_nil in Hop.
      + left. apply filterOps_addTc in Hop as (parentArg & tc & ->). eauto. }
  destruct Hshape as [(parentArg & handleArg & tc & ->)
                     |[(parent & band & ->)|(parent & index & ->)]].
  - apply opCmd_addTc in Hcmd as (kind & args & _ & _ & ->).
    eexists. reflexivity.
  - unfold opCmd in Hcmd. apply (inj Some) in Hcmd. subst cmd.
    unfold tcCmd. cbn [cmd_args]. rewrite Split_prioArgs.
    eexists. reflexivity.
  - unfold opCmd in Hcmd. apply (inj Some) in Hcmd. subst cmd.
    unfold tcCmd. cbn [cmd_args]. rewrite Split_sfqArgs.
    eexists. reflexivity.
Qed.

End PlanCommands.

(** C7. When an operation of the plan fails, whether its command exits
    with an error or [addTc] rejects the rule, [SetContainerTcRules]
    returns that error at once, annotated by [errors.WithStack], which
    keeps its cause and its message: the trace ends where the operation
    left it, so no later operation is tried.  Nothing is undone: after
    the flush the trace holds only qdisc-add commands. *)
Theorem abort_on_first_failure {FV : FloatVerb} (w : World) (in_ : TcsRequest)
        (pid : Z) (r : error + unit) (tr : list Event) :
  GetPidFromContainerID w (ContainerId in_) = inr pid ->
  SetContainerTcRules w in_ [] = (r, tr) ->
  let ns := GetNsPath w pid in
  let c := buildTcClient ns in
  let plan := planOf w (Tcs in_) in
  (forall n cmd output err,
      tr !! S n = Some (EvExec cmd) ->
      CombinedOutput w (take (S n) tr) cmd = (output, Some err) ->
      length tr = S (S n)
      /\ r = inl (WithStack (encodeOutputToError w output err)))
  /\ (forall n op h e h',
         flushResult w [] ns = inr tt ->
         plan !! n = Some op ->
         runOps w c (take n plan) [EvExec (flushCmd ns)] = (inr tt, h) ->
         runOp w c op h = (inl e, h') ->
         (exists err,
             r = inl err /\ err = WithStack e
             /\ Cause err = Cause e /\ Message err = Message e)
         /\ tr = h'
         /\ (h' = h \/ exists cmd, h' = h ++ [EvExec cmd]))
  /\ (forall n cmd,
         tr !! S n = Some (EvExec cmd) ->
         exists rest, cmd_args cmd = "qdisc" :: "add" :: "dev" :: "eth0" :: rest).
Proof.
  intros Hpid Hrun ns c plan.
  destruct (SetContainerTcRules_trace w in_ pid r tr Hpid Hrun)
    as (_ & Hlen & _ & Hev & Hlast & Hfail).
  split; [|split].
  - intros n cmd output err Hn Hout.
    apply (Hfail n cmd); [assumption|]. unfold cmdResult. now rewrite Hout.
  - intros n op h e h' Hflush Hop Hpre Hfailop.
    rewrite SetContainerTcRules_eq, Hpid in Hrun. cbv zeta in Hrun.
    fold ns c plan in Hrun. rewrite Hflush in Hrun. simpl app in Hrun.
    rewrite <- (take_drop_middle plan n op Hop), runOps_app in Hrun.
    unfold bind in Hrun. rewrite Hpre in Hrun. simpl in Hrun.
    unfold bind, withStack in Hrun. rewrite Hfailop in Hrun.
    injection Hrun as <- <-. split; [now exists (WithStack e)|]. split; [reflexivity|].
    destruct (runOp_cases w c op h) as [[_ [e' He]]|(cmd & _ & He)];
      rewrite He in Hfailop; injection Hfailop as _ <-; eauto.
  - intros n cmd Hn.
    destruct (decide (n < length plan)%nat) as [Hlt|Hge].
    + destruct (Hev n _ Hn Hlt) as (op & cmd' & Hop & Hcmd & [= ->]).
      eapply planOf_qdisc_add; eassumption.
    + apply lookup_lt_Some in Hn as Hn'.
      assert (E : n = length plan) by (subst plan; lia). subst n.
      apply Hlast in Hn. discriminate Hn.
Qed.

Lemma abort_on_first_failure_witness :
  Demo.calm.(GetPidFromContainerID) "c1" = inr 42
  /\ SetContainerTcRules (Demo.failing 3 "boom") Demo.four []
     = (inl (WithStack (External "boom")),
        take 4 (snd (SetContainerTcRules Demo.calm Demo.four []))).
Proof.
  split; [reflexivity|].
  destruct (SetContainerTcRules (Demo.failing 3 "boom") Demo.four []) as [r tr] eqn:Hrun.
  pose proof (abort_on_first_failure (Demo.failing 3 "boom") Demo.four 42 r tr
                eq_refl Hrun) as (_ & H & _).
  cbv zeta in H.
  assert (Hflush : flushResult (Demo.failing 3 "boom") [] "/proc/42/ns/net" = inr tt)
    by (vm_compute; reflexivity).
  assert (Hop : planOf (Demo.failing 3 "boom") (Tcs Demo.four) !! 2%nat
                = Some (@OpRun Demo.micro (prioArgs 2 5)))
    by (vm_compute; reflexivity).
  assert (Hpre : runOps (Demo.failing 3 "boom") (buildTcClient "/proc/42/ns/net")
                   (take 2 (planOf (Demo.failing 3 "boom") (Tcs Demo.four)))
                   [EvExec (flushCmd "/proc/42/ns/net")]
                 = (inr tt, take 3 (snd (SetContainerTcRules Demo.calm Demo.four []))))
    by (vm_compute; reflexivity).
  assert (Hfail : runOp (Demo.failing 3 "boom") (buildTcClient "/proc/42/ns/net")
                    (@OpRun Demo.micro (prioArgs 2 5))
                    (take 3 (snd (SetContainerTcRules Demo.calm Demo.four [])))
                  = (inl (External "boom"),
                     take 4 (snd (SetContainerTcRules Demo.calm Demo.four []))))
    by (vm_compute; reflexivity).
  destruct (H 2%nat _ _ _ _ Hflush Hop Hpre Hfail) as ((err & -> & -> & _) & -> & _).
  reflexivity.
Defined.

(** C8, as it is written, fails: a well-formed NETEM rule whose command
    exits with an error makes [addTc] return an error too. *)
Lemma addTc_error_iff_counterexample :
  ~ (forall (w : @World Demo.micro) c parentArg handleArg tc h,
        (exists e, fst (addTc w c parentArg handleArg tc h) = inl e)
        <-> malformedTc tc).
Proof.
  intros H.
  destruct (H (Demo.failing 0 "boom") (buildTcClient "ns") "root" "handle 1:"
              (Demo.netemTc (Demo.delay 50000) "") []) as [Hmal _].
  destruct Hmal as [[Hn _]|[[[=] _]|[_ [=]]]].
  - exists (External "boom"). reflexivity.
  - now apply Hn.
Qed.

(** C8, amended.  [addTc] returns an error of its own, without running a
    command, exactly when the type is neither NETEM nor BANDWIDTH, or is
    BANDWIDTH with a nil [Tbf], or is NETEM with a nil [Netem].  For a
    well-formed rule it is the matching add operation: it runs that one
    command and returns its result, an error exactly when the command
    fails. *)
Theorem addTc_spec {FV : FloatVerb} (w : World) (c : tcClient)
        (parentArg handleArg : string) (tc : Tc.t) (h : list Event) :
  (malformedTc tc <-> exists e, addTc w c parentArg handleArg tc h = (inl e, h))
  /\ (forall netem,
         Tc.Type_ tc = Tc_NETEM -> Tc.Netem tc = Some netem ->
         addTc w c parentArg handleArg tc = addNetem w c parentArg handleArg netem)
  /\ (forall tbf,
         Tc.Type_ tc = Tc_BANDWIDTH -> Tc.Tbf tc = Some tbf ->
         addTc w c parentArg handleArg tc = addTbf w c parentArg handleArg tbf)
  /\ (~ malformedTc tc ->
      exists cmd,
        opCmd (nsPath c) (OpAddTc parentArg handleArg tc) = Some cmd
        /\ snd (addTc w c parentArg handleArg tc h) = h ++ [EvExec cmd]
        /\ fst (addTc w c parentArg handleArg tc h)
           = match CombinedOutput w h cmd with
             | (output, Some err) => inl (encodeOutputToError w output err)
             | (_, None) => inr tt
             end).
Proof.
  assert (Hmal : malformedTc tc <-> tcPayload tc = None).
  { unfold malformedTc, tcPayload.
    destruct (Tc.Type_ tc); [destruct (Tc.Tbf tc)|destruct (Tc.Netem tc)|].
    - split; [intros [[_ []]|[[_ [=]]|[[=] _]]]|intros [=]]. reflexivity.
    - split; [reflexivity|]. intros _. right. left. now split.
    - split; [intros [[[] _]|[[[=] _]|[_ [=]]]]|intros [=]]. reflexivity.
    - split; [reflexivity|]. intros _. right. right. now split.
    - split; [reflexivity|]. intros _. left. split; discriminate. }
  split; [|split; [|split]].
  - rewrite Hmal.
    destruct (runOp_cases w c (OpAddTc parentArg handleArg tc) h)
      as [[Hnone He]|(cmd & Hcmd & He)]; simpl in He.
    + split; [intros _; exact He|intros _].
      unfold opCmd in Hnone. destruct (tcPayload tc) as [[? ?]|]; [discriminate|].
      reflexivity.
    + split.
      * intros Hp. unfold opCmd in Hcmd. now rewrite Hp in Hcmd.
      * intros [e He']. rewrite He in He'. injection He' as _ Hh.
        exfalso. apply (f_equal length) in Hh. rewrite length_app in Hh.
        simpl in Hh. lia.
  - intros netem Hty Hn. unfold addTc. now rewrite Hty, Hn.
  - intros tbf Hty Ht. unfold addTc. now rewrite Hty, Ht.
  - intros Hwf. rewrite Hmal in Hwf.
    destruct (runOp_cases w c (OpAddTc parentArg handleArg tc) h)
      as [[Hnone _]|(cmd & Hcmd & He)].
    + exfalso. apply Hwf. unfold opCmd in Hnone.
      destruct (tcPayload tc) as [[? ?]|]; [discriminate|reflexivity].
    + exists cmd. simpl in He. rewrite He. split; [assumption|]. split; reflexivity.
Qed.

Lemma addTc_spec_witness :
  ~ malformedTc (Demo.netemTc (Demo.delay 50000) "")
  /\ exists cmd,
      snd (addTc Demo.calm (buildTcClient "ns") "root" "handle 1:"
                 (Demo.netemTc (Demo.delay 50000) "") [])
      = [EvExec cmd].
Proof.
  assert (Hwf : ~ malformedTc (Demo.netemTc (Demo.delay 50000) "")).
  { intros [[Hn _]|[[[=] _]|[_ [=]]]]. now apply Hn. }
  split; [exact Hwf|].
  destruct (addTc_spec Demo.calm (buildTcClient "ns") "root" "handle 1:"
              (Demo.netemTc (Demo.delay 50000) "") []) as (_ & _ & _ & H).
  destruct (H Hwf) as (cmd & _ & Htr & _). exists cmd. exact Htr.
Defined.

(** C2.  [flush] succeeds when the command succeeds and when its output
    holds [RTNETLINK answers: No such file or directory]; every other
    failure is returned, among them the one whose output holds the other
    known message, [Cannot delete qdisc with handle of zero.], which the
    constant [ruleNotExist] names but [flush] does not look for. *)
Theorem flush_ignores_ruleNotExist :
  let c := buildTcClient "/proc/42/ns/net" in
  let zero := "Error: Cannot delete qdisc with handle of zero." in
  let missing := "RTNETLINK answers: No such file or directory" in
  (forall (FV : FloatVerb) (w : World) c h,
      fst (flush w c h) = inr tt
      <-> (snd (CombinedOutput w h (flushCmd (nsPath c))) = None
           \/ GoStrings.Contains (fst (CombinedOutput w h (flushCmd (nsPath c))))
                                 RULE_NOT_EXIST = true))
  /\ GoStrings.Contains zero ruleNotExist = true
  /\ GoStrings.Contains missing ruleNotExistLowerVersion = true
  /\ flush (Demo.failing 0 missing) c [] = (inr tt, [EvExec (flushCmd (nsPath c))])
  /\ flush (Demo.failing 0 zero) c []
     = (inl (External "exit status 2"), [EvExec (flushCmd (nsPath c))]).
Proof.
  intros c zero missing. split; [|repeat split].
  intros FV w c' h. rewrite flush_eq. unfold flushResult. simpl fst.
  destruct (CombinedOutput w h (flushCmd (nsPath c'))) as [output [err|]]; simpl.
  - destruct (GoStrings.Contains output RULE_NOT_EXIST).
    + split; auto.
    + split; [discriminate|intros [[=]|[=]]].
  - split; auto.
Qed.

(** ** The partition loses nothing *)

Section PartitionMore.
Context {FV : FloatVerb}.

Lemma concat_snd_Permutation (l1 l2 : list (string * list Tc.t)) :
  Permutation l1 l2 ->
  Permutation (concat (List.map snd l1)) (concat (List.map snd l2)).
Proof.
  induction 1 as [|x l l' _ IH|x y l|l l' l'' _ IH1 _ IH2]; simpl.
  - constructor.
  - now apply Permutation_app_head.
  - rewrite !app_assoc. apply Permutation_app_tail, Permutation_app_comm.
  - now transitivity (concat (List.map snd l')).
Qed.

(** Appending a rule to its group adds this one rule to the rules of all
    groups. *)
Lemma groupRules_insert (m : gmap string (list Tc.t)) k tc :
  Permutation
    (concat (List.map snd (map_to_list (<[k := default [] (m !! k) ++ [tc]]> m))))
    (concat (List.map snd (map_to_list m)) ++ [tc]).
Proof.
  destruct (m !! k) as [l|] eqn:Hk; simpl.
  - rewrite <- (insert_delete_eq m).
    etransitivity.
    { apply concat_snd_Permutation, map_to_list_insert, lookup_delete_eq. }
    etransitivity.
    2:{ apply Permutation_app_tail, concat_snd_Permutation,
          (map_to_list_delete m k l Hk). }
    simpl. rewrite <- !app_assoc. apply Permutation_app_head, Permutation_app_comm.
  - etransitivity.
    { apply concat_snd_Permutation, map_to_list_insert, Hk. }
    simpl. apply (Permutation_cons_append _ tc).
Qed.

Lemma fold_splitStep_lossless tcs : forall globalTc (filterTc : gmap string (list Tc.t)),
  let acc := fold_left splitStep tcs (globalTc, filterTc) in
  Permutation (fst acc ++ concat (List.map snd (map_to_list (snd acc))))
              (globalTc ++ concat (List.map snd (map_to_list filterTc)) ++ tcs).
Proof.
  induction tcs as [|tc rest IH]; intros g m; cbv zeta.
  - simpl. now rewrite app_nil_r.
  - cbn [fold_left]. unfold splitStep at 2 4.
    destruct (String.eqb (Tc.Ipset tc) "").
    + rewrite (IH (g ++ [tc]) m). rewrite <- !app_assoc.
      apply Permutation_app_head. simpl.
      rewrite (Permutation_app_comm (concat _) (tc :: rest)). simpl.
      apply perm_skip, Permutation_app_comm.
    + rewrite (IH g _). apply Permutation_app_head.
      rewrite groupRules_insert. now rewrite <- app_assoc.
Qed.

Lemma splitTcs_Permutation tcs :
  Permutation
    (fst (splitTcs tcs) ++ concat (List.map snd (map_to_list (snd (splitTcs tcs)))))
    tcs.
Proof.
  unfold splitTcs. rewrite (fold_splitStep_lossless tcs [] ∅).
  now rewrite map_to_list_empty.
Qed.

End PartitionMore.

(** X1. The loop that fills [globalTc] and [filterTc] loses no rule and
    makes none twice: the unfiltered rules together with the rules of all
    groups are the rules of the request, each as often as it was given. *)
Theorem splitTcs_lossless {FV : FloatVerb} (tcs : list Tc.t) :
  Permutation
    (fst (splitTcs tcs) ++ concat (List.map snd (map_to_list (snd (splitTcs tcs)))))
    tcs
  /\ (length (fst (splitTcs tcs))
      + length (concat (List.map snd (map_to_list (snd (splitTcs tcs)))))
      = length tcs)%nat.
Proof.
  pose proof (splitTcs_Permutation tcs) as H.
  split; [exact H|]. rewrite <- (Permutation_length H). now rewrite length_app.
Qed.

(** X2. The unfiltered rules are the rules with an empty [Ipset], in the
    order of the request.  The map has a group exactly for the non-empty
    names that some rule carries, never for the empty name and never an
    empty group, and a group holds the rules of its name in the order of
    the request. *)
Theorem splitTcs_groups {FV : FloatVerb} (tcs : list Tc.t) :
  fst (splitTcs tcs) = List.filter (fun tc => String.eqb (Tc.Ipset tc) "") tcs
  /\ snd (splitTcs tcs) !! "" = None
  /\ (forall k group,
         snd (splitTcs tcs) !! k = Some group
         <-> k <> "" /\ group <> []
             /\ group = List.filter (fun tc => String.eqb (Tc.Ipset tc) k) tcs)
  /\ (forall tc,
         In tc tcs -> Tc.Ipset tc <> "" ->
         exists group, snd (splitTcs tcs) !! Tc.Ipset tc = Some group /\ In tc group).
Proof.
  split; [apply splitTcs_fst|]. split; [now rewrite splitTcs_lookup|]. split.
  - intros k group. rewrite splitTcs_lookup. fold (rulesOf k tcs).
    destruct (String.eqb_spec k "") as [->|Hk].
    + split; [discriminate|intros [[] _]]. reflexivity.
    + destruct (rulesOf k tcs) as [|tc l].
      * split; [discriminate|]. intros (_ & Hne & ->). contradiction.
      * split; [intros [= <-]; repeat split; [assumption|discriminate]|].
        now intros (_ & _ & ->).
  - intros tc Hin Hk. rewrite splitTcs_lookup.
    destruct (String.eqb_spec (Tc.Ipset tc) "") as [E|_]; [contradiction|].
    assert (Hf : In tc (rulesOf (Tc.Ipset tc) tcs)).
    { apply filter_In. split; [assumption|apply String.eqb_refl]. }
    destruct (rulesOf (Tc.Ipset tc) tcs) as [|x l]; [destruct Hf|].
    eexists. split; [reflexivity|exact Hf].
Qed.

(** ** Handles and parents along the plan *)

Section PlanShape.
Context {FV : FloatVerb} (w : World).

Lemma rulesBefore_cons ipset tcs (rest : list (string * list Tc.t)) j :
  rulesBefore ((ipset, tcs) :: rest) (S j) = (length tcs + rulesBefore rest j)%nat.
Proof. unfold rulesBefore. simpl. now rewrite length_app. Qed.

(** Every operation of the filtered part belongs to a rule of a group. *)
Lemma filterOps_decompose parent groups : forall index currentHandler m op,
  filterOps parent index currentHandler groups !! m = Some op ->
  exists (j i : nat) ipset group tc,
    groups !! j = Some (ipset, group) /\ group !! i = Some tc
    /\ m = (rulesBefore groups j + i)%nat.
Proof.
  induction groups as [|[ipset tcs] rest IH]; intros index cur m op Hm; [discriminate|].
  simpl in Hm. destruct (decide (m < length tcs)%nat) as [Hlt|Hge].
  - destruct (lookup_lt_is_Some_2 tcs m Hlt) as [tc Htc].
    exists 0%nat, m, ipset, tcs, tc. repeat split; assumption.
  - rewrite lookup_app_r in Hm by (rewrite groupOps_length; lia).
    rewrite groupOps_length in Hm.
    destruct (IH _ _ _ _ Hm) as (j & i & ipset' & group & tc & Hj & Hi & E).
    exists (S j), i, ipset', group, tc. split; [exact Hj|]. split; [exact Hi|].
    rewrite rulesBefore_cons. lia.
Qed.

(** The command at place [n] of the plan creates the handle [n+1:].  Its
    parent is [root] for the first command, the handle [n:] of the
    command before it, or a class of the multiplexer, which the command
    at place [g] has created with the handle [g+1:]. *)
Lemma planOf_command_shape tcs ns (n : nat) op cmd :
  planOf w tcs !! n = Some op ->
  opCmd ns op = Some cmd ->
  let g := length (globalRules tcs) in
  exists parentToks rest,
    cmd_args cmd
    = ["qdisc"; "add"; "dev"; "eth0"] ++ parentToks
      ++ ["handle"; GoFmt.d (Z.of_nat n + 1) +:+ ":"] ++ rest
    /\ ((n = 0%nat /\ parentToks = ["root"])
        \/ ((0 < n)%nat /\ parentToks = ["parent"; GoFmt.d (Z.of_nat n) +:+ ":"])
        \/ (exists b : Z,
               (g < n)%nat /\ 1 <= b <= 3 + Z.of_nat (length (groupsOf w tcs))
               /\ parentToks
                  = ["parent"; GoFmt.d (Z.of_nat g + 1) +:+ ":" +:+ GoFmt.d b])).
Proof.
  intros Hop Hcmd. cbv zeta.
  pose proof (fun j => planOf_prio w tcs j) as Hprio_at.
  pose proof (planOf_filter w tcs) as Hfilter_at.
  cbv zeta in Hprio_at, Hfilter_at.
  remember (length (globalRules tcs)) as g eqn:Eg.
  destruct (decide (n < g)%nat) as [Hglobal|Hge].
  { rewrite Eg in Hglobal.
    destruct (lookup_lt_is_Some_2 (globalRules tcs) n Hglobal) as [tc Htc].
    rewrite (planOf_global w tcs n tc Htc) in Hop. injection Hop as <-.
    apply opCmd_addTc in Hcmd as (kind & args & _ & _ & ->).
    rewrite Split_globalParentArg, Split_handleArgOf.
    eexists _, _. split; [reflexivity|].
    destruct n as [|n]; [left; now split|right; left].
    replace (0 <? Z.of_nat (S n)) with true by (symmetry; apply Z.ltb_lt; lia).
    split; [lia|reflexivity]. }
  destruct (decide (n < g + 4)%nat) as [Hprio|Hfilter].
  { replace n with (g + (n - g))%nat in Hop by lia.
    rewrite (Hprio_at (n - g)%nat) in Hop by lia.
    destruct (n - g)%nat as [|[|[|[|j]]]] eqn:Ej; try lia; simpl in Hop;
      injection Hop as <-; unfold opCmd in Hcmd; apply (inj Some) in Hcmd;
      subst cmd; unfold tcCmd; cbn [cmd_args].
    - rewrite Split_prioArgs. assert (n = g) as -> by lia.
      eexists _, _. split; [reflexivity|].
      destruct g as [|g']; [left; now split|right; left].
      replace (0 <? Z.of_nat (S g')) with true by (symmetry; apply Z.ltb_lt; lia).
      split; [lia|reflexivity].
    - rewrite Split_sfqArgs. exists ["parent"; GoFmt.d (Z.of_nat g + 1) +:+ ":" +:+ GoFmt.d 1], ["sfq"].
      split; [replace (Z.of_nat n + 1) with (Z.of_nat g + 1 + 1) by lia; reflexivity|].
      right; right. exists 1. split; [lia|]. split; [lia|reflexivity].
    - rewrite Split_sfqArgs. exists ["parent"; GoFmt.d (Z.of_nat g + 1) +:+ ":" +:+ GoFmt.d 2], ["sfq"].
      split; [replace (Z.of_nat n + 1) with (Z.of_nat g + 1 + 2) by lia; reflexivity|].
      right; right. exists 2. split; [lia|]. split; [lia|reflexivity].
    - rewrite Split_sfqArgs. exists ["parent"; GoFmt.d (Z.of_nat g + 1) +:+ ":" +:+ GoFmt.d 3], ["sfq"].
      split; [replace (Z.of_nat n + 1) with (Z.of_nat g + 1 + 3) by lia; reflexivity|].
      right; right. exists 3. split; [lia|]. split; [lia|reflexivity]. }
  replace n with (g + 4 + (n - g - 4))%nat in Hop by lia.
  rewrite (Hfilter_at (n - g - 4)%nat) in Hop.
  destruct (filterOps_decompose _ _ _ _ _ _ Hop)
    as (j & i & ipset & group & tc & Hj & Hi & Em).
  rewrite Em in Hop.
  rewrite (filterOps_lookup _ _ 0 _ j i ipset group tc Hj Hi) in Hop.
  injection Hop as <-.
  apply opCmd_addTc in Hcmd as (kind & args & _ & _ & ->).
  rewrite Split_handleArgOf.
  replace (Z.of_nat g + 4 + Z.of_nat (rulesBefore (groupsOf w tcs) j + i) + 1)
    with (Z.of_nat n + 1) by lia.
  destruct i as [|i].
  - change (0 <? Z.of_nat 0) with false. cbv iota.
    rewrite Split_parent by apply no_space_bandOf.
    eexists _, _. split; [reflexivity|]. right; right.
    exists (Z.of_nat j + 4). apply lookup_lt_Some in Hj.
    split; [lia|]. split; [lia|]. unfold bandOf. now rewrite Z.add_0_l.
  - replace (0 <? Z.of_nat (S i)) with true by (symmetry; apply Z.ltb_lt; lia).
    rewrite Split_parent by apply no_space_colon.
    replace (Z.of_nat g + 4 + Z.of_nat (rulesBefore (groupsOf w tcs) j + S i))
      with (Z.of_nat n) by lia.
    eexists _, _. split; [reflexivity|]. right; left. split; [lia|reflexivity].
Qed.

End PlanShape.

(** X3. In the trace of a call, the qdisc-add command at place [p] (the
    flush is at place 0) creates the handle [p:], whatever the rules are
    and wherever the call stops: handles are given out in the order of
    the commands, so no two commands of a call create the same handle. *)
Theorem handles_follow_positions {FV : FloatVerb} (w : World) (in_ : TcsRequest)
        (pid : Z) (r : error + unit) (tr : list Event) :
  GetPidFromContainerID w (ContainerId in_) = inr pid ->
  SetContainerTcRules w in_ [] = (r, tr) ->
  (forall (p : nat) cmd,
      (1 <= p)%nat -> tr !! p = Some (EvExec cmd) ->
      exists parentToks rest,
        cmd_args cmd
        = ["qdisc"; "add"; "dev"; "eth0"] ++ parentToks
          ++ ["handle"; GoFmt.d (Z.of_nat p) +:+ ":"] ++ rest
        /\ (parentToks = ["root"] \/ exists class, parentToks = ["parent"; class]))
  /\ (forall p p' : nat,
         p <> p' -> GoFmt.d (Z.of_nat p) +:+ ":" <> GoFmt.d (Z.of_nat p') +:+ ":").
Proof.
  intros Hpid Hrun.
  destruct (SetContainerTcRules_trace w in_ pid r tr Hpid Hrun)
    as (_ & Hlen & _ & Hev & Hlast & _).
  split.
  - intros [|n] cmd Hp Hlook; [lia|].
    destruct (decide (n < length (planOf w (Tcs in_)))%nat) as [Hlt|Hge].
    + destruct (Hev n _ Hlook Hlt) as (op & cmd' & Hop & Hcmd & [= <-]).
      destruct (planOf_command_shape w _ _ n op cmd Hop Hcmd)
        as (parentToks & rest & Hargs & Hparent).
      exists parentToks, rest. split.
      * replace (Z.of_nat (S n)) with (Z.of_nat n + 1) by lia. exact Hargs.
      * destruct Hparent as [[_ ->]|[[_ ->]|(b & _ & _ & ->)]]; eauto.
    + apply lookup_lt_Some in Hlook as Hn.
      assert (n = length (planOf w (Tcs in_))) as -> by lia.
      apply Hlast in Hlook. discriminate Hlook.
  - intros p p' Hne E. apply handle_token_inj in E. lia.
Qed.

Lemma handles_follow_positions_witness :
  Demo.calm.(GetPidFromContainerID) "c1" = inr 42
  /\ exists cmd parentToks rest,
      snd (SetContainerTcRules Demo.calm Demo.four []) !! 7%nat = Some (EvExec cmd)
      /\ cmd_args cmd
         = ["qdisc"; "add"; "dev"; "eth0"] ++ parentToks ++ ["handle"; "7:"] ++ rest.
Proof.
  split; [reflexivity|].
  destruct (SetContainerTcRules Demo.calm Demo.four []) as [r tr] eqn:Hrun.
  pose proof (handles_follow_positions Demo.calm Demo.four 42 r tr eq_refl Hrun)
    as [H _].
  assert (Hev : exists cmd, tr !! 7%nat = Some (EvExec cmd)).
  { apply (f_equal snd) in Hrun. simpl in Hrun. rewrite <- Hrun.
    vm_compute. eauto. }
  destruct Hev as [cmd Hev].
  destruct (H 7%nat cmd ltac:(lia) Hev) as (parentToks & rest & Hargs & _).
  exists cmd, parentToks, rest. split; [exact Hev|exact Hargs].
Defined.

(** X4. A command never names a parent that is not there yet.  The first
    qdisc-add command of a call hangs on [root] and no other does; any
    other command at place [p] hangs on the handle [p-1:] made by the
    command before it, or on a class [(g+1):b] of the multiplexer, which
    the earlier command at place [g+1] has made, with [b] among the
    [3 + k] bands it was given. *)
Theorem parents_precede_children {FV : FloatVerb} (w : World) {WL : WorldLaws w}
        (in_ : TcsRequest) (pid : Z) (r : error + unit) (tr : list Event) :
  GetPidFromContainerID w (ContainerId in_) = inr pid ->
  SetContainerTcRules w in_ [] = (r, tr) ->
  let g := length (globalRules (Tcs in_)) in
  let k := length (destinationSets (Tcs in_)) in
  forall (p : nat) cmd,
    (1 <= p)%nat -> tr !! p = Some (EvExec cmd) ->
    exists parentToks rest,
      cmd_args cmd = ["qdisc"; "add"; "dev"; "eth0"] ++ parentToks ++ "handle" :: rest
      /\ ((p = 1%nat /\ parentToks = ["root"])
          \/ ((1 < p)%nat
              /\ parentToks = ["parent"; GoFmt.d (Z.of_nat p - 1) +:+ ":"])
          \/ (exists b : Z,
                 (g + 1 < p)%nat /\ 1 <= b <= 3 + Z.of_nat k
                 /\ parentToks
                    = ["parent"; GoFmt.d (Z.of_nat g + 1) +:+ ":" +:+ GoFmt.d b])).
Proof.
  intros Hpid Hrun g k [|n] cmd Hp Hlook; [lia|].
  destruct (SetContainerTcRules_trace w in_ pid r tr Hpid Hrun)
    as (_ & Hlen & _ & Hev & Hlast & _).
  destruct (decide (n < length (planOf w (Tcs in_)))%nat) as [Hlt|Hge].
  - destruct (Hev n _ Hlook Hlt) as (op & cmd' & Hop & Hcmd & [= <-]).
    destruct (planOf_command_shape w _ _ n op cmd Hop Hcmd)
      as (parentToks & rest & Hargs & Hparent).
    cbv zeta in Hparent. fold g in Hparent.
    rewrite (groupsOf_length w (Tcs in_)) in Hparent. fold k in Hparent.
    exists parentToks, ((GoFmt.d (Z.of_nat n + 1) +:+ ":") :: rest).
    split; [exact Hargs|].
    destruct Hparent as [[-> ->]|[[Hn ->]|(b & Hn & Hb & ->)]].
    + left. now split.
    + right; left. split; [lia|].
      replace (Z.of_nat (S n) - 1) with (Z.of_nat n) by lia. reflexivity.
    + right; right. exists b. split; [lia|]. split; [assumption|reflexivity].
  - apply lookup_lt_Some in Hlook as Hn.
    assert (n = length (planOf w (Tcs in_))) as -> by lia.
    apply Hlast in Hlook. discriminate Hlook.
Qed.

Lemma parents_precede_children_witness :
  exists cmd parentToks rest,
    snd (SetContainerTcRules Demo.calm Demo.four []) !! 8%nat = Some (EvExec cmd)
    /\ cmd_args cmd
       = ["qdisc"; "add"; "dev"; "eth0"] ++ parentToks ++ "handle" :: rest
    /\ ((8 = 1)%nat /\ parentToks = ["root"]
        \/ (1 < 8)%nat /\ parentToks = ["parent"; "7:"]
        \/ exists b : Z, (2 + 1 < 8)%nat /\ 1 <= b <= 3 + 2
                         /\ parentToks = ["parent"; "3:" +:+ GoFmt.d b]).
Proof.
  destruct (SetContainerTcRules Demo.calm Demo.four []) as [r tr] eqn:Hrun.
  pose proof (parents_precede_children Demo.calm Demo.four 42 r tr eq_refl Hrun) as H.
  cbv zeta in H.
  assert (Hev : exists cmd, tr !! 8%nat = Some (EvExec cmd)).
  { apply (f_equal snd) in Hrun. simpl in Hrun. rewrite <- Hrun.
    vm_compute. eauto. }
  destruct Hev as [cmd Hev].
  destruct (H 8%nat cmd ltac:(lia) Hev) as (parentToks & rest & Hargs & Hparent).
  exists cmd, parentToks, rest. split; [exact Hev|]. split; [exact Hargs|exact Hparent].
Defined.

(** ** The call as a whole: success, early failures, the packet filter *)

Section CallFacts.
Context {FV : FloatVerb} (w : World).

Lemma malformedTc_payload (tc : Tc.t) : malformedTc tc <-> tcPayload tc = None.
Proof.
  unfold malformedTc, tcPayload.
  destruct (Tc.Type_ tc); [destruct (Tc.Tbf tc)|destruct (Tc.Netem tc)|].
  - split; [intros [[_ []]|[[_ [=]]|[[=] _]]]|intros [=]]. reflexivity.
  - split; [reflexivity|]. intros _. right. left. now split.
  - split; [intros [[[] _]|[[[=] _]|[_ [=]]]]|intros [=]]. reflexivity.
  - split; [reflexivity|]. intros _. right. right. now split.
  - split; [reflexivity|]. intros _. left. split; discriminate.
Qed.

(** Every rule of the request has its operation in the plan. *)
Lemma planOf_has_rule {WL : WorldLaws w} tcs tc :
  In tc tcs ->
  exists (n : nat) parentArg handleArg,
    planOf w tcs !! n = Some (OpAddTc parentArg handleArg tc).
Proof.
  intros Hin.
  destruct (String.eqb_spec (Tc.Ipset tc) "") as [E|E].
  - assert (Hg : In tc (globalRules tcs)).
    { apply filter_In. split; [assumption|]. now rewrite E. }
    apply list_elem_of_In, list_elem_of_lookup in Hg as [n Hn].
    exists n. rewrite (planOf_global w tcs n tc Hn). eauto.
  - assert (Hgroup : exists j group, groupsOf w tcs !! j = Some (Tc.Ipset tc, group)
                                      /\ In tc group).
    { assert (Hm : snd (splitTcs tcs) !! Tc.Ipset tc
                   = Some (rulesOf (Tc.Ipset tc) tcs)
                   /\ In tc (rulesOf (Tc.Ipset tc) tcs)).
      { assert (Hf : In tc (rulesOf (Tc.Ipset tc) tcs)).
        { apply filter_In. split; [assumption|apply String.eqb_refl]. }
        split; [|assumption]. rewrite splitTcs_lookup.
        destruct (String.eqb_spec (Tc.Ipset tc) ""); [contradiction|].
        destruct (rulesOf (Tc.Ipset tc) tcs); [destruct Hf|reflexivity]. }
      destruct Hm as [Hm Hf].
      apply elem_of_map_to_list in Hm.
      rewrite <- (mapRange_perm (snd (splitTcs tcs))) in Hm.
      apply list_elem_of_lookup in Hm as [j Hj]. eauto. }
    destruct Hgroup as (j & group & Hj & Hing).
    apply list_elem_of_In, list_elem_of_lookup in Hing as [i Hi].
    exists (length (globalRules tcs) + 4 + (rulesBefore (groupsOf w tcs) j + i))%nat.
    rewrite (planOf_filter w tcs).
    rewrite (filterOps_lookup _ _ 0 _ j i _ group tc Hj Hi). eauto.
Qed.

Lemma planOf_length_rules {WL : WorldLaws w} tcs :
  length (planOf w tcs) = (length tcs + 4)%nat.
Proof.
  rewrite planOf_length.
  pose proof (Permutation_length (splitTcs_Permutation tcs)) as Hlen.
  rewrite length_app, splitTcs_fst in Hlen. rewrite <- Hlen.
  assert (E : length (concat (List.map snd (groupsOf w tcs)))
              = length (concat (List.map snd (map_to_list (snd (splitTcs tcs)))))).
  { apply Permutation_length, concat_snd_Permutation, mapRange_perm. }
  lia.
Qed.

End CallFacts.

(** X5. A call that succeeds has run one qdisc-add command for every rule
    of the request, besides the flush, the multiplexer, its three leaves
    and the hand-over to the packet filter: the trace holds
    [len(in.Tcs) + 6] requests.  So a request with a rule that [addTc]
    rejects (unknown type or missing payload) never succeeds. *)
Theorem success_runs_every_rule {FV : FloatVerb} (w : World) {WL : WorldLaws w}
        (in_ : TcsRequest) (pid : Z) (tr : list Event) :
  GetPidFromContainerID w (ContainerId in_) = inr pid ->
  SetContainerTcRules w in_ [] = (inr tt, tr) ->
  length tr = (length (Tcs in_) + 6)%nat
  /\ (forall tc, In tc (Tcs in_) -> ~ malformedTc tc)
  /\ (forall tc,
         In tc (Tcs in_) ->
         exists (p : nat) cmd kind args rest,
           tr !! p = Some (EvExec cmd)
           /\ tcPayload tc = Some (kind, args)
           /\ cmd_args cmd = rest ++ [kind] ++ GoStrings.Split args space).
Proof.
  intros Hpid Hrun.
  destruct (SetContainerTcRules_trace w in_ pid (inr tt) tr Hpid Hrun)
    as (_ & _ & Hok & Hev & _).
  destruct (Hok eq_refl) as [Hlen _].
  rewrite (planOf_length_rules w) in Hlen.
  assert (Hrule : forall tc,
             In tc (Tcs in_) ->
             exists (p : nat) cmd kind args rest,
               tr !! p = Some (EvExec cmd)
               /\ tcPayload tc = Some (kind, args)
               /\ cmd_args cmd = rest ++ [kind] ++ GoStrings.Split args space).
  { intros tc Hin.
    destruct (planOf_has_rule w (Tcs in_) tc Hin) as (n & parentArg & handleArg & Hn).
    apply lookup_lt_Some in Hn as Hlt.
    destruct (lookup_lt_is_Some_2 tr (S n)) as [ev Hlook];
      [rewrite (planOf_length_rules w) in Hlt; lia|].
    destruct (Hev n ev Hlook Hlt) as (op & cmd & Hop & Hcmd & ->).
    rewrite Hn in Hop. injection Hop as <-.
    apply opCmd_addTc in Hcmd as (kind & args & Hp & _ & ->).
    eexists (S n), _, kind, args,
      (["qdisc"; "add"; "dev"; "eth0"] ++ GoStrings.Split parentArg space
       ++ GoStrings.Split handleArg space).
    split; [exact Hlook|]. split; [exact Hp|].
    unfold tcCmd. cbn [cmd_args]. now rewrite <- !app_assoc. }
  split; [lia|]. split; [|exact Hrule].
  intros tc Hin Hmal. apply malformedTc_payload in Hmal.
  destruct (Hrule tc Hin) as (_ & _ & kind & args & _ & _ & Hp & _). congruence.
Qed.

Lemma success_runs_every_rule_witness :
  length (snd (SetContainerTcRules Demo.calm Demo.four [])) = 10%nat.
Proof.
  refine (proj1 (success_runs_every_rule Demo.calm Demo.four 42 _ eq_refl _)).
  vm_compute. reflexivity.
Defined.

(** X6. When the container cannot be resolved, nothing is run at all; and
    when the flush fails with an output that does not hold the tolerated
    message, the flush is the only command run.  Either error comes back
    annotated by [errors.WithStack]. *)
Theorem early_failures_run_nothing {FV : FloatVerb} (w : World) (in_ : TcsRequest)
        (h : list Event) :
  (forall e,
      GetPidFromContainerID w (ContainerId in_) = inl e ->
      SetContainerTcRules w in_ h = (inl (WithStack e), h))
  /\ (forall pid output err,
         GetPidFromContainerID w (ContainerId in_) = inr pid ->
         CombinedOutput w h (flushCmd (GetNsPath w pid)) = (output, Some err) ->
         GoStrings.Contains output RULE_NOT_EXIST = false ->
         SetContainerTcRules w in_ h
         = (inl (WithStack err), h ++ [EvExec (flushCmd (GetNsPath w pid))])).
Proof.
  split.
  - intros e Hpid. now rewrite SetContainerTcRules_eq, Hpid.
  - intros pid output err Hpid Hout Hno.
    rewrite SetContainerTcRules_eq, Hpid. cbv zeta.
    unfold flushResult. now rewrite Hout, Hno.
Qed.

Lemma early_failures_run_nothing_witness :
  SetContainerTcRules (Demo.failing 0 "Error: Cannot find device eth0") Demo.four []
  = (inl (WithStack (External "exit status 2")),
     [EvExec (flushCmd "/proc/42/ns/net")]).
Proof.
  refine (proj2 (early_failures_run_nothing
                   (Demo.failing 0 "Error: Cannot find device eth0") Demo.four [])
                42 "Error: Cannot find device eth0" (External "exit status 2")
                eq_refl eq_refl _).
  vm_compute. reflexivity.
Defined.

(** X7. The packet filter is asked at most once in a call, as the very
    last request, with the namespace of the container, and only after
    the flush and every qdisc-add command of the plan have succeeded:
    the flush is the first request and [flush] has returned [nil] for
    it, because the command gave no error or because its output holds
    the tolerated message.  What the packet filter answers decides the
    result of the call. *)
Theorem packet_filter_called_last {FV : FloatVerb} (w : World) (in_ : TcsRequest)
        (pid : Z) (r : error + unit) (tr : list Event) :
  GetPidFromContainerID w (ContainerId in_) = inr pid ->
  SetContainerTcRules w in_ [] = (r, tr) ->
  forall (p : nat) ns chains,
    tr !! p = Some (EvSetIptablesChains ns chains) ->
    length tr = S p
    /\ p = S (length (planOf w (Tcs in_)))
    /\ ns = GetNsPath w pid
    /\ chains = chainsOf w (Tcs in_)
    /\ (forall (n : nat) cmd,
           (1 <= n)%nat -> tr !! n = Some (EvExec cmd) ->
           cmdResult w (take n tr) cmd = inr tt)
    /\ r = match setIptablesChains w (take p tr) ns chains with
           | Some err => inl (WithStack err)
           | None => inr tt
           end
    /\ tr !! 0%nat = Some (EvExec (flushCmd (GetNsPath w pid)))
    /\ flushResult w [] (GetNsPath w pid) = inr tt
    /\ fst (flush w (buildTcClient (GetNsPath w pid)) []) = inr tt
    /\ (snd (CombinedOutput w [] (flushCmd (GetNsPath w pid))) = None
        \/ GoStrings.Contains (fst (CombinedOutput w [] (flushCmd (GetNsPath w pid))))
                              RULE_NOT_EXIST = true)
    /\ (forall (q : nat) ns' chains',
           tr !! q = Some (EvSetIptablesChains ns' chains') -> q = p).
Proof.
  intros Hpid Hrun p ns chains Hp.
  assert (Hflush : flushResult w [] (GetNsPath w pid) = inr tt ->
                   fst (flush w (buildTcClient (GetNsPath w pid)) []) = inr tt
                   /\ (snd (CombinedOutput w [] (flushCmd (GetNsPath w pid))) = None
                       \/ GoStrings.Contains
                            (fst (CombinedOutput w [] (flushCmd (GetNsPath w pid))))
                            RULE_NOT_EXIST = true)).
  { intros Hf. split; [rewrite flush_eq; exact Hf|].
    unfold flushResult in Hf.
    destruct (CombinedOutput w [] (flushCmd (GetNsPath w pid))) as [output [err|]];
      simpl; [|now left].
    destruct (GoStrings.Contains output RULE_NOT_EXIST); [now right|discriminate]. }
  rewrite SetContainerTcRules_eq, Hpid in Hrun. cbv zeta in Hrun.
  simpl app in Hrun.
  destruct (flushResult w [] (GetNsPath w pid)) as [e|[]].
  { injection Hrun as <- <-. destruct p as [|p]; [discriminate|].
    simpl in Hp. now rewrite lookup_nil in Hp. }
  destruct (runOps w _ (planOf w (Tcs in_)) _) as [r2 h2] eqn:Hops.
  destruct (runOps_trace w _ _ _ _ _ Hops) as (evs & -> & Hlen & Hok & Hev & Hfail).
  assert (Hexec : forall n ev, evs !! n = Some ev -> exists cmd, ev = EvExec cmd).
  { intros n ev Hn. destruct (Hev n ev Hn) as (_ & cmd & _ & _ & ->). eauto. }
  destruct r2 as [e|[]].
  { injection Hrun as <- <-. destruct p as [|p]; [discriminate|].
    simpl in Hp. destruct (Hexec p _ Hp) as [cmd [=]]. }
  specialize (Hok eq_refl).
  unfold withStack, setChains in Hrun.
  set (h2 := [EvExec (flushCmd (GetNsPath w pid))] ++ evs) in *.
  assert (Htr : tr = h2 ++ [EvSetIptablesChains (GetNsPath w pid)
                               (chainsOf w (Tcs in_))]).
  { destruct (setIptablesChains w h2 _ _); now injection Hrun as _ <-. }
  assert (Hh2 : length h2 = S (length (planOf w (Tcs in_))))
    by (subst h2; simpl; lia).
  assert (Hpos : forall (q : nat) ns' chains',
             tr !! q = Some (EvSetIptablesChains ns' chains') -> q = length h2).
  { intros q ns' chains' Hq. rewrite Htr in Hq.
    destruct (decide (q < length h2)%nat) as [Hlt|Hge].
    - rewrite lookup_app_l in Hq by assumption. subst h2.
      destruct q as [|q]; [discriminate|]. simpl in Hq.
      destruct (Hexec q _ Hq) as [cmd [=]].
    - apply lookup_lt_Some in Hq as Hlt. rewrite length_app in Hlt. simpl in Hlt. lia. }
  pose proof (Hpos p _ _ Hp) as Hp'.
  subst p. rewrite Htr in Hp. rewrite lookup_app_r, Nat.sub_diag in Hp by lia.
  injection Hp as <- <-.
  assert (Htake : take (length h2) tr = h2) by (rewrite Htr; apply take_app_length).
  split; [rewrite Htr, length_app; simpl; lia|].
  split; [exact Hh2|]. split; [reflexivity|]. split; [reflexivity|]. split.
  - intros [|n] cmd Hn Hlook; [lia|]. rewrite Htr in Hlook.
    destruct (decide (S n < length h2)%nat) as [Hlt|Hge].
    + rewrite lookup_app_l in Hlook by assumption.
      assert (Htk : take (S n) tr = [EvExec (flushCmd (GetNsPath w pid))] ++ take n evs).
      { rewrite Htr, take_app_le by lia. reflexivity. }
      rewrite Htk. subst h2. simpl in Hlook.
      destruct (cmdResult w _ cmd) as [e|[]] eqn:Hres; [|reflexivity].
      destruct (Hfail n cmd e Hlook Hres) as [_ [=]].
    + rewrite lookup_app_r in Hlook by lia.
      destruct (S n - length h2)%nat; simpl in Hlook; [discriminate|].
      now rewrite lookup_nil in Hlook.
  - destruct (Hflush eq_refl) as [Hfl Hout].
    split; [rewrite Htake; destruct (setIptablesChains w h2 _ _);
            now injection Hrun as <- _|].
    split; [rewrite Htr; reflexivity|]. split; [reflexivity|].
    split; [exact Hfl|]. split; [exact Hout|exact Hpos].
Qed.

Lemma packet_filter_called_last_witness :
  length (snd (SetContainerTcRules Demo.calm Demo.four [])) = 10%nat.
Proof.
  destruct (SetContainerTcRules Demo.calm Demo.four []) as [r tr] eqn:Hrun.
  assert (Hev : exists ns chains, tr !! 9%nat = Some (EvSetIptablesChains ns chains)).
  { apply (f_equal snd) in Hrun. simpl in Hrun. rewrite <- Hrun.
    vm_compute. eauto. }
  destruct Hev as (ns & chains & Hev).
  exact (proj1 (packet_filter_called_last Demo.calm Demo.four 42 r tr eq_refl Hrun
                  9%nat ns chains Hev)).
Defined.

(** X8. A request without rules still builds the base tree: after the
    flush come the multiplexer on [root] with handle [1:] and three
    bands, its leaves [2:], [3:], [4:] on the classes [1:1], [1:2],
    [1:3], and the hand-over of an empty list of chains.  The trace of
    the call is a beginning of these six requests, and all six when the
    call succeeds. *)
Theorem empty_request_builds_base_tree {FV : FloatVerb} (w : World)
        {WL : WorldLaws w} (in_ : TcsRequest) (pid : Z)
        (r : error + unit) (tr : list Event) :
  Tcs in_ = [] ->
  GetPidFromContainerID w (ContainerId in_) = inr pid ->
  SetContainerTcRules w in_ [] = (r, tr) ->
  let ns := GetNsPath w pid in
  let full :=
    List.map (fun args => EvExec (tcCmd ns args))
      [["qdisc"; "del"; "dev"; "eth0"; "root"];
       ["qdisc"; "add"; "dev"; "eth0"; "root"; "handle"; "1:"; "prio"; "bands"; "3";
        "priomap"; "1"; "2"; "2"; "2"; "1"; "2"; "0"; "0";
        "1"; "1"; "1"; "1"; "1"; "1"; "1"; "1"];
       ["qdisc"; "add"; "dev"; "eth0"; "parent"; "1:1"; "handle"; "2:"; "sfq"];
       ["qdisc"; "add"; "dev"; "eth0"; "parent"; "1:2"; "handle"; "3:"; "sfq"];
       ["qdisc"; "add"; "dev"; "eth0"; "parent"; "1:3"; "handle"; "4:"; "sfq"]]
    ++ [EvSetIptablesChains ns []] in
  (exists rest, full = tr ++ rest)
  /\ (r = inr tt -> tr = full).
Proof.
  intros Hnil Hpid Hrun ns full.
  destruct (SetContainerTcRules_trace w in_ pid r tr Hpid Hrun)
    as (H0 & Hlen & Hok & Hev & Hlast & _).
  assert (Hgroups : mapRange w ∅ = []).
  { apply Permutation_nil. symmetry. rewrite (mapRange_perm ∅).
    now rewrite map_to_list_empty. }
  assert (Hplan : planOf w (Tcs in_) = prioOps 0 3).
  { rewrite Hnil. unfold planOf, splitTcs. simpl fold_left. cbv iota beta.
    rewrite Hgroups. reflexivity. }
  assert (Hchains : chainsOf w (Tcs in_) = []).
  { rewrite Hnil. unfold chainsOf, splitTcs. simpl fold_left. cbv iota beta.
    now rewrite Hgroups. }
  rewrite Hplan in *. rewrite Hchains in *. simpl length in *.
  assert (Hfull : forall i ev, tr !! i = Some ev -> full !! i = Some ev).
  { intros i ev Hi. apply lookup_lt_Some in Hi as Hlt.
    destruct i as [|n]; [rewrite H0 in Hi; now injection Hi as <-|].
    destruct (decide (n < 4)%nat) as [Hn|Hn].
    - destruct (Hev n ev Hi Hn) as (op & cmd & Hop & Hcmd & ->).
      destruct n as [|[|[|[|n]]]]; try lia; simpl in Hop; injection Hop as <-;
        unfold opCmd in Hcmd; apply (inj Some) in Hcmd; subst cmd;
        rewrite ?Split_prioArgs, ?Split_sfqArgs; reflexivity.
    - assert (n = 4)%nat as -> by lia. now rewrite (Hlast ev Hi). }
  assert (Htake : tr = take (length tr) full).
  { apply list_eq. intros i. destruct (decide (i < length tr)%nat) as [Hlt|Hge].
    - rewrite lookup_take_lt by assumption.
      destruct (lookup_lt_is_Some_2 tr i Hlt) as [ev Hi].
      now rewrite Hi, (Hfull i ev Hi).
    - rewrite lookup_take_ge by lia. apply lookup_ge_None. lia. }
  split.
  - exists (drop (length tr) full). rewrite Htake at 1. now rewrite take_drop.
  - intros Hr. destruct (Hok Hr) as [Hl _]. rewrite Htake, Hl. reflexivity.
Qed.

Lemma empty_request_builds_base_tree_witness :
  length (snd (SetContainerTcRules Demo.calm {| Tcs := []; ContainerId := "c1" |} []))
  = 6%nat.
Proof.
  destruct (SetContainerTcRules Demo.calm {| Tcs := []; ContainerId := "c1" |} [])
    as [r tr] eqn:Hrun.
  assert (Hr : r = inr tt).
  { apply (f_equal fst) in Hrun. simpl in Hrun. rewrite <- Hrun.
    vm_compute. reflexivity. }
  pose proof (empty_request_builds_base_tree Demo.calm
                {| Tcs := []; ContainerId := "c1" |} 42 r tr eq_refl eq_refl Hrun)
    as [_ H].
  simpl. rewrite (H Hr). reflexivity.
Defined.

(** ** The filter command, and what the encodings keep apart *)

Section MoreCodecFacts.
Import GoStrings.

Lemma Split_filter_add parent :
  Split ("filter add dev eth0 " +:+ parent +:+ " basic match") space
  = ["filter"; "add"; "dev"; "eth0"] ++ Split parent space ++ ["basic"; "match"].
Proof.
  change ("filter add dev eth0 " +:+ parent +:+ " basic match")
    with ("filter" +:+ String space
            ("add" +:+ String space
               ("dev" +:+ String space
                  ("eth0" +:+ String space
                     (parent +:+ String space ("basic" +:+ String space "match")))))).
  now rewrite !Split_app_sep.
Qed.

(** No digit and no sign is a colon. *)
Lemma uint_no_colon u a b : NilEmpty.string_of_uint u <> a +:+ String ":" b.
Proof.
  revert a. induction u as [|u IH|u IH|u IH|u IH|u IH|u IH|u IH|u IH|u IH|u IH];
    intros [|c a]; simpl; try discriminate;
    intros [= _ H]; exact (IH _ H).
Qed.

Lemma d_no_colon z a b : GoFmt.d z <> a +:+ String ":" b.
Proof.
  unfold GoFmt.d, NilZero.string_of_int, NilZero.string_of_uint.
  destruct (Z.to_int z) as [u|u].
  - destruct u; try apply uint_no_colon. destruct a as [|c [|c' a]]; discriminate.
  - destruct a as [|c a]; simpl; [discriminate|]. intros [= _ H]. revert H.
    destruct u; try apply uint_no_colon. destruct a as [|c' [|c'' a]]; discriminate.
Qed.

Lemma colon_split_inj (s1 : string) : forall s2 t1 t2,
  (forall a b, s1 <> a +:+ String ":" b) ->
  (forall a b, s2 <> a +:+ String ":" b) ->
  s1 +:+ String ":" t1 = s2 +:+ String ":" t2 -> s1 = s2 /\ t1 = t2.
Proof.
  induction s1 as [|c s1 IH]; intros [|c' s2] t1 t2 H1 H2; simpl.
  - now intros [= ->].
  - intros [= <- _]. now destruct (H2 "" s2).
  - intros [= -> _]. now destruct (H1 "" s1).
  - intros [= <- H]. destruct (IH s2 t1 t2) as [-> ->]; [| |exact H|now split].
    + intros a b ->. now apply (H1 (String c a) b).
    + intros a b ->. now apply (H2 (String c a) b).
Qed.

Lemma handle_pair_inj a b a' b' :
  GoFmt.handle_pair a b = GoFmt.handle_pair a' b' -> a = a' /\ b = b'.
Proof.
  unfold GoFmt.handle_pair. intros H.
  destruct (colon_split_inj (GoFmt.d a) (GoFmt.d a') (GoFmt.d b) (GoFmt.d b'))
    as [Ha Hb]; [apply d_no_colon|apply d_no_colon|exact H|].
  split; now apply d_inj.
Qed.

Lemma generateQdiscArgs_effective action q :
  Qdisc.Type_ q <> "" ->
  generateQdiscArgs action (Some q)
  = inr (["qdisc"; action; "dev"; "eth0"]
         ++ match effectiveParent q with
            | Some p => ["parent"; GoFmt.handle_pair (Major p) (Minor p)]
            | None => ["root"]
            end
         ++ ["handle"; GoFmt.handle_pair (Major (effectiveHandle q))
                                         (Minor (effectiveHandle q));
             Qdisc.Type_ q]
         ++ Qdisc.Args q).
Proof.
  intros Hty. unfold generateQdiscArgs, effectiveParent, effectiveHandle.
  destruct (String.eqb_spec (Qdisc.Type_ q) ""); [contradiction|].
  destruct (Qdisc.Parent q) as [p|], (Qdisc.Handle q) as [h|];
    try destruct ((Major p =? 1) && (Minor p =? 0)); reflexivity.
Qed.

End MoreCodecFacts.

(** X9. [addFilter] runs one command, [tc filter add dev eth0 <parent>
    basic match ipset(<set> dst) <classid>], where the parent and the
    class are cut at their blanks and the match expression stays one
    argument although it holds a blank; so this list of arguments is not
    the split of any string.  The call fails exactly when the command
    does, with the error made from its output. *)
Theorem addFilter_spec {FV : FloatVerb} (w : World) (c : tcClient)
        (parent classid ipset : string) (h : list Event) :
  let matchExpr := "ipset(" +:+ ipset +:+ " dst)" in
  let args := ["filter"; "add"; "dev"; "eth0"] ++ GoStrings.Split parent space
              ++ ["basic"; "match"; matchExpr] ++ GoStrings.Split classid space in
  let cmd := tcCmd (nsPath c) args in
  snd (addFilter w c parent classid ipset h) = h ++ [EvExec cmd]
  /\ fst (addFilter w c parent classid ipset h)
     = match CombinedOutput w h cmd with
       | (output, Some err) => inl (encodeOutputToError w output err)
       | (_, None) => inr tt
       end
  /\ no_space matchExpr = false
  /\ (forall s, GoStrings.Split s space <> args).
Proof.
  intros matchExpr args cmd.
  assert (Hargs : (GoStrings.Split ("filter add dev eth0 " +:+ parent +:+ " basic match") space
                   ++ [matchExpr]) ++ GoStrings.Split classid space = args).
  { rewrite Split_filter_add. subst args. now rewrite <- !app_assoc. }
  assert (Hm : no_space matchExpr = false).
  { subst matchExpr. change ("ipset(" +:+ ipset +:+ " dst)")
      with ("ipset(" +:+ (ipset +:+ " dst)")).
    rewrite !no_space_app. simpl. now rewrite andb_false_r. }
  unfold addFilter, bind, runTc. fold matchExpr. rewrite Hargs. fold (tcCmd (nsPath c) args).
  fold cmd. repeat split.
  - destruct (CombinedOutput w h cmd) as [output [err|]]; reflexivity.
  - destruct (CombinedOutput w h cmd) as [output [err|]]; reflexivity.
  - exact Hm.
  - intros s Hs. pose proof (Split_no_space s) as Hall. rewrite Hs in Hall.
    rewrite List.Forall_forall in Hall.
    assert (Hin : In matchExpr args).
    { subst args. apply in_or_app. right. apply in_or_app. right.
      apply in_or_app. left. simpl. auto. }
    specialize (Hall _ Hin). cbv beta in Hall. rewrite Hm in Hall. discriminate.
Qed.

(** X10. Two bandwidth payloads are rendered alike exactly when they
    agree on the rate and the buffer, on the limit and the peak rate as
    far as these are above zero, and, when a peak rate is set, on the
    minimum burst: nothing else of a payload reaches the command. *)
Theorem convertTbfToArgs_inj (t1 t2 : Tbf.t) :
  convertTbfToArgs t1 = convertTbfToArgs t2
  <-> (Tbf.Rate t1 = Tbf.Rate t2
       /\ Tbf.Buffer t1 = Tbf.Buffer t2
       /\ Z.max 0 (Tbf.Limit t1) = Z.max 0 (Tbf.Limit t2)
       /\ Z.max 0 (Tbf.PeakRate t1) = Z.max 0 (Tbf.PeakRate t2)
       /\ (0 < Tbf.PeakRate t1 -> Tbf.MinBurst t1 = Tbf.MinBurst t2)).
Proof.
  split.
  - intros H. apply (f_equal (fun s => GoStrings.Split s space)) in H.
    rewrite !Split_convertTbfToArgs in H. unfold tbfTokens, limitTokens in H.
    destruct (Z.ltb_spec 0 (Tbf.Limit t1)), (Z.ltb_spec 0 (Tbf.Limit t2)),
      (Z.ltb_spec 0 (Tbf.PeakRate t1)), (Z.ltb_spec 0 (Tbf.PeakRate t2));
      simpl in H;
      try (apply (f_equal (@length string)) in H; simpl in H; discriminate);
      try (injection H as H1 H2 H3; discriminate);
      injection H;
      repeat match goal with
             | |- GoFmt.d _ = GoFmt.d _ -> _ => intros ?%d_inj
             | |- _ = _ -> _ => intros _
             end;
      repeat split; try lia; try (intros; lia).
  - intros (Hr & Hb & Hl & Hp & Hm). unfold convertTbfToArgs.
    rewrite Hr, Hb.
    destruct (Z.ltb_spec 0 (Tbf.Limit t1)), (Z.ltb_spec 0 (Tbf.Limit t2)),
      (Z.ltb_spec 0 (Tbf.PeakRate t1)), (Z.ltb_spec 0 (Tbf.PeakRate t2));
      try lia;
      try (rewrite (Hm ltac:(assumption)));
      repeat match goal with
             | |- context [GoFmt.d (Tbf.Limit t1)] =>
                 replace (Tbf.Limit t1) with (Tbf.Limit t2) by lia
             | |- context [GoFmt.d (Tbf.PeakRate t1)] =>
                 replace (Tbf.PeakRate t1) with (Tbf.PeakRate t2) by lia
             end;
      reflexivity.
Qed.

(** X11. [addNetem] hands the tokens of the payload to [tc] after the
    parent, the handle and the word [netem].  A payload of which nothing
    is kept (no delay, no limit, no loss, duplication or corruption, so
    also one that sets only jitter, reorder or gap) is not refused: its
    command is run with one more argument, the empty string.  No other
    payload yields an empty argument. *)
Theorem addNetem_arguments {FV : FloatVerb} {FL : FloatVerbLaws} (w : World)
        (c : tcClient) (parent handle : string) (netem : Netem.t) (h : list Event) :
  let tokens := netemTokens netem in
  let args := ["qdisc"; "add"; "dev"; "eth0"] ++ GoStrings.Split parent space
              ++ GoStrings.Split handle space ++ ["netem"]
              ++ match tokens with [] => [""] | _ => tokens end in
  snd (addNetem w c parent handle netem h) = h ++ [EvExec (tcCmd (nsPath c) args)]
  /\ (tokens = []
      <-> Netem.Time netem <= 0 /\ Netem.Limit netem <= 0
          /\ float32_gt0 (Netem.Loss netem) = false
          /\ float32_gt0 (Netem.Duplicate netem) = false
          /\ float32_gt0 (Netem.Corrupt netem) = false)
  /\ ~ In "" tokens.
Proof.
  intros tokens args.
  assert (Htok : trimedArgs (netemRawArgs netem) = tokens)
    by apply trimedArgs_netemRawArgs.
  assert (Hnon : ~ In "" tokens).
  { rewrite <- Htok. unfold trimedArgs. intros [_ Hlen]%filter_In. discriminate Hlen. }
  repeat split.
  - unfold addNetem. rewrite runArgs_eq. cbv beta iota delta [snd].
    pose proof (Split_addTc parent handle "netem" (convertNetemToArgs netem) eq_refl)
      as Hsplit.
    change ("qdisc add dev eth0 " +:+ parent +:+ " " +:+ handle +:+ " " +:+ "netem"
            +:+ " " +:+ convertNetemToArgs netem)
      with ("qdisc add dev eth0 " +:+ parent +:+ " " +:+ handle +:+ " netem "
            +:+ convertNetemToArgs netem) in Hsplit.
    rewrite Hsplit. subst args. do 7 f_equal.
    unfold convertNetemToArgs. rewrite Htok.
    destruct tokens as [|t ts] eqn:E; [reflexivity|]. f_equal.
    apply Split_Join; [discriminate|]. rewrite <- Htok. apply trimedArgs_no_space.
  - subst tokens. unfold netemTokens, delayTokens, limitTokens, probTokens in H.
    destruct (Z.ltb_spec 0 (Netem.Time netem)); [discriminate|]. assumption.
  - subst tokens. unfold netemTokens, delayTokens, limitTokens, probTokens in H.
    destruct (Z.ltb_spec 0 (Netem.Time netem)); [discriminate|].
    destruct (Z.ltb_spec 0 (Netem.Limit netem)); [discriminate|]. assumption.
  - subst tokens. unfold netemTokens, delayTokens, limitTokens, probTokens in H.
    destruct (Z.ltb_spec 0 (Netem.Time netem)); [discriminate|].
    destruct (Z.ltb_spec 0 (Netem.Limit netem)); [discriminate|].
    destruct (float32_gt0 (Netem.Loss netem)); [discriminate|reflexivity].
  - subst tokens. unfold netemTokens, delayTokens, limitTokens, probTokens in H.
    destruct (Z.ltb_spec 0 (Netem.Time netem)); [discriminate|].
    destruct (Z.ltb_spec 0 (Netem.Limit netem)); [discriminate|].
    destruct (float32_gt0 (Netem.Loss netem)); [discriminate|].
    destruct (float32_gt0 (Netem.Duplicate netem)); [discriminate|reflexivity].
  - subst tokens. unfold netemTokens, delayTokens, limitTokens, probTokens in H.
    destruct (Z.ltb_spec 0 (Netem.Time netem)); [discriminate|].
    destruct (Z.ltb_spec 0 (Netem.Limit netem)); [discriminate|].
    destruct (float32_gt0 (Netem.Loss netem)); [discriminate|].
    destruct (float32_gt0 (Netem.Duplicate netem)); [discriminate|].
    destruct (float32_gt0 (Netem.Corrupt netem)); [discriminate|reflexivity].
  - intros (Ht & Hl & Hlo & Hd & Hc). subst tokens.
    unfold netemTokens, delayTokens, limitTokens, probTokens.
    rewrite Hlo, Hd, Hc.
    destruct (Z.ltb_spec 0 (Netem.Time netem)); [lia|].
    destruct (Z.ltb_spec 0 (Netem.Limit netem)); [lia|]. reflexivity.
  - exact Hnon.
Qed.

Lemma addNetem_arguments_witness :
  snd (addNetem Demo.calm (buildTcClient "/proc/42/ns/net") "root" "handle 1:"
         (@reorderOnly Demo.micro (0, 500000)) [])
  = [EvExec (tcCmd "/proc/42/ns/net"
               ["qdisc"; "add"; "dev"; "eth0"; "root"; "handle"; "1:"; "netem"; ""])].
Proof.
  exact (proj1 (@addNetem_arguments Demo.micro micro_laws Demo.calm
                  (buildTcClient "/proc/42/ns/net") "root" "handle 1:"
                  (@reorderOnly Demo.micro (0, 500000)) [])).
Defined.

(** X12. For qdiscs with a type, [generateQdiscArgs] gives the same
    arguments exactly when the qdiscs agree on the type, on the other
    arguments, on the handle (a missing one counting as [1:0]) and on the
    parent (a missing one and [1:0] both counting as the root): handles
    that differ in a number are never rendered alike. *)
Theorem generateQdiscArgs_inj (action : string) (q1 q2 : Qdisc.t) :
  Qdisc.Type_ q1 <> "" -> Qdisc.Type_ q2 <> "" ->
  (generateQdiscArgs action (Some q1) = generateQdiscArgs action (Some q2)
   <-> (effectiveParent q1 = effectiveParent q2
        /\ effectiveHandle q1 = effectiveHandle q2
        /\ Qdisc.Type_ q1 = Qdisc.Type_ q2
        /\ Qdisc.Args q1 = Qdisc.Args q2)).
Proof.
  intros H1 H2. rewrite !generateQdiscArgs_effective by assumption. split.
  - intros [= H]. revert H.
    assert (Hh : forall a b : TcHandle,
               GoFmt.handle_pair (Major a) (Minor a) = GoFmt.handle_pair (Major b) (Minor b)
               -> a = b).
    { intros [a1 a2] [b1 b2]; simpl. intros [-> ->]%handle_pair_inj. reflexivity. }
    destruct (effectiveParent q1) as [p1|], (effectiveParent q2) as [p2|]; simpl;
      try discriminate.
    + intros [= Hp Hhd Hty Hargs]. apply Hh in Hp, Hhd. now subst.
    + intros [= Hhd Hty Hargs]. apply Hh in Hhd. now subst.
  - intros (-> & -> & -> & ->). reflexivity.
Qed.

Lemma generateQdiscArgs_inj_witness :
  generateQdiscArgs "add" (Some (Qdisc.mk None None "netem" ["delay"; "1000"]))
  = generateQdiscArgs "add"
      (Some (Qdisc.mk (Some {| Major := 1; Minor := 0 |})
                      (Some {| Major := 1; Minor := 0 |}) "netem" ["delay"; "1000"])).
Proof.
  apply (generateQdiscArgs_inj "add"); [discriminate|discriminate|].
  repeat split.
Defined.

(** ** The redis attack *)

Section RedisFacts.
Import Redis.

Lemma len_zero s : (GoStrings.len s =? 0) = String.eqb s "".
Proof. destruct s; reflexivity. Qed.

(** The requests of [shutdownSentinelServer]: the flush alone when it
    fails, else the shutdown after it. *)
Lemma shutdownSentinelServer_trace env attack h :
  let flush := SentinelFlushConfig (Addr attack) in
  let shutdown := Shutdown (Addr attack) (Password attack) in
  exists evs,
    snd (shutdownSentinelServer env attack h) = h ++ evs
    /\ ((evs = [flush] /\ fst (shutdownSentinelServer env attack h) <> None)
        \/ evs = [flush; shutdown] \/ evs = [shutdown]).
Proof.
  intros flush shutdown. unfold shutdownSentinelServer, call. fold flush shutdown.
  destruct (FlushConfig attack).
  - destruct (Result env h flush) as [result [err|]].
    + exists [flush]. split; [reflexivity|]. left. split; [reflexivity|discriminate].
    + destruct (String.eqb result STATUSOK); simpl.
      * exists [flush; shutdown].
        destruct (Result env (h ++ [flush]) shutdown) as [res err].
        destruct (String.eqb res ""); simpl; rewrite <- app_assoc; auto.
      * exists [flush]. split; [reflexivity|]. left. split; [reflexivity|discriminate].
  - exists [shutdown]. destruct (Result env h shutdown) as [res err].
    destruct (String.eqb res ""); simpl; auto.
Qed.

Lemma recoverSentinelStop_trace env attack h :
  let exec := Exec "redis-server" [Conf attack; "--sentinel"] in
  (Conf attack = "" /\ snd (recoverSentinelStop env attack h) = h)
  \/ (Conf attack <> "" /\ snd (recoverSentinelStop env attack h) = h ++ [exec]).
Proof.
  intros exec. unfold recoverSentinelStop, call. fold exec.
  destruct (String.eqb_spec (Conf attack) ""); [left; now split|right].
  split; [assumption|]. destruct (Result env h exec) as [out [err|]]; reflexivity.
Qed.

(** The loop of the penetration case when the number of rounds is the
    quotient rounded up: full batches, then the rest. *)
Lemma spawned_exact F C :
  0 < C -> 0 <= F ->
  forall fuel i,
    0 <= i <= F / C -> Z.of_nat fuel = (F + C - 1) / C - i ->
    spawned F C ((F + C - 1) / C) i fuel
    = repeat C (Z.to_nat (F / C - i)) ++ (if F mod C =? 0 then [] else [F mod C]).
Proof.
  intros HC HF.
  pose proof (Z.div_mod F C ltac:(lia)) as Hdm.
  pose proof (Z.mod_pos_bound F C HC) as Hr.
  assert (Hnum : (F + C - 1) / C = F / C + (if F mod C =? 0 then 0 else 1)).
  { destruct (Z.eqb_spec (F mod C) 0) as [E|E].
    - symmetry. apply (Z.div_unique_pos _ _ _ (C - 1)); lia.
    - symmetry. apply (Z.div_unique_pos _ _ _ (F mod C - 1)); lia. }
  rewrite Hnum. set (q := F / C) in *. set (r := F mod C) in *.
  induction fuel as [|fuel IH]; intros i Hi Hfuel.
  - destruct (Z.eqb_spec r 0); [|lia].
    replace (q - i) with 0 by lia. reflexivity.
  - cbn [spawned].
    destruct (Z.ltb_spec i (q + (if r =? 0 then 0 else 1))) as [Hlt|Hge]; [|lia].
    destruct (Z.eq_dec i q) as [->|Hne].
    + destruct (Z.eqb_spec r 0) as [E|E]; [lia|].
      replace (F - q * C) with r by lia.
      destruct (Z.ltb_spec r C); [|lia].
      replace (q - q) with 0 by lia.
      destruct fuel; [reflexivity|lia].
    + assert (Hfull : C <= F - i * C) by nia.
      destruct (Z.ltb_spec (F - i * C) C); [lia|].
      rewrite IH by lia.
      replace (Z.to_nat (q - i)) with (S (Z.to_nat (q - (i + 1)))) by lia.
      reflexivity.
Qed.

Lemma goroutines_length attack C tl : forall n,
  length (concat (List.map (goroutine attack) (repeat C n ++ tl)))
  = (n * Z.to_nat C + length (concat (List.map (goroutine attack) tl)))%nat.
Proof.
  induction n as [|n IH]; [reflexivity|].
  cbn [repeat app List.map concat]. rewrite length_app, IH.
  unfold goroutine at 1. rewrite repeat_length. lia.
Qed.

Lemma goroutines_same attack l :
  concat (List.map (goroutine attack) l)
  = repeat (Get (Addr attack) (Password attack) "CHAOS_MESH_nqE3BWm7khHv")
           (length (concat (List.map (goroutine attack) l))).
Proof.
  induction l as [|cn l IH]; [reflexivity|].
  cbn [List.map concat]. rewrite length_app, repeat_app, <- IH.
  unfold goroutine. now rewrite repeat_length.
Qed.

End RedisFacts.

(** X13. [Validate] accepts exactly the commands whose common part is
    valid, that name an address and that, for a penetration, ask for a
    number of requests other than zero and, for an expiration, carry one
    of the options XX, NX, GT, LT or none.  The error of the common part
    comes first, then the missing address.  The configuration file is
    never looked at, whatever the action. *)
Theorem Validate_spec (common : option error) (r : Redis.RedisCommand) :
  (Redis.Validate common r = None
   <-> common = None
       /\ Redis.Addr r <> ""
       /\ (Redis.Action r = "penetration" -> Redis.RequestNum r <> 0)
       /\ (Redis.Action r = "expiration"
           -> In (Redis.Option r) [""; "XX"; "NX"; "GT"; "LT"]))
  /\ (forall e, common = Some e -> Redis.Validate common r = Some e)
  /\ (common = None -> Redis.Addr r = "" ->
      Redis.Validate common r = Some (Errorf "addr of redis server is required"))
  /\ (forall conf,
         Redis.Validate common r
         = Redis.Validate common
             {| Redis.Action := Redis.Action r; Redis.Addr := Redis.Addr r;
                Redis.Password := Redis.Password r; Redis.Conf := conf;
                Redis.FlushConfig := Redis.FlushConfig r;
                Redis.RedisPath := Redis.RedisPath r;
                Redis.RequestNum := Redis.RequestNum r; Redis.Key := Redis.Key r;
                Redis.Expiration := Redis.Expiration r; Redis.Option := Redis.Option r;
                Redis.Frequency := Redis.Frequency r;
                Redis.ConcurrentNum := Redis.ConcurrentNum r |}).
Proof.
  unfold Redis.Validate. rewrite !len_zero.
  unfold Redis.RedisCachePenetrationAction, Redis.RedisCacheExpirationAction.
  split; [|split; [|split]].
  - destruct common as [e|]; [split; [discriminate|intros [[=] _]]|].
    destruct (String.eqb_spec (Redis.Addr r) "") as [Ha|Ha];
      [split; [discriminate|intros (_ & H & _); contradiction]|].
    destruct (String.eqb_spec (Redis.Action r) "penetration") as [Hp|Hp].
    { destruct (Z.eqb_spec (Redis.RequestNum r) 0) as [Hn|Hn].
      - split; [discriminate|]. intros (_ & _ & H & _). now apply H in Hn.
      - split; [|reflexivity]. intros _. split; [reflexivity|].
        split; [assumption|]. split; [intros _; assumption|].
        rewrite Hp. discriminate. }
    destruct (String.eqb_spec (Redis.Action r) "expiration") as [He|He].
    { assert (Hyes : In (Redis.Option r) [""; "XX"; "NX"; "GT"; "LT"] ->
                     None = (None : option error)
                     <-> None = (None : option error) /\ Redis.Addr r <> ""
                         /\ (Redis.Action r = "penetration" -> Redis.RequestNum r <> 0)
                         /\ (Redis.Action r = "expiration"
                             -> In (Redis.Option r) [""; "XX"; "NX"; "GT"; "LT"])).
      { intros Hin. split; [|reflexivity]. intros _. split; [reflexivity|].
        split; [assumption|]. split; [intros; contradiction|intros _; assumption]. }
      destruct (String.eqb_spec (Redis.Option r) "") as [H0|H0];
        [apply Hyes; rewrite H0; simpl; auto|].
      destruct (String.eqb_spec (Redis.Option r) "XX") as [H1|H1];
        [apply Hyes; rewrite H1; simpl; auto|].
      destruct (String.eqb_spec (Redis.Option r) "NX") as [H2|H2];
        [apply Hyes; rewrite H2; simpl; auto|].
      destruct (String.eqb_spec (Redis.Option r) "GT") as [H3|H3];
        [apply Hyes; rewrite H3; simpl; auto|].
      destruct (String.eqb_spec (Redis.Option r) "LT") as [H4|H4];
        [apply Hyes; rewrite H4; simpl; auto 6|].
      cbn [negb andb].
      split; [discriminate|]. intros (_ & _ & _ & H). specialize (H He). simpl in H.
      destruct H as [H|[H|[H|[H|[H|[]]]]]]; symmetry in H; contradiction. }
    split; [|reflexivity]. intros _. split; [reflexivity|].
    split; [assumption|]. split; intros; contradiction.
  - now intros e ->.
  - intros -> ->. reflexivity.
  - intros conf. cbn [Redis.Addr Redis.Action Redis.RequestNum Redis.Option].
    rewrite ?len_zero. reflexivity.
Qed.

(** X14. [shutdownSentinelServer]: when the flush of the configuration is
    asked for and fails or answers anything but [OK], the shutdown is
    not sent and the call fails.  Otherwise the shutdown is the last
    request, and the call fails only when the shutdown gives both a
    result that is not empty and an error: an error that comes with an
    empty result, as after a shutdown that worked, is dropped. *)
Theorem shutdownSentinelServer_spec (env : Redis.Env) (attack : Redis.RedisCommand)
        (h : list Redis.Request) :
  let flush := Redis.SentinelFlushConfig (Redis.Addr attack) in
  let shutdown := Redis.Shutdown (Redis.Addr attack) (Redis.Password attack) in
  let h1 := if Redis.FlushConfig attack then h ++ [flush] else h in
  let out := Redis.shutdownSentinelServer env attack h in
  (Redis.FlushConfig attack = true -> Redis.Result env h flush <> ("OK", None) ->
   snd out = h ++ [flush]
   /\ exists e,
       fst out = Some (WithStack e)
       /\ (snd (Redis.Result env h flush) = Some e
           \/ (snd (Redis.Result env h flush) = None
               /\ e = Errorf ("redis command status is "
                              +:+ fst (Redis.Result env h flush)))))
  /\ (Redis.FlushConfig attack = false \/ Redis.Result env h flush = ("OK", None) ->
      snd out = h1 ++ [shutdown]
      /\ (fst out = None
          <-> fst (Redis.Result env h1 shutdown) = ""
              \/ snd (Redis.Result env h1 shutdown) = None)
      /\ (forall e, fst out = Some e ->
            exists err, snd (Redis.Result env h1 shutdown) = Some err
                        /\ e = WithStack err)).
Proof.
  intros flush shutdown h1 out. subst out h1.
  unfold Redis.shutdownSentinelServer, Redis.call. fold flush shutdown.
  split.
  - intros -> Hne. destruct (Redis.Result env h flush) as [result [err|]]; simpl.
    + split; [reflexivity|]. eauto.
    + destruct (String.eqb_spec result Redis.STATUSOK) as [->|Hr]; [now destruct Hne|].
      simpl. split; [reflexivity|]. eauto.
  - assert (Hshut : forall h1,
      let out := (let '(result, err, h2) :=
                    (Redis.Result env h1 shutdown, h1 ++ [shutdown]) in
                  if negb (String.eqb result "") then (Redis.WithStack_ err, h2)
                  else (None, h2)) in
      snd out = h1 ++ [shutdown]
      /\ (fst out = None
          <-> fst (Redis.Result env h1 shutdown) = ""
              \/ snd (Redis.Result env h1 shutdown) = None)
      /\ (forall e, fst out = Some e ->
            exists err, snd (Redis.Result env h1 shutdown) = Some err
                        /\ e = WithStack err)).
    { intros h1. cbv zeta. destruct (Redis.Result env h1 shutdown) as [res err].
      destruct (String.eqb_spec res "") as [->|Hres]; simpl.
      - split; [reflexivity|]. split; [tauto|discriminate].
      - split; [reflexivity|]. destruct err as [err|]; simpl.
        + split; [split; [discriminate|intros [?|[=]]; contradiction]|].
          intros e [= <-]. eauto.
        + split; [tauto|discriminate]. }
    intros [Hf|Hok].
    + rewrite Hf. apply Hshut.
    + destruct (Redis.FlushConfig attack); [|apply Hshut].
      rewrite Hok. simpl. apply Hshut.
Qed.

Lemma shutdownSentinelServer_spec_witness :
  snd (Redis.shutdownSentinelServer Redis.quiet
         {| Redis.Action := "stop"; Redis.Addr := "127.0.0.1:26379";
            Redis.Password := ""; Redis.Conf := ""; Redis.FlushConfig := true;
            Redis.RedisPath := ""; Redis.RequestNum := 0; Redis.Key := "";
            Redis.Expiration := ""; Redis.Option := ""; Redis.Frequency := 0;
            Redis.ConcurrentNum := 0 |} [])
  = [Redis.SentinelFlushConfig "127.0.0.1:26379"; Redis.Shutdown "127.0.0.1:26379" ""].
Proof.
  exact (proj1 (proj2 (shutdownSentinelServer_spec Redis.quiet _ []) (or_intror eq_refl))).
Defined.

(** X15. What [Attack] asks for, when it returns: first a ping, and
    nothing more when the ping fails.  The server program is started only
    by the restart action, with the configuration file and [--sentinel],
    as the last request and only after a shutdown that gave no error; a
    shutdown is sent only by the restart and the stop action, a [Get] only
    by the penetration.  Any other action, such as the expiration that
    [Validate] knows, only pings. *)
Theorem Attack_requests (env : Redis.Env) (attack : Redis.RedisCommand)
        (h h' : list Redis.Request) (err : option error) :
  Redis.Attack env attack h = Redis.Returned err h' ->
  let ping := Redis.Ping (Redis.Addr attack) (Redis.Password attack) in
  let shutdown := Redis.Shutdown (Redis.Addr attack) (Redis.Password attack) in
  exists evs,
    h' = h ++ ping :: evs
    /\ (forall e, snd (Redis.Result env h ping) = Some e ->
          evs = [] /\ err = Some (WithStack e))
    /\ (forall name args, In (Redis.Exec name args) evs ->
          Redis.Action attack = "restart"
          /\ name = "redis-server" /\ args = [Redis.Conf attack; "--sentinel"]
          /\ Redis.Conf attack <> ""
          /\ (exists front, evs = front ++ [Redis.Exec name args]
                            /\ In shutdown front
                            /\ Redis.shutdownSentinelServer env attack (h ++ [ping])
                               = (None, h ++ ping :: front)))
    /\ (In shutdown evs -> Redis.Action attack = "restart" \/ Redis.Action attack = "stop")
    /\ (forall a p k, In (Redis.Get a p k) evs -> Redis.Action attack = "penetration")
    /\ (Redis.Action attack <> "restart" -> Redis.Action attack <> "stop" ->
        Redis.Action attack <> "penetration" ->
        evs = [] /\ (snd (Redis.Result env h ping) = None -> err = None)).
Proof.
  intros Hrun ping shutdown. unfold Redis.Attack, Redis.call in Hrun.
  fold ping in Hrun.
  unfold Redis.RedisSentinelRestartAction, Redis.RedisSentinelStopAction,
    Redis.RedisCachePenetrationAction in Hrun.
  destruct (Redis.Result env h ping) as [pong [e|]] eqn:Hping; simpl snd.
  { injection Hrun as <- <-. exists []. split; [reflexivity|].
    split; [intros e' [= <-]; now split|].
    split; [intros ? ? []|]. split; [intros []|]. split; [intros ? ? ? []|].
    intros _ _ _. split; [reflexivity|discriminate]. }
  assert (Hcons : forall evs, (h ++ [ping]) ++ evs = h ++ ping :: evs)
    by (intros; now rewrite <- app_assoc).
  destruct (String.eqb_spec (Redis.Action attack) "restart") as [Hact|Hact].
  { destruct (shutdownSentinelServer_trace env attack (h ++ [ping])) as (evs & Hsnd & Hevs).
    cbv zeta in Hevs. fold shutdown in Hevs.
    destruct (Redis.shutdownSentinelServer env attack (h ++ [ping])) as [[e|] h1] eqn:Hshut;
      simpl in Hsnd; subst h1.
    - injection Hrun as <- <-. exists evs. split; [apply Hcons|].
      split; [discriminate|]. split.
      + intros name args Hin.
        destruct Hevs as [[-> _] | [-> | ->]]; simpl in Hin;
          repeat destruct Hin as [Hin|Hin]; try discriminate; contradiction.
      + split; [auto|]. split.
        * intros a p k Hin.
          destruct Hevs as [[-> _] | [-> | ->]]; simpl in Hin;
            repeat destruct Hin as [Hin|Hin]; try discriminate; contradiction.
        * intros H; contradiction.
    - assert (Hin : In shutdown evs).
      { destruct Hevs as [[_ Hne] | [-> | ->]]; simpl; auto. now destruct Hne. }
      assert (Hnoget : forall a p k, ~ In (Redis.Get a p k) evs).
      { intros a p k Hg. destruct Hevs as [[-> _] | [-> | ->]]; simpl in Hg;
          repeat destruct Hg as [Hg|Hg]; try discriminate; contradiction. }
      assert (Hnoexec : forall name args, ~ In (Redis.Exec name args) evs).
      { intros a p Hg. destruct Hevs as [[-> _] | [-> | ->]]; simpl in Hg;
          repeat destruct Hg as [Hg|Hg]; try discriminate; contradiction. }
      destruct (recoverSentinelStop_trace env attack ((h ++ [ping]) ++ evs))
        as [[Hconf Hrec]|[Hconf Hrec]];
        destruct (Redis.recoverSentinelStop env attack ((h ++ [ping]) ++ evs))
          as [e2 h2]; simpl in Hrec; subst h2; injection Hrun as <- <-.
      + exists evs. split; [apply Hcons|]. split; [discriminate|].
        split; [intros name args Hi; now destruct (Hnoexec _ _ Hi)|].
        split; [auto|]. split; [intros a p k Hi; now destruct (Hnoget _ _ _ Hi)|].
        intros H; contradiction.
      + exists (evs ++ [Redis.Exec "redis-server" [Redis.Conf attack; "--sentinel"]]).
        split; [now rewrite <- !app_assoc|]. split; [discriminate|].
        split.
        * intros name args Hi. apply in_app_or in Hi as [Hi|[Heq|[]]];
            [now destruct (Hnoexec _ _ Hi)|]. injection Heq as <- <-.
          repeat split; try assumption.
          exists evs. repeat split; [assumption|now rewrite Hcons].
        * split; [auto|]. split; [|intros H; contradiction].
          intros a p k Hi. apply in_app_or in Hi as [Hi|[Heq|[]]];
            [now destruct (Hnoget _ _ _ Hi)|discriminate Heq]. }
  destruct (String.eqb_spec (Redis.Action attack) "stop") as [Hstop|Hstop].
  { destruct (shutdownSentinelServer_trace env attack (h ++ [ping])) as (evs & Hsnd & Hevs).
    cbv zeta in Hevs. fold shutdown in Hevs.
    destruct (Redis.shutdownSentinelServer env attack (h ++ [ping])) as [e h1];
      simpl in Hsnd; subst h1. injection Hrun as <- <-.
    exists evs. split; [apply Hcons|]. split; [discriminate|]. split.
    - intros name args Hin.
      destruct Hevs as [[-> _] | [-> | ->]]; simpl in Hin;
        repeat destruct Hin as [Hin|Hin]; try discriminate; contradiction.
    - split; [auto|]. split.
      + intros a p k Hin.
        destruct Hevs as [[-> _] | [-> | ->]]; simpl in Hin;
          repeat destruct Hin as [Hin|Hin]; try discriminate; contradiction.
      + intros _ H; contradiction. }
  destruct (String.eqb_spec (Redis.Action attack) "penetration") as [Hpen|Hpen].
  { unfold Redis.penetration in Hrun.
    set (gets := concat (List.map (Redis.goroutine attack) _)) in Hrun.
    assert (Hgets : forall req, In req gets -> exists a p k, req = Redis.Get a p k).
    { intros req Hin. subst gets. rewrite goroutines_same in Hin.
      apply repeat_spec in Hin. eauto. }
    destruct (Redis.Frequency attack <? 0); [discriminate|].
    destruct (Z.of_nat (length gets) =? Redis.Frequency attack);
      [|destruct (Z.of_nat (length gets) <? Redis.Frequency attack); discriminate].
    injection Hrun as <- <-. exists gets. split; [apply Hcons|]. split; [discriminate|].
    split; [intros name args Hi; destruct (Hgets _ Hi) as (? & ? & ? & [=])|].
    split; [intros Hi; destruct (Hgets _ Hi) as (? & ? & ? & [=])|].
    split; [auto|]. intros _ _ H; contradiction. }
  injection Hrun as <- <-. exists []. split; [reflexivity|]. split; [discriminate|].
  split; [intros ? ? []|]. split; [intros []|]. split; [intros ? ? ? []|].
  intros _ _ _. now split.
Qed.

Lemma Attack_requests_witness :
  exists evs,
    [Redis.Ping "127.0.0.1:26379" "";
     Redis.Shutdown "127.0.0.1:26379" "";
     Redis.Exec "redis-server" ["/etc/sentinel.conf"; "--sentinel"]]
    = [] ++ Redis.Ping "127.0.0.1:26379" "" :: evs.
Proof.
  destruct (Attack_requests Redis.quiet
              {| Redis.Action := "restart"; Redis.Addr := "127.0.0.1:26379";
                 Redis.Password := ""; Redis.Conf := "/etc/sentinel.conf";
                 Redis.FlushConfig := false;
                 Redis.RedisPath := ""; Redis.RequestNum := 0; Redis.Key := "";
                 Redis.Expiration := ""; Redis.Option := ""; Redis.Frequency := 0;
                 Redis.ConcurrentNum := 0 |} [] _ None eq_refl) as (evs & H & _).
  exists evs. exact H.
Defined.

(** X16. The penetration with a concurrency above zero, a frequency that
    is not negative and the quotient of the two rounded up exactly: the
    goroutines get the concurrency as their share, as often as it fits
    into the frequency, and a last one gets the rest, if there is one.
    Together they send as many [Get] requests as the frequency says,
    which is what the wait group waits for: the call returns without an
    error, it neither blocks nor panics. *)
Theorem penetration_batches (env : Redis.Env) (attack : Redis.RedisCommand)
        (h : list Redis.Request) :
  let F := Redis.Frequency attack in
  let C := Redis.ConcurrentNum attack in
  0 < C -> 0 <= F ->
  Redis.ceilQuot env F C = (F + C - 1) / C ->
  let num := Redis.ceilQuot env F C in
  let get := Redis.Get (Redis.Addr attack) (Redis.Password attack)
                       "CHAOS_MESH_nqE3BWm7khHv" in
  Redis.spawned F C num 0 (Z.to_nat num)
  = repeat C (Z.to_nat (F / C)) ++ (if F mod C =? 0 then [] else [F mod C])
  /\ Redis.penetration env attack h = Redis.Returned None (h ++ repeat get (Z.to_nat F))
  /\ (Redis.Action attack = "penetration" ->
      snd (Redis.Result env h (Redis.Ping (Redis.Addr attack) (Redis.Password attack)))
      = None ->
      Redis.Attack env attack h
      = Redis.Returned None
          (h ++ Redis.Ping (Redis.Addr attack) (Redis.Password attack)
             :: repeat get (Z.to_nat F))).
Proof.
  intros F C HC HF Hceil num get. subst num.
  assert (Hnum : 0 <= (F + C - 1) / C) by (apply Z.div_pos; lia).
  assert (Hsp : Redis.spawned F C ((F + C - 1) / C) 0 (Z.to_nat ((F + C - 1) / C))
                = repeat C (Z.to_nat (F / C)) ++ (if F mod C =? 0 then [] else [F mod C])).
  { rewrite (spawned_exact F C HC HF).
    - now rewrite Z.sub_0_r.
    - split; [lia|]. apply Z.div_pos; lia.
    - lia. }
  assert (Hpen : forall h0, Redis.penetration env attack h0
                            = Redis.Returned None (h0 ++ repeat get (Z.to_nat F))).
  { intros h0. unfold Redis.penetration. fold F C. rewrite Hceil, Hsp.
    destruct (Z.ltb_spec F 0); [lia|].
    rewrite goroutines_same. fold get. rewrite repeat_length.
    assert (Hlen : length (concat (List.map (Redis.goroutine attack)
                     (repeat C (Z.to_nat (F / C))
                      ++ (if F mod C =? 0 then [] else [F mod C]))))
                   = Z.to_nat F).
    { rewrite goroutines_length.
      pose proof (Z.div_mod F C ltac:(lia)) as Hdm.
      pose proof (Z.mod_pos_bound F C HC) as Hr.
      assert (0 <= F / C) by (apply Z.div_pos; lia).
      destruct (Z.eqb_spec (F mod C) 0) as [E|E]; simpl.
      - nia.
      - unfold Redis.goroutine. rewrite app_nil_r, repeat_length. nia. }
    rewrite Hlen, Z2Nat.id by lia. now rewrite Z.eqb_refl. }
  split; [rewrite Hceil; exact Hsp|]. split; [apply Hpen|].
  intros Hact Hping. unfold Redis.Attack, Redis.call.
  destruct (Redis.Result env h _) as [pong e]. simpl in Hping. subst e.
  rewrite Hact. simpl. rewrite Hpen. now rewrite <- app_assoc.
Qed.

Lemma penetration_batches_witness :
  Redis.spawned 10 4 3 0 3 = [4; 4; 2].
Proof.
  exact (proj1 (penetration_batches Redis.quiet
                  {| Redis.Action := "penetration"; Redis.Addr := "127.0.0.1:6379";
                     Redis.Password := ""; Redis.Conf := "";
                     Redis.FlushConfig := false;
                     Redis.RedisPath := ""; Redis.RequestNum := 10; Redis.Key := "";
                     Redis.Expiration := ""; Redis.Option := ""; Redis.Frequency := 10;
                     Redis.ConcurrentNum := 4 |} [] eq_refl ltac:(discriminate) eq_refl)).
Defined.

(** X17. [Recover] undoes the stop action only, by starting the server
    again with the configuration file; for every other action it asks
    for nothing and reports success.  A stop command without a
    configuration file passes [Validate], but its recovery fails before
    anything is started. *)
Theorem Recover_spec (env : Redis.Env) (attack : Redis.RedisCommand)
        (h : list Redis.Request) :
  let exec := Redis.Exec "redis-server" [Redis.Conf attack; "--sentinel"] in
  (forall e, Redis.Recover env (inl e) h = (Some e, h))
  /\ (Redis.Action attack <> "stop" -> Redis.Recover env (inr attack) h = (None, h))
  /\ (Redis.Action attack = "stop" -> Redis.Conf attack <> "" ->
      snd (Redis.Recover env (inr attack) h) = h ++ [exec]
      /\ fst (Redis.Recover env (inr attack) h)
         = Redis.WithStack_ (snd (Redis.Result env h exec)))
  /\ (Redis.Action attack = "stop" -> Redis.Conf attack = "" ->
      Redis.Recover env (inr attack) h
      = (Some (WithStack (Errorf "redis config is not present")), h)
      /\ (Redis.Addr attack <> "" -> Redis.Validate None attack = None)).
Proof.
  intros exec. unfold Redis.Recover, Redis.RedisSentinelStopAction.
  split; [reflexivity|]. split; [|split].
  - intros Hact. now destruct (String.eqb_spec (Redis.Action attack) "stop").
  - intros -> Hconf. simpl. unfold Redis.recoverSentinelStop, Redis.call. fold exec.
    destruct (String.eqb_spec (Redis.Conf attack) ""); [contradiction|].
    destruct (Redis.Result env h exec) as [out [e|]]; now split.
  - intros Hact Hconf. rewrite Hact. simpl. unfold Redis.recoverSentinelStop.
    rewrite Hconf. simpl. split; [reflexivity|].
    intros Haddr. unfold Redis.Validate. rewrite len_zero, Hact.
    now destruct (String.eqb_spec (Redis.Addr attack) "").
Qed.

Lemma Recover_spec_witness :
  Redis.Recover Redis.quiet
    (inr {| Redis.Action := "stop"; Redis.Addr := "127.0.0.1:26379";
            Redis.Password := ""; Redis.Conf := ""; Redis.FlushConfig := false;
            Redis.RedisPath := ""; Redis.RequestNum := 0; Redis.Key := "";
            Redis.Expiration := ""; Redis.Option := ""; Redis.Frequency := 0;
            Redis.ConcurrentNum := 0 |}) []
  = (Some (WithStack (Errorf "redis config is not present")), []).
Proof.
  exact (proj1 (proj2 (proj2 (proj2 (Recover_spec Redis.quiet
           {| Redis.Action := "stop"; Redis.Addr := "127.0.0.1:26379";
              Redis.Password := ""; Redis.Conf := ""; Redis.FlushConfig := false;
              Redis.RedisPath := ""; Redis.RequestNum := 0; Redis.Key := "";
              Redis.Expiration := ""; Redis.Option := ""; Redis.Frequency := 0;
              Redis.ConcurrentNum := 0 |} []))) eq_refl eq_refl)).
Defined.

(** X18. When the number of rounds computed for a penetration is not
    above zero although requests are asked for, as with a concurrency
    below zero, no goroutine is started and no [Get] is sent, yet the
    wait group still waits for the requests: the call never returns. *)
Theorem penetration_without_rounds_blocks (env : Redis.Env)
        (attack : Redis.RedisCommand) (h : list Redis.Request) :
  0 < Redis.Frequency attack ->
  Redis.ceilQuot env (Redis.Frequency attack) (Redis.ConcurrentNum attack) <= 0 ->
  Redis.penetration env attack h = Redis.Blocked h
  /\ (Redis.Action attack = "penetration" ->
      snd (Redis.Result env h (Redis.Ping (Redis.Addr attack) (Redis.Password attack)))
      = None ->
      Redis.Attack env attack h
      = Redis.Blocked (h ++ [Redis.Ping (Redis.Addr attack) (Redis.Password attack)])).
Proof.
  intros HF Hnum.
  assert (Hpen : forall h0, Redis.penetration env attack h0 = Redis.Blocked h0).
  { intros h0. unfold Redis.penetration.
    replace (Z.to_nat (Redis.ceilQuot env _ _)) with 0%nat by lia.
    cbn [Redis.spawned List.map concat length]. rewrite app_nil_r.
    destruct (Z.ltb_spec (Redis.Frequency attack) 0); [lia|].
    destruct (Z.eqb_spec (Z.of_nat 0) (Redis.Frequency attack)); [lia|].
    destruct (Z.ltb_spec (Z.of_nat 0) (Redis.Frequency attack)); [reflexivity|lia]. }
  split; [apply Hpen|]. intros Hact Hping. unfold Redis.Attack, Redis.call.
  destruct (Redis.Result env h _) as [pong e]. simpl in Hping. subst e.
  rewrite Hact. simpl. apply Hpen.
Qed.

Lemma penetration_without_rounds_blocks_witness :
  Redis.penetration Redis.quiet
    {| Redis.Action := "penetration"; Redis.Addr := "127.0.0.1:6379";
       Redis.Password := ""; Redis.Conf := ""; Redis.FlushConfig := false;
       Redis.RedisPath := ""; Redis.RequestNum := 5; Redis.Key := "";
       Redis.Expiration := ""; Redis.Option := ""; Redis.Frequency := 5;
       Redis.ConcurrentNum := -1 |} []
  = Redis.Blocked [].
Proof.
  exact (proj1 (penetration_without_rounds_blocks Redis.quiet
                  {| Redis.Action := "penetration"; Redis.Addr := "127.0.0.1:6379";
                     Redis.Password := ""; Redis.Conf := ""; Redis.FlushConfig := false;
                     Redis.RedisPath := ""; Redis.RequestNum := 5; Redis.Key := "";
                     Redis.Expiration := ""; Redis.Option := ""; Redis.Frequency := 5;
                     Redis.ConcurrentNum := -1 |} [] eq_refl ltac:(discriminate))).
Defined.
